(** * respoke: call state machine and signaling channel

    A shallow embedding of the parts of the respoke client library that
    the specification's claims are about:

    - [CallState]: the per-call finite-state machine.  Its implementation
      file is not among the sources (only its unit tests,
      spec/unit/client/call-state.spec.js, are), so the machine is
      modelled from the specification's transition table.
    - [Js]: JSON values and the operations of JavaScript on them that the
      channel relies on.
    - [JsObject]: the objects that the channel uses as maps and sets of
      names.
    - [Routing]: [routingMethods] and the success handler of
      [routeSignal], of respoke/signalingChannel.js.
    - [PendingRequests]: the container at the top of signalingChannel.js.
    - [Encoding]: the body-size computation of [wsCall].
    - [Channel]: [wsCall], [handleResponse], [failWebsocketRequest],
      [sendWebsocketRequest], the disconnect handler, and the batching
      closures [joinGroup] and [registerPresence], run by an event loop
      with a promise store and a timer queue.
    - [Sample]: an instance of the platform to run examples on.
    - [History]: relations between a state of the channel and its later
      states, for the invariants of the event loop.
    - [Signals]: [socketOnSignal], in front of [routeSignal].
    - [Text] and [Http]: [makeParamString], [getAllResponseHeaders], the
      callback of [call] and the handlers of [doOpen] and [getToken].
    - [Reconnect]: [reconnect] and its timer's callback.
    - [Connection] and [Endpoint]: [resolvePresence] and [getConnection]
      of respoke/endpoint.js.
    - [Connecting]: the socket parameters of [authenticate] and the
      handler of [getTurnCredentials].

    The facts proved about them follow the definitions. *)

From Stdlib Require Import ZArith Lia Ascii String.
From stdpp Require Import base option list strings numbers pretty gmap.

Local Open Scope Z_scope.
Set Warnings "-register-all".

(* ===================================================================== *)
(** ** CallState *)
(* ===================================================================== *)

Module CallState.

(** The nine states and eleven events of specification section 4.1. *)
Inductive State :=
| idle | preparing | approvingDeviceAccess | approvingContent
| offering | connecting | connected | modifying | terminated.

Inductive Event :=
| initiate | answer | approve | receiveLocalMedia | sentOffer
| receiveAnswer | receiveRemoteMedia | accept | modify | reject | hangup.

#[global] Instance State_eq_dec : EqDecision State.
Proof. solve_decision. Defined.
#[global] Instance Event_eq_dec : EqDecision Event.
Proof. solve_decision. Defined.

(** What a dispatch carries besides the event name: whether the client
    has a listener for incoming calls (guard 1) and whether a [modify]
    is the receiving side's, [{receive: true}] (guards 7 and 8). *)
Record Params := { hasListener : bool; receive : bool }.

(** The machine's data (specification section 3), with the bookkeeping
    bit behind [isModifying()]. *)
Record Machine := {
  name : State;
  isMediaFlowing : bool;
  hasLocalMedia : bool;
  hasLocalMediaApproval : bool;
  caller : bool;
  modifyInProgress : bool
}.

(** The events [<state>:exit] and [<state>:entry]. *)
Inductive Hook := Exit (s : State) | Entry (s : State).

(** The rows of the transition table: the events that have a cell other
    than a dash in the row of each state. *)
Definition row (s : State) : list Event :=
  match s with
  | idle => [initiate; hangup]
  | preparing => [answer; accept; reject; hangup]
  | approvingDeviceAccess => [approve; reject; hangup]
  | approvingContent => [approve; receiveLocalMedia; reject; hangup]
  | offering => [receiveLocalMedia; sentOffer; receiveAnswer; reject; hangup]
  | connecting => [receiveRemoteMedia; reject; hangup]
  | connected => [modify; reject; hangup]
  | modifying => [accept; reject; hangup]
  | terminated => []
  end.

Definition goto (s : State) (m : Machine) : Machine :=
  {| name := s;
     isMediaFlowing := isMediaFlowing m;
     hasLocalMedia := hasLocalMedia m;
     hasLocalMediaApproval := hasLocalMediaApproval m;
     caller := caller m;
     modifyInProgress := modifyInProgress m |}.

Definition setLocalMedia (b : bool) (m : Machine) : Machine :=
  {| name := name m;
     isMediaFlowing := isMediaFlowing m;
     hasLocalMedia := b;
     hasLocalMediaApproval := hasLocalMediaApproval m;
     caller := caller m;
     modifyInProgress := modifyInProgress m |}.

Definition setLocalMediaApproval (b : bool) (m : Machine) : Machine :=
  {| name := name m;
     isMediaFlowing := isMediaFlowing m;
     hasLocalMedia := hasLocalMedia m;
     hasLocalMediaApproval := b;
     caller := caller m;
     modifyInProgress := modifyInProgress m |}.

(** The reset of guards 8 and 10: a renegotiation starts over with no
    local media and no approval, as the caller or as the callee. *)
Definition renegotiate (asCaller : bool) (m : Machine) : Machine :=
  {| name := preparing;
     isMediaFlowing := isMediaFlowing m;
     hasLocalMedia := false;
     hasLocalMediaApproval := false;
     caller := asCaller;
     modifyInProgress := true |}.

(** After the approvals: the caller goes on to offer, the callee to
    connect (guard 6 and end-to-end scenario 2). *)
Definition afterApproval (m : Machine) : State :=
  if caller m then offering else connecting.

(** Modelled from the spec: the transition function of the CallState
    implementation, which is not among the sources.  One case per cell
    of the transition table with its numbered guard; [None] is the
    table's dash.  Where media is flowing, [reject] in [preparing] keeps
    the existing call (guard 3): the machine is back in [connected], as
    the unit tests have it. *)
Definition fire (m : Machine) (e : Event) (p : Params) : option Machine :=
  match name m, e with
  | idle, initiate =>
      Some (goto (if hasListener p then preparing else terminated) m)
  | idle, hangup => Some (goto terminated m)
  | preparing, answer => Some (goto approvingDeviceAccess m)
  | preparing, accept => Some m
  | preparing, reject =>
      Some (goto (if isMediaFlowing m then connected else terminated) m)
  | preparing, hangup => Some (goto terminated m)
  | approvingDeviceAccess, approve => Some (goto approvingContent m)
  | approvingDeviceAccess, reject => Some (goto terminated m)
  | approvingDeviceAccess, hangup => Some (goto terminated m)
  | approvingContent, approve =>
      let m' := setLocalMediaApproval true m in
      Some (if hasLocalMedia m then goto (afterApproval m) m' else m')
  | approvingContent, receiveLocalMedia =>
      let m' := setLocalMedia true m in
      Some (if hasLocalMediaApproval m then goto (afterApproval m) m' else m')
  | approvingContent, reject => Some (goto terminated m)
  | approvingContent, hangup => Some (goto terminated m)
  | offering, receiveLocalMedia => Some (setLocalMedia true m)
  | offering, sentOffer => Some m
  | offering, receiveAnswer => Some (goto connecting m)
  | offering, reject => Some (goto terminated m)
  | offering, hangup => Some (goto terminated m)
  | connecting, receiveRemoteMedia => Some (goto connected m)
  | connecting, reject => Some (goto terminated m)
  | connecting, hangup => Some (goto terminated m)
  | connected, modify =>
      Some (if receive p then renegotiate false m else goto modifying m)
  | connected, reject => Some m
  | connected, hangup => Some (goto terminated m)
  | modifying, accept => Some (renegotiate true m)
  | modifying, reject => Some (goto connected m)
  | modifying, hangup => Some (goto terminated m)
  | _, _ => None
  end.

(** [isModifying()] is true from the entry to [modifying] (or the
    re-prepare caused by a modify) to the next entry to [connected] or
    [terminated]. *)
Definition trackModify (m : Machine) : Machine :=
  {| name := name m;
     isMediaFlowing := isMediaFlowing m;
     hasLocalMedia := hasLocalMedia m;
     hasLocalMediaApproval := hasLocalMediaApproval m;
     caller := caller m;
     modifyInProgress :=
       match name m with
       | modifying => true
       | connected | terminated => false
       | _ => modifyInProgress m
       end |}.

Definition isModifying (m : Machine) : bool := modifyInProgress m.

(** A state change emits [<prev>:exit] then [<next>:entry]; re-entry to
    the same state emits neither. *)
Definition hooks (prev next : State) : list Hook :=
  if decide (prev = next) then [] else [Exit prev; Entry next].

(** Modelled from the spec: [dispatch] of the CallState implementation,
    which is not among the sources.  An event without a cell is dropped;
    the function is total, it has no failing result. *)
Definition dispatch (m : Machine) (e : Event) (p : Params)
  : Machine * list Hook :=
  match fire m e p with
  | None => (m, [])
  | Some m' =>
      (if decide (name m = name m') then m' else trackModify m',
       hooks (name m) (name m'))
  end.

(** Dispatching a sequence of events, collecting what is emitted. *)
Fixpoint run (m : Machine) (evs : list (Event * Params))
  : Machine * list Hook :=
  match evs with
  | [] => (m, [])
  | (e, p) :: rest =>
      let '(m1, h1) := dispatch m e p in
      let '(m2, h2) := run m1 rest in
      (m2, h1 ++ h2)
  end.

(** A fresh machine, [respoke.CallState({caller: c})]. *)
Definition create (c : bool) : Machine :=
  {| name := idle; isMediaFlowing := false; hasLocalMedia := false;
     hasLocalMediaApproval := false; caller := c;
     modifyInProgress := false |}.

End CallState.


(* ===================================================================== *)
(** ** JavaScript values *)
(* ===================================================================== *)

Module Js.

(** JSON values, as [JSON.parse] returns them and as request parameters
    are built.  Numbers are integers: the code inspects status codes and
    counters only.  [None] of [option Json] is [undefined]. *)
Inductive Json :=
| JNull
| JBool (b : bool)
| JNum (z : Z)
| JStr (s : string)
| JArr (items : list Json)
| JObj (fields : list (string * Json)).

Definition JsVal := option Json.

(** ToBoolean. *)
Definition truthy (v : Json) : bool :=
  match v with
  | JNull => false
  | JBool b => b
  | JNum z => negb (z =? 0)
  | JStr s => negb (String.eqb s EmptyString)
  | JArr _ | JObj _ => true
  end.

Definition truthyVal (v : JsVal) : bool :=
  match v with Some x => truthy x | None => false end.

(** Own property lookup on an object literal: the first binding wins
    here, the lists the model builds have no duplicate keys. *)
Fixpoint lookupField (k : string) (fields : list (string * Json)) : JsVal :=
  match fields with
  | [] => None
  | (k', v) :: rest => if String.eqb k k' then Some v else lookupField k rest
  end.

(** [v.k] for the property names the code reads ([error], [details],
    [message], [reason]): a TypeError on [null], [undefined] on the
    other primitives and on arrays. *)
Definition getProp (v : Json) (k : string) : option JsVal :=
  match v with
  | JNull => None
  | JObj fields => Some (lookupField k fields)
  | _ => Some None
  end.

(** ToString, as string concatenation applies it. *)
Fixpoint toStr (v : Json) : string :=
  match v with
  | JNull => "null"
  | JBool true => "true"
  | JBool false => "false"
  | JNum z => pretty z
  | JStr s => s
  | JArr items =>
      String.concat ","
        (map (fun x => match x with JNull => EmptyString | _ => toStr x end) items)
  | JObj _ => "[object Object]"
  end.

(** [s.indexOf(needle) > -1]. *)
Fixpoint includes (needle s : string) : bool :=
  match s with
  | EmptyString => String.eqb needle EmptyString
  | String _ rest => String.prefix needle s || includes needle rest
  end.

(** [c.toUpperCase()] on one ASCII character. *)
Definition upper (c : ascii) : ascii :=
  let n := nat_of_ascii c in
  if ((97 <=? n) && (n <=? 122))%nat then ascii_of_nat (n - 32) else c.

(** [c.toLowerCase()] on one ASCII character, and on a string. *)
Definition lower (c : ascii) : ascii :=
  let n := nat_of_ascii c in
  if ((65 <=? n) && (n <=? 90))%nat then ascii_of_nat (n + 32) else c.

Fixpoint toLowerCase (s : string) : string :=
  match s with
  | EmptyString => EmptyString
  | String c rest => String (lower c) (toLowerCase rest)
  end.

(** The code units of a string of the model, whose characters stand for
    the code units 0 to 255. *)
Definition codeUnits (s : string) : list Z :=
  (fun c => Z.of_nat (nat_of_ascii c)) <$> list_ascii_of_string s.

Definition hexChar (n : nat) : Z :=
  Z.of_nat (if (n <? 10)%nat then 48 + n else 87 + n).

(** The operation Quote of [JSON.stringify], on one character. *)
Definition quoteUnit (c : ascii) : list Z :=
  let n := nat_of_ascii c in
  if (n =? 8)%nat then [92; 98]
  else if (n =? 9)%nat then [92; 116]
  else if (n =? 10)%nat then [92; 110]
  else if (n =? 12)%nat then [92; 102]
  else if (n =? 13)%nat then [92; 114]
  else if (n =? 34)%nat then [92; 34]
  else if (n =? 92)%nat then [92; 92]
  else if (n <? 32)%nat then
    [92; 117; 48; 48; hexChar (n / 16); hexChar (n mod 16)]
  else [Z.of_nat n].

Definition quote (s : string) : list Z :=
  [34] ++ concat (quoteUnit <$> list_ascii_of_string s) ++ [34].

Fixpoint joinWith (sep : Z) (parts : list (list Z)) : list Z :=
  match parts with
  | [] => []
  | [x] => x
  | x :: rest => x ++ sep :: joinWith sep rest
  end.

(** [JSON.stringify(v)] on the values of the model: the JSON text, in
    code units. *)
Fixpoint stringify (v : Json) : list Z :=
  match v with
  | JNull => codeUnits "null"
  | JBool true => codeUnits "true"
  | JBool false => codeUnits "false"
  | JNum z => codeUnits (pretty z)
  | JStr s => quote s
  | JArr items => [91] ++ joinWith 44 (map stringify items) ++ [93]
  | JObj fields =>
      [123] ++
      joinWith 44 (map (fun '(k, x) => quote k ++ 58 :: stringify x) fields) ++
      [125]
  end.

End Js.

(* ===================================================================== *)
(** ** Objects used as maps *)
(* ===================================================================== *)

(** The objects that the channel uses as maps: created by [{}], written
    by [o[k] = v] with values that are not objects, read by [o[k]] and
    listed by [Object.keys(o)]. *)
Module JsObject.

Section Properties.
Context {V : Type}.

(** The own properties of the object, in the order of their creation. *)
Definition t := list (string * V).

Definition empty : t := [].

(** Writing an own property: one that exists keeps its place, a new one
    comes last. *)
Fixpoint assign (k : string) (v : V) (o : t) : t :=
  match o with
  | [] => [(k, v)]
  | (k', v') :: rest =>
      if String.eqb k k' then (k, v) :: rest else (k', v') :: assign k v rest
  end.

(** [o[k] = v].  The name [__proto__] is the accessor that the object
    inherits from [Object.prototype]: its setter does nothing with a
    value that is not an object, and no own property is created. *)
Definition set (k : string) (v : V) (o : t) : t :=
  if String.eqb k "__proto__" then o else assign k v o.

(** The own property [k] of the object, if it has one. *)
Fixpoint own (k : string) (o : t) : option V :=
  match o with
  | [] => None
  | (k', v) :: rest => if String.eqb k k' then Some v else own k rest
  end.

(** The value of a decimal digit. *)
Definition digit (c : ascii) : option N :=
  let n := N_of_ascii c in
  if ((48 <=? n) && (n <=? 57))%N then Some (n - 48)%N else None.

Fixpoint decimal (s : string) (acc : N) : option N :=
  match s with
  | EmptyString => Some acc
  | String c rest =>
      match digit c with
      | Some d => decimal rest (10 * acc + d)%N
      | None => None
      end
  end.

(** A property name that is an array index: the decimal form, without
    leading zeros, of an integer from 0 to 2^32 - 2. *)
Definition arrayIndex (k : string) : option N :=
  match k with
  | EmptyString => None
  | String c rest =>
      if Ascii.eqb c "0" && negb (String.eqb rest EmptyString) then None
      else match decimal k 0 with
           | Some n => if (n <? 4294967295)%N then Some n else None
           | None => None
           end
  end.

(** The array indices among the names, by ascending value. *)
Fixpoint insertIndex (i : N) (k : string) (l : list (N * string)) : list (N * string) :=
  match l with
  | [] => [(i, k)]
  | (j, k') :: rest =>
      if (i <? j)%N then (i, k) :: l else (j, k') :: insertIndex i k rest
  end.

Definition indices (names : list string) : list (N * string) :=
  foldr (fun k acc => match arrayIndex k with
                      | Some i => insertIndex i k acc
                      | None => acc
                      end) [] names.

(** [Object.keys(o)]: the names that are array indices by ascending
    value, then the other names in the order of their creation. *)
Definition keys (o : t) : list string :=
  (indices o.*1).*2 ++ filter (fun k => arrayIndex k = None) o.*1.

End Properties.

Arguments t : clear implicits.

(** [o[k] === true], for an object whose values are booleans: what the
    object inherits is never [true]. *)
Definition isTrue (k : string) (o : t bool) : bool :=
  match own k o with Some true => true | _ => false end.

End JsObject.

(* ===================================================================== *)
(** ** Signal routing: routingMethods and routeSignal's second stage *)
(* ===================================================================== *)

Module Routing.
Import Js.

(** The fields of a Call that the routing methods read and write. *)
Record Call := {
  id : string;
  caller : bool;
  connectionId : option string
}.

(** The fields of a SignalingMessage that routing reads. *)
Record Signal := {
  signalType : string;
  sessionId : string;
  fromConnection : option string
}.

(** [call.fire(name, {signal: signal})]. *)
Record Fired := { eventName : string; payload : Signal }.

Definition Handler := Call -> Signal -> Call * list Fired.

Definition withConnectionId (c : Call) (cid : option string) : Call :=
  {| id := id c; caller := caller c; connectionId := cid |}.

(** Truthiness of a connection id: a non-empty string. *)
Definition isSet (cid : option string) : bool :=
  match cid with Some s => negb (String.eqb s EmptyString) | None => false end.

Definition doOffer : Handler := fun call signal =>
  (withConnectionId call (fromConnection signal),
   [{| eventName := "signal-offer"; payload := signal |}]).

Definition doConnected : Handler := fun call signal =>
  (call, [{| eventName := "signal-connected"; payload := signal |}]).

Definition doModify : Handler := fun call signal =>
  (call, [{| eventName := "signal-modify"; payload := signal |}]).

Definition doAnswer : Handler := fun call signal =>
  (withConnectionId call (fromConnection signal),
   [{| eventName := "signal-answer"; payload := signal |}]).

Definition doIceCandidates : Handler := fun call signal =>
  (call, [{| eventName := "signal-icecandidates"; payload := signal |}]).

Definition doBye : Handler := fun call signal =>
  if caller call && isSet (connectionId call) &&
     negb (bool_decide (connectionId call = fromConnection signal))
  then (call, [])
  else (call, [{| eventName := "signal-hangup"; payload := signal |}]).

(** [doUnknown] only logs. *)
Definition doUnknown : Handler := fun call signal => (call, []).

(** The object [routingMethods], looked up by method name. *)
Definition routingMethods (method : string) : option Handler :=
  if String.eqb method "doOffer" then Some doOffer
  else if String.eqb method "doConnected" then Some doConnected
  else if String.eqb method "doModify" then Some doModify
  else if String.eqb method "doAnswer" then Some doAnswer
  else if String.eqb method "doIceCandidates" then Some doIceCandidates
  else if String.eqb method "doBye" then Some doBye
  else if String.eqb method "doUnknown" then Some doUnknown
  else None.

(** [str[0].toUpperCase() + str.slice(1)]; [None] is the TypeError on
    the empty string. *)
Definition firstUpper (str : string) : option string :=
  match str with
  | EmptyString => None
  | String c rest => Some (String (upper c) rest)
  end.

Inductive Routed :=
| Orphan
| Delivered (call : Call) (fired : list Fired)
| TypeError.

(** The success handler of [routeSignal], given the target that the
    client's lookup resolved: an orphaned signal is dropped, any other is
    handed to ['do' + firstUpper(signalType)]. *)
Definition successHandler (target : option Call) (signal : Signal) : Routed :=
  match target with
  | None => Orphan
  | Some call =>
      if negb (String.eqb (id call) (sessionId signal)) then Orphan
      else
        match firstUpper (signalType signal) with
        | None => TypeError
        | Some name =>
            match routingMethods ("do" ++ name) with
            | None => TypeError
            | Some handler =>
                let '(call', fired) := handler call signal in
                Delivered call' fired
            end
        end
  end.

End Routing.

(* ===================================================================== *)
(** ** PendingRequests *)
(* ===================================================================== *)

Module PendingRequests.

Section Container.
Context {A : Type}.

(** The closure variables [contents] (an array, with holes) and
    [counter]. *)
Record t := { contents : list (option A); counter : nat }.

Definition create : t := {| contents := []; counter := 0 |}.

(** [arr[i] = x]: in range the slot is overwritten, out of range the
    array grows, with holes up to [i]. *)
Definition arraySet (i : nat) (x : A) (arr : list (option A)) : list (option A) :=
  if decide (i < length arr)%nat then <[i := Some x]> arr
  else arr ++ replicate (i - length arr) None ++ [Some x].

(** [delete arr[i]]: the slot becomes a hole; nothing happens out of
    range. *)
Definition arrayDelete (i : nat) (arr : list (option A)) : list (option A) :=
  <[i := None]> arr.

(** [arr.forEach(fn)] for a callback that acts on a state [S]: holes are
    skipped, elements are visited by ascending index. *)
Definition forEach {S : Type} (fn : A -> S -> S) (arr : list (option A)) (s : S) : S :=
  foldl (fun acc slot => match slot with Some x => fn x acc | None => acc end) s arr.

Definition add (p : t) (obj : A) : t * nat :=
  ({| contents := arraySet (counter p) obj (contents p);
      counter := S (counter p) |},
   S (counter p)).

Definition remove (p : t) (key : nat) : t :=
  {| contents := arrayDelete key (contents p); counter := counter p |}.

Definition reset {S : Type} (fn : option (A -> S -> S)) (p : t) (s : S) : t * S :=
  ({| contents := []; counter := counter p |},
   match fn with Some f => forEach f (contents p) s | None => s end).

End Container.

Arguments t : clear implicits.

End PendingRequests.

(* ===================================================================== *)
(** ** The body-size computation of wsCall *)
(* ===================================================================== *)

Module Encoding.

(** A JavaScript string is a sequence of UTF-16 code units. *)
Definition isCodeUnit (c : Z) : Prop := 0 <= c < 65536.

Definition isAlnum (c : Z) : bool :=
  ((48 <=? c) && (c <=? 57)) || ((65 <=? c) && (c <=? 90)) ||
  ((97 <=? c) && (c <=? 122)).

(** The characters [encodeURI] leaves alone: letters, digits, the marks
    [-_.!~*'()], the reserved [;/?:@&=+$,] and [#]. *)
Definition unescaped (c : Z) : bool :=
  isAlnum c ||
  bool_decide (c ∈ [45; 95; 46; 33; 126; 42; 39; 40; 41;
                    59; 47; 63; 58; 64; 38; 61; 43; 36; 44; 35]).

Definition isOctet (o : Z) : Prop := 0 <= o < 256.

(** The UTF-8 octets of a code point. *)
Definition utf8Octets (v : Z) : list Z :=
  if v <? 128 then [v]
  else if v <? 2048 then
    [Z.lor 192 (Z.shiftr v 6); Z.lor 128 (Z.land v 63)]
  else if v <? 65536 then
    [Z.lor 224 (Z.shiftr v 12);
     Z.lor 128 (Z.land (Z.shiftr v 6) 63);
     Z.lor 128 (Z.land v 63)]
  else
    [Z.lor 240 (Z.shiftr v 18);
     Z.lor 128 (Z.land (Z.shiftr v 12) 63);
     Z.lor 128 (Z.land (Z.shiftr v 6) 63);
     Z.lor 128 (Z.land v 63)].

Definition isHighSurrogate (c : Z) : bool := (55296 <=? c) && (c <=? 56319).
Definition isLowSurrogate (c : Z) : bool := (56320 <=? c) && (c <=? 57343).

Definition pairValue (hi lo : Z) : Z :=
  (hi - 55296) * 1024 + (lo - 56320) + 65536.

(** The UTF-8 encoding of a string; [None] when the string is not
    well-formed UTF-16 (an unpaired surrogate). *)
Fixpoint utf8 (s : list Z) : option (list Z) :=
  match s with
  | [] => Some []
  | c :: rest =>
      if isLowSurrogate c then None
      else if isHighSurrogate c then
        match rest with
        | lo :: rest' =>
            if isLowSurrogate lo
            then option_map (app (utf8Octets (pairValue c lo))) (utf8 rest')
            else None
        | [] => None
        end
      else option_map (app (utf8Octets c)) (utf8 rest)
  end.

Definition hexDigit (n : Z) : Z := if n <? 10 then 48 + n else 55 + n.

(** ["%" + two upper-case hexadecimal digits]. *)
Definition escapeOctet (o : Z) : list Z := [37; hexDigit (o / 16); hexDigit (o mod 16)].

Definition escapeOctets (os : list Z) : list Z := concat (map escapeOctet os).

(** [encodeURI(s)], after the Encode operation of ECMAScript; [None] is
    the URIError on an unpaired surrogate. *)
Fixpoint encodeURI (s : list Z) : option (list Z) :=
  match s with
  | [] => Some []
  | c :: rest =>
      if unescaped c then option_map (cons c) (encodeURI rest)
      else if isLowSurrogate c then None
      else if isHighSurrogate c then
        match rest with
        | lo :: rest' =>
            if isLowSurrogate lo
            then option_map (app (escapeOctets (utf8Octets (pairValue c lo))))
                            (encodeURI rest')
            else None
        | [] => None
        end
      else option_map (app (escapeOctets (utf8Octets c))) (encodeURI rest)
  end.

(** The characters that [.] of a regular expression does not match. *)
Definition lineTerminator (c : Z) : bool :=
  (c =? 10) || (c =? 13) || (c =? 8232) || (c =? 8233).

(** The number of matches of [/%..|./] that [split] finds, scanning from
    the left: at a position where the expression does not match, the
    scan moves on by one character. *)
Fixpoint separators (s : list Z) : nat :=
  match s with
  | [] => 0
  | c :: rest =>
      match rest with
      | a :: b :: rest' =>
          if (c =? 37) && negb (lineTerminator a) && negb (lineTerminator b)
          then S (separators rest')
          else if lineTerminator c then separators rest
          else S (separators rest)
      | _ => if lineTerminator c then separators rest else S (separators rest)
      end
  end.

(** [s.split(/%..|./).length]: one piece more than there are separators. *)
Definition splitLength (s : list Z) : nat := S (separators s).

(** [encodeURI(json).split(/%..|./).length - 1]. *)
Definition bodyLength (json : list Z) : option Z :=
  option_map (fun enc => Z.of_nat (splitLength enc) - 1) (encodeURI json).

End Encoding.

(* ===================================================================== *)
(** ** The signaling channel: websocket requests and batched operations *)
(* ===================================================================== *)

Module Channel.
Import Js.

(** The state of a promise of the Q library: [deferred.resolve(v)] and
    [deferred.reject(e)] settle a pending promise and do nothing to a
    settled one.  An [Error] is represented by its message. *)
Inductive Settled :=
| Pending
| Resolved (v : JsVal)
| Rejected (e : string).

#[global] Instance Settled_inhabited : Inhabited Settled := populate Pending.

(** The [request] object that [wsCall] builds. *)
Record Request := {
  method : string;
  path : string;
  parameters : JsVal;
  tries : Z;
  durationMillis : Z;
  id : nat
}.

(** The local variables of one invocation of [wsCall], which its
    [handleResponse] closes over. *)
Record Exchange := {
  request : Request;
  deferred : nat;
  start : Z
}.

(** What [socket.emit(method, JSON.stringify({url, data, headers}),
    handleResponse)] hands to the transport; [ack] names the invocation
    of [wsCall] whose [handleResponse] is the callback. *)
Record Frame := {
  event : string;
  url : string;
  data : JsVal;
  headers : list (string * JsVal);
  ack : nat
}.

(** The handlers passed to [.done] by the two batching closures. *)
Inductive Reaction :=
| JoinGroupDone (saveDeferred : nat)
| RegisterPresenceDone (saveDeferred : nat) (endpointList : list Json).

(** The callbacks passed to [setTimeout]. *)
Inductive TimerTask :=
| Retry (x : nat)
| RequestJoinsForGroupQueue
| RegisterPresenceFlush (endpointList : list Json).

Record Timer := { due : Z; task : TimerTask }.

(** The arguments of [wsCall]. *)
Record Params := {
  httpMethod : option string;
  ppath : string;
  pparameters : JsVal;
  urlParams : option (list (string * string))
}.

(** A response as the transport delivers it.  The body is a string, for
    which [JSON.parse] yields [parsed] or throws, or already an object,
    or missing. *)
Inductive RawBody :=
| Missing
| Text (s : string) (parsed : option Json)
| Structured (fields : list (string * Json)).

Record Response := {
  statusCode : Z;
  body : RawBody;
  responseHeaders : JsVal
}.

(** How a call ends: with a value, or with an exception thrown. *)
Inductive Completion (A : Type) :=
| Normal (a : A)
| Throw (e : string).
Arguments Normal {A} a.
Arguments Throw {A} e.

(** The state of the channel: the closure variables of the
    SignalingChannel constructor and of the closures it creates, with the
    promise store, the timer queue and what has been emitted on the
    socket. *)
Record Channel := {
  (* that.isConnected() *)
  connected : bool;
  (* now() *)
  clock : Z;
  (* the promises of Q, by the number of their deferred; the handlers
     attached with .done to pending ones; the handlers waiting to run *)
  promises : list Settled;
  reactions : list (nat * Reaction);
  jobs : list (Reaction * Settled);
  (* var pendingRequests, holding deferreds *)
  pendingRequests : PendingRequests.t nat;
  (* the invocations of wsCall *)
  exchanges : list Exchange;
  (* the calls of that.socket.emit, oldest first *)
  emitted : list Frame;
  (* the callbacks given to setTimeout, earliest first *)
  timers : list Timer;
  (* var groups and var deferred of the closure joinGroup *)
  joinGroups : JsObject.t bool;
  joinDeferred : nat;
  (* var endpoints and var deferred of the closure registerPresence *)
  presenceEndpoints : JsObject.t bool;
  presenceDeferred : nat;
  (* var presenceRegistered *)
  presenceRegistered : JsObject.t bool
}.

Definition setConnected (x : bool) (c : Channel) : Channel :=
  {| connected := x; clock := clock c; promises := promises c;
     reactions := reactions c; jobs := jobs c;
     pendingRequests := pendingRequests c; exchanges := exchanges c;
     emitted := emitted c; timers := timers c; joinGroups := joinGroups c;
     joinDeferred := joinDeferred c;
     presenceEndpoints := presenceEndpoints c;
     presenceDeferred := presenceDeferred c;
     presenceRegistered := presenceRegistered c |}.

Definition setClock (x : Z) (c : Channel) : Channel :=
  {| connected := connected c; clock := x; promises := promises c;
     reactions := reactions c; jobs := jobs c;
     pendingRequests := pendingRequests c; exchanges := exchanges c;
     emitted := emitted c; timers := timers c; joinGroups := joinGroups c;
     joinDeferred := joinDeferred c;
     presenceEndpoints := presenceEndpoints c;
     presenceDeferred := presenceDeferred c;
     presenceRegistered := presenceRegistered c |}.

Definition setPromises (x : list Settled) (c : Channel) : Channel :=
  {| connected := connected c; clock := clock c; promises := x;
     reactions := reactions c; jobs := jobs c;
     pendingRequests := pendingRequests c; exchanges := exchanges c;
     emitted := emitted c; timers := timers c; joinGroups := joinGroups c;
     joinDeferred := joinDeferred c;
     presenceEndpoints := presenceEndpoints c;
     presenceDeferred := presenceDeferred c;
     presenceRegistered := presenceRegistered c |}.

Definition setReactions (x : list (nat * Reaction)) (c : Channel) : Channel :=
  {| connected := connected c; clock := clock c; promises := promises c;
     reactions := x; jobs := jobs c; pendingRequests := pendingRequests c;
     exchanges := exchanges c; emitted := emitted c; timers := timers c;
     joinGroups := joinGroups c; joinDeferred := joinDeferred c;
     presenceEndpoints := presenceEndpoints c;
     presenceDeferred := presenceDeferred c;
     presenceRegistered := presenceRegistered c |}.

Definition setJobs (x : list (Reaction * Settled)) (c : Channel) : Channel :=
  {| connected := connected c; clock := clock c; promises := promises c;
     reactions := reactions c; jobs := x;
     pendingRequests := pendingRequests c; exchanges := exchanges c;
     emitted := emitted c; timers := timers c; joinGroups := joinGroups c;
     joinDeferred := joinDeferred c;
     presenceEndpoints := presenceEndpoints c;
     presenceDeferred := presenceDeferred c;
     presenceRegistered := presenceRegistered c |}.

Definition setPendingRequests (x : PendingRequests.t nat) (c : Channel) : Channel :=
  {| connected := connected c; clock := clock c; promises := promises c;
     reactions := reactions c; jobs := jobs c; pendingRequests := x;
     exchanges := exchanges c; emitted := emitted c; timers := timers c;
     joinGroups := joinGroups c; joinDeferred := joinDeferred c;
     presenceEndpoints := presenceEndpoints c;
     presenceDeferred := presenceDeferred c;
     presenceRegistered := presenceRegistered c |}.

Definition setExchanges (x : list Exchange) (c : Channel) : Channel :=
  {| connected := connected c; clock := clock c; promises := promises c;
     reactions := reactions c; jobs := jobs c;
     pendingRequests := pendingRequests c; exchanges := x;
     emitted := emitted c; timers := timers c; joinGroups := joinGroups c;
     joinDeferred := joinDeferred c;
     presenceEndpoints := presenceEndpoints c;
     presenceDeferred := presenceDeferred c;
     presenceRegistered := presenceRegistered c |}.

Definition setEmitted (x : list Frame) (c : Channel) : Channel :=
  {| connected := connected c; clock := clock c; promises := promises c;
     reactions := reactions c; jobs := jobs c;
     pendingRequests := pendingRequests c; exchanges := exchanges c;
     emitted := x; timers := timers c; joinGroups := joinGroups c;
     joinDeferred := joinDeferred c;
     presenceEndpoints := presenceEndpoints c;
     presenceDeferred := presenceDeferred c;
     presenceRegistered := presenceRegistered c |}.

Definition setTimers (x : list Timer) (c : Channel) : Channel :=
  {| connected := connected c; clock := clock c; promises := promises c;
     reactions := reactions c; jobs := jobs c;
     pendingRequests := pendingRequests c; exchanges := exchanges c;
     emitted := emitted c; timers := x; joinGroups := joinGroups c;
     joinDeferred := joinDeferred c;
     presenceEndpoints := presenceEndpoints c;
     presenceDeferred := presenceDeferred c;
     presenceRegistered := presenceRegistered c |}.

Definition setJoinGroups (x : JsObject.t bool) (c : Channel) : Channel :=
  {| connected := connected c; clock := clock c; promises := promises c;
     reactions := reactions c; jobs := jobs c;
     pendingRequests := pendingRequests c; exchanges := exchanges c;
     emitted := emitted c; timers := timers c; joinGroups := x;
     joinDeferred := joinDeferred c;
     presenceEndpoints := presenceEndpoints c;
     presenceDeferred := presenceDeferred c;
     presenceRegistered := presenceRegistered c |}.

Definition setJoinDeferred (x : nat) (c : Channel) : Channel :=
  {| connected := connected c; clock := clock c; promises := promises c;
     reactions := reactions c; jobs := jobs c;
     pendingRequests := pendingRequests c; exchanges := exchanges c;
     emitted := emitted c; timers := timers c; joinGroups := joinGroups c;
     joinDeferred := x; presenceEndpoints := presenceEndpoints c;
     presenceDeferred := presenceDeferred c;
     presenceRegistered := presenceRegistered c |}.

Definition setPresenceEndpoints (x : JsObject.t bool) (c : Channel) : Channel :=
  {| connected := connected c; clock := clock c; promises := promises c;
     reactions := reactions c; jobs := jobs c;
     pendingRequests := pendingRequests c; exchanges := exchanges c;
     emitted := emitted c; timers := timers c; joinGroups := joinGroups c;
     joinDeferred := joinDeferred c; presenceEndpoints := x;
     presenceDeferred := presenceDeferred c;
     presenceRegistered := presenceRegistered c |}.

Definition setPresenceDeferred (x : nat) (c : Channel) : Channel :=
  {| connected := connected c; clock := clock c; promises := promises c;
     reactions := reactions c; jobs := jobs c;
     pendingRequests := pendingRequests c; exchanges := exchanges c;
     emitted := emitted c; timers := timers c; joinGroups := joinGroups c;
     joinDeferred := joinDeferred c;
     presenceEndpoints := presenceEndpoints c; presenceDeferred := x;
     presenceRegistered := presenceRegistered c |}.

Definition setPresenceRegistered (x : JsObject.t bool) (c : Channel) : Channel :=
  {| connected := connected c; clock := clock c; promises := promises c;
     reactions := reactions c; jobs := jobs c;
     pendingRequests := pendingRequests c; exchanges := exchanges c;
     emitted := emitted c; timers := timers c; joinGroups := joinGroups c;
     joinDeferred := joinDeferred c;
     presenceEndpoints := presenceEndpoints c;
     presenceDeferred := presenceDeferred c; presenceRegistered := x |}.


Section Platform.

(** Platform and library functions, and constants of the module
    [respoke], that the channel uses: [JSON.stringify] (the text of a
    value, in UTF-16 code units), [template.parse(path).expand(params)],
    ['Respoke.js/' + respoke.version] and the application token. *)
Variable JSON_stringify : Json -> list Z.
Variable expandTemplate : string -> list (string * string) -> string.
Variable sdkHeaderValue : string.
Variable appToken : JsVal.

Definition bodySizeLimit : Z := 20000.

Definition billingSuspensionErrorMessage : string :=
  "Can't perform this action: Not Authorized. Your account is suspended due to a billing issue. Please visit the Respoke Developer Portal (https://www.respoke.io) or contact customer support (support@respoke.io) to address this issue.".

Definition suspensionErrorMessage : string :=
  "Canot perform this action: Not Authorized. Your account is suspended. Please visit the Respoke Developer Portal (https://www.respoke.io) or contact customer support (support@respoke.io) to address this issue.".

Definition notConnectedMessage : string :=
  "Can't complete request when not connected. Please reconnect!".

Definition overLimitMessage : string :=
  "Request body exceeds maximum size of " +:+ pretty bodySizeLimit +:+ " bytes".

Definition rateLimitMessage : string :=
  "Too many retries after rate limit exceeded.".

(** The table [errors], looked up by a status that may be [undefined]. *)
Definition errors (status : option Z) : option string :=
  match status with
  | Some 400 => Some "Can't perform this action: missing or invalid parameters."
  | Some 401 => Some "Can't perform this action: not authenticated."
  | Some 403 => Some "Can't perform this action: not authorized."
  | Some 404 => Some "Item not found."
  | Some 409 => Some "Can't perform this action: item in the wrong state."
  | Some 429 => Some "API rate limit was exceeded."
  | Some 500 => Some "Can't perform this action: server problem."
  | _ => None
  end%string.

(** [[200, 204, 205, 302, 401, 403, 404, 418].indexOf(status) === -1]. *)
Definition notAnExpectedStatus (status : option Z) : bool :=
  match status with
  | Some s => negb (bool_decide (s ∈ [200; 204; 205; 302; 401; 403; 404; 418]))
  | None => true
  end.

(** *** Promises *)

Definition defer (c : Channel) : Channel * nat :=
  (setPromises (promises c ++ [Pending]) c, length (promises c)).

Definition isPending (d : nat) (c : Channel) : bool :=
  match promises c !! d with Some Pending => true | _ => false end.

(** Settling a pending promise queues the handlers attached to it. *)
Definition settle (d : nat) (o : Settled) (c : Channel) : Channel :=
  if isPending d c then
    let mine := filter (fun r => r.1 = d) (reactions c) in
    let others := filter (fun r => r.1 <> d) (reactions c) in
    setJobs (jobs c ++ map (fun r => (r.2, o)) mine)
      (setReactions others (setPromises (<[d := o]> (promises c)) c))
  else c.

Definition resolve (d : nat) (v : JsVal) : Channel -> Channel := settle d (Resolved v).
Definition reject (d : nat) (e : string) : Channel -> Channel := settle d (Rejected e).

(** [promise.done(onFulfilled, onRejected)]. *)
Definition done (d : nat) (r : Reaction) (c : Channel) : Channel :=
  match promises c !! d with
  | Some Pending => setReactions (reactions c ++ [(d, r)]) c
  | Some o => setJobs (jobs c ++ [(r, o)]) c
  | None => c
  end.

(** *** Timers *)

Fixpoint insertTimer (t : Timer) (ts : list Timer) : list Timer :=
  match ts with
  | [] => [t]
  | t' :: rest =>
      if due t <? due t' then t :: ts else t' :: insertTimer t rest
  end.

Definition setTimeout (f : TimerTask) (delay : Z) (c : Channel) : Channel :=
  setTimers (insertTimer {| due := clock c + delay; task := f |} (timers c)) c.

(** *** wsCall *)

Definition withTries (n : Z) (r : Request) : Request :=
  {| method := method r; path := path r; parameters := parameters r;
     tries := n; durationMillis := durationMillis r; id := id r |}.

Definition withDuration (d : Z) (r : Request) : Request :=
  {| method := method r; path := path r; parameters := parameters r;
     tries := tries r; durationMillis := d; id := id r |}.

Definition withRequest (r : Request) (ex : Exchange) : Exchange :=
  {| request := r; deferred := deferred ex; start := start ex |}.

Definition withStart (t : Z) (ex : Exchange) : Exchange :=
  {| request := request ex; deferred := deferred ex; start := t |}.

(** The frame that carries a request. *)
Definition frameOf (r : Request) (x : nat) : Frame :=
  {| event := method r; url := path r; data := parameters r;
     headers := [("App-Token"%string, appToken);
                 ("Respoke-SDK"%string, Some (JStr sdkHeaderValue))];
     ack := x |}.

Definition sendWebsocketRequest (x : nat) (c : Channel) : Channel :=
  match exchanges c !! x with
  | None => c
  | Some ex =>
      let r := withTries (tries (request ex) + 1) (request ex) in
      setEmitted (emitted c ++ [frameOf r x])
        (setExchanges (<[x := withRequest r ex]> (exchanges c)) c)
  end.

(** The size of the request body as [wsCall] computes it; [None] is the
    URIError of [encodeURI]. *)
Definition requestBodyLength (p : Params) : option Z :=
  match pparameters p with
  | Some v =>
      if truthy v then Encoding.bodyLength (JSON_stringify v) else Some 0
  | None => Some 0
  end.

(** [(params.httpMethod || 'get').toLowerCase()]. *)
Definition requestMethod (p : Params) : string :=
  toLowerCase
    (match httpMethod p with
     | Some m => if String.eqb m EmptyString then "get" else m
     | None => "get"
     end).

(** The [request] object built from the arguments, under the key that
    [pendingRequests.add] returned. *)
Definition requestOf (p : Params) (key : nat) : Request :=
  {| method := requestMethod p;
     path := match urlParams p with
             | Some u => expandTemplate (ppath p) u
             | None => ppath p
             end;
     parameters := pparameters p;
     tries := 0; durationMillis := 0; id := key |}.

(** [wsCall(params)]; the logging is left out.  The result is the promise
    returned, or the URIError that [encodeURI] throws. *)
Definition wsCall (p : Params) (c0 : Channel) : Channel * Completion nat :=
  let '(c, d) := defer c0 in
  match requestBodyLength p with
  | None => (c, Throw "URIError")
  | Some bodyLength =>
      if negb (connected c) then (reject d notConnectedMessage c, Normal d)
      else if String.eqb (ppath p) EmptyString then
        (reject d "No request path." c, Normal d)
      else if bodySizeLimit <? bodyLength then (reject d overLimitMessage c, Normal d)
      else
        let '(pending, key) := PendingRequests.add (pendingRequests c) d in
        let x := length (exchanges c) in
        let c := setExchanges
                   (exchanges c ++
                      [{| request := requestOf p key; deferred := d; start := clock c |}])
                   (setPendingRequests pending c) in
        (sendWebsocketRequest x c, Normal d)
  end.

(** The channel after [wsCall] has accepted and sent a request: a new
    pending promise, the promise's deferred among the pending requests,
    the invocation's variables, and one frame emitted. *)
Definition sent (p : Params) (c : Channel) : Channel :=
  let d := length (promises c) in
  let x := length (exchanges c) in
  let key := S (PendingRequests.counter (pendingRequests c)) in
  let r := withTries 1 (requestOf p key) in
  setEmitted (emitted c ++ [frameOf r x])
    (setExchanges (exchanges c ++ [{| request := r; deferred := d; start := clock c |}])
       (setPendingRequests (PendingRequests.add (pendingRequests c) d).1
          (setPromises (promises c ++ [Pending]) c))).

(** [buildResponseError(res, message)], the message of the Error. *)
Definition buildResponseError (resHeaders : JsVal) (message : string) : string :=
  match resHeaders with
  | Some h =>
      if truthy h then
        match getProp h "Request-Id" with
        | Some (Some requestId) =>
            if truthy requestId
            then message +:+ " [Request-Id: " +:+ toStr requestId +:+ "]"
            else message
        | _ => message
        end
      else message
  | None => message
  end.

(** [response.body.error], for a body that is not [null]. *)
Definition bodyError (body : Json) : JsVal :=
  match getProp body "error" with Some v => v | None => None end.

Definition failWebsocketRequest (r : Request) (body : Json) (resHeaders : JsVal)
    (error : string) (d : nat) (c : Channel) : Channel :=
  if truthy body && truthyVal (bodyError body) then
    reject d
      (buildResponseError resHeaders
         (error +:+ " (" +:+ method r +:+ " " +:+ path r +:+ ")")) c
  else resolve d (Some body) c.

Definition isSuspensionUnauthorizedResponse (status : Z) (body : Json) : bool :=
  (status =? 401) && truthy body &&
  match getProp body "details" with
  | Some (Some details) =>
      truthy details &&
      match getProp details "message" with
      | Some (Some (JStr m)) => includes "suspended" m
      | _ => false
      end
  | _ => false
  end.

Definition isBillingSuspensionUnauthorizedResponse (status : Z) (body : Json) : bool :=
  isSuspensionUnauthorizedResponse status body &&
  match getProp body "details" with
  | Some (Some details) =>
      match getProp details "reason" with
      | Some (Some (JStr r)) => includes "billing suspension" r
      | _ => false
      end
  | _ => false
  end.

(** The [try { response.body = JSON.parse(response.body) } catch ...] at
    the head of [handleResponse]: the parsed body, or the message of the
    rejection. *)
Definition parseBody (b : RawBody) : string + Json :=
  match b with
  | Missing => inl ("Server response could not be parsed!" +:+ "undefined")
  | Text s None => inl ("Server response could not be parsed!" +:+ s)
  | Text _ (Some v) => inr v
  | Structured fields => inr (JObj fields)
  end.

(** [request.durationMillis = now() - start; pendingRequests.remove(request.id)]. *)
Definition finishRequest (x : nat) (ex : Exchange) (c : Channel) : Channel * Request :=
  let r := withDuration (clock c - start ex) (request ex) in
  (setPendingRequests (PendingRequests.remove (pendingRequests c) (id r))
     (setExchanges (<[x := withRequest r ex]> (exchanges c)) c),
   r).

(** [handleResponse] of the invocation [x] of [wsCall], called by the
    transport with a response and with [this.status] as [thisStatus]. *)
Definition handleResponse (x : nat) (response : Response) (thisStatus : option Z)
    (c : Channel) : Channel * Completion unit :=
  match exchanges c !! x with
  | None => (c, Normal ())
  | Some ex =>
      match parseBody (body response) with
      | inl message => (reject (deferred ex) message c, Normal ())
      | inr b =>
          if statusCode response =? 429 then
            if (tries (request ex) <? 3) && isPending (deferred ex) c then
              (setTimeout (Retry x) 1000 c, Normal ())
            else
              let '(c, r) := finishRequest x ex c in
              (failWebsocketRequest r b (responseHeaders response)
                 rateLimitMessage (deferred ex) c, Normal ())
          else
            let '(c, r) := finishRequest x ex c in
            if isBillingSuspensionUnauthorizedResponse (statusCode response) b then
              (failWebsocketRequest r b (responseHeaders response)
                 billingSuspensionErrorMessage (deferred ex) c, Normal ())
            else if isSuspensionUnauthorizedResponse (statusCode response) b then
              (failWebsocketRequest r b (responseHeaders response)
                 suspensionErrorMessage (deferred ex) c, Normal ())
            else if notAnExpectedStatus thisStatus then
              match getProp b "error" with
              | None => (c, Throw "TypeError")
              | Some e =>
                  let error :=
                    match e with
                    | Some v =>
                        if truthy v then toStr v
                        else default "Unknown error"%string (errors thisStatus)
                    | None => default "Unknown error"%string (errors thisStatus)
                    end in
                  (failWebsocketRequest r b (responseHeaders response)
                     error (deferred ex) c, Normal ())
              end
            else (resolve (deferred ex) (Some b) c, Normal ())
      end
  end.

(** The callback of the retry timer:
    [start = now(); sendWebsocketRequest(request, handleResponse)]. *)
Definition retry (x : nat) (c : Channel) : Channel :=
  match exchanges c !! x with
  | None => c
  | Some ex =>
      sendWebsocketRequest x
        (setExchanges (<[x := withStart (clock c) ex]> (exchanges c)) c)
  end.

(** The handler of the socket's [disconnect] event, as far as the
    pending requests go: each of them is rejected. *)
Definition onDisconnect (c : Channel) : Channel :=
  let '(pending, c') :=
    PendingRequests.reset
      (Some (fun d acc => reject d "WebSocket disconnected" acc))
      (pendingRequests c) (setConnected false c) in
  setPendingRequests pending c'.

(** The invocation [x] of [wsCall] is waiting for a response: its request
    has been sent [k] times, its promise [d] is pending, [fs] is what has
    been emitted, no timer is set, and the time is [t]. *)
Definition awaiting (c : Channel) (x d : nat) (r : Request) (k t : Z)
    (fs : list Frame) : Prop :=
  (exists st, exchanges c !! x =
                Some {| request := withTries k r; deferred := d; start := st |}) /\
  isPending d c = true /\
  emitted c = fs /\
  timers c = [] /\
  clock c = t.

(** [request.tries] of the invocation [x]. *)
Definition triesOf (c : Channel) (x : nat) : option Z :=
  (fun ex => tries (request ex)) <$> exchanges c !! x.

(** *** joinGroup *)

(** [groupList.forEach(function (id) { if (typeof id === 'string')
    groups[id] = true; })]. *)
Definition addStrings (ids : list Json) (acc : JsObject.t bool) : JsObject.t bool :=
  foldl (fun acc id => match id with JStr s => JsObject.set s true acc | _ => acc end)
        acc ids.

(** [joinGroup(params)] with [params.groupList || []] as [groupList]; the
    result is the promise returned. *)
Definition joinGroup (groupList : list Json) (c : Channel) : Channel * nat :=
  let needsToRun := bool_decide (JsObject.keys (joinGroups c) = []) in
  if negb (connected c) then
    (reject (joinDeferred c) notConnectedMessage c, joinDeferred c)
  else
    let c := setJoinGroups (addStrings groupList (joinGroups c)) c in
    if negb needsToRun then (c, joinDeferred c)
    else (setTimeout RequestJoinsForGroupQueue 0 c, joinDeferred c).

(** The arguments of the [wsCall] that joins the groups of a batch. *)
Definition joinParams (groupList : list string) : Params :=
  {| httpMethod := Some "POST"%string;
     ppath := "/v1/groups/";
     pparameters := Some (JObj [("groups"%string, JArr (JStr <$> groupList))]);
     urlParams := None |}.

(** The timer callback of [joinGroup]. *)
Definition requestJoinsForGroupQueue (c : Channel) : Channel * Completion unit :=
  let groupList := JsObject.keys (joinGroups c) in
  let c := setJoinGroups JsObject.empty c in
  let saveDeferred := joinDeferred c in
  let '(c, d) := defer c in
  let c := setJoinDeferred d c in
  match groupList with
  | [] => (resolve saveDeferred None c, Normal ())
  | _ =>
      match wsCall (joinParams groupList) c with
      | (c, Normal promise) => (done promise (JoinGroupDone saveDeferred) c, Normal ())
      | (c, Throw e) => (c, Throw e)
      end
  end.

(** *** registerPresence *)

(** [endpointList.forEach(function (ep) { if (typeof ep === 'string' &&
    presenceRegistered[ep] !== true) endpoints[ep] = true; })]. *)
Definition addUnregistered (registered : JsObject.t bool) (eps : list Json)
    (acc : JsObject.t bool) : JsObject.t bool :=
  foldl (fun acc ep =>
           match ep with
           | JStr s =>
               if JsObject.isTrue s registered then acc else JsObject.set s true acc
           | _ => acc
           end) acc eps.

(** [ids.forEach(function eachId(id) { presenceRegistered[id] = true; })]:
    an id that is not a string is converted to one, as a property name. *)
Definition markRegistered (ids : list Json) (registered : JsObject.t bool)
    : JsObject.t bool :=
  foldl (fun acc i => JsObject.set (toStr i) true acc) registered ids.

(** [registerPresence(params)] with [params.endpointList || []] as
    [endpointList]; the timer's callback closes over [params], so over
    this list. *)
Definition registerPresence (endpointList : list Json) (c : Channel) : Channel * nat :=
  let toRun := bool_decide (JsObject.keys (presenceEndpoints c) = []) in
  if negb (connected c) then
    let '(c, d) := defer c in (reject d notConnectedMessage c, d)
  else
    let c := setPresenceEndpoints
               (addUnregistered (presenceRegistered c) endpointList
                  (presenceEndpoints c)) c in
    if negb toRun then (c, presenceDeferred c)
    else (setTimeout (RegisterPresenceFlush endpointList) 0 c, presenceDeferred c).

(** The arguments of the [wsCall] that registers as an observer of the
    endpoints of a batch. *)
Definition presenceParams (endpointList : list string) : Params :=
  {| httpMethod := Some "POST"%string;
     ppath := "/v1/presenceobservers";
     pparameters :=
       Some (JObj [("endpointList"%string, JArr (JStr <$> endpointList))]);
     urlParams := None |}.

(** The timer callback of [registerPresence]; [callerList] is the
    [params.endpointList] of the call that set the timer. *)
Definition registerPresenceFlush (callerList : list Json) (c : Channel)
    : Channel * Completion unit :=
  let endpointList := JsObject.keys (presenceEndpoints c) in
  let c := setPresenceEndpoints JsObject.empty c in
  let saveDeferred := presenceDeferred c in
  let '(c, d) := defer c in
  let c := setPresenceDeferred d c in
  match endpointList with
  | [] => (resolve saveDeferred None c, Normal ())
  | _ =>
      match wsCall (presenceParams endpointList) c with
      | (c, Normal promise) =>
          (done promise (RegisterPresenceDone saveDeferred callerList) c, Normal ())
      | (c, Throw e) => (c, Throw e)
      end
  end.

(** *** The event loop *)

(** Running a handler attached with [.done] on the outcome of its
    promise. *)
Definition react (r : Reaction) (o : Settled) (c : Channel) : Channel :=
  match r, o with
  | JoinGroupDone saveDeferred, Resolved _ => resolve saveDeferred None c
  | JoinGroupDone saveDeferred, Rejected err => reject saveDeferred err c
  | RegisterPresenceDone saveDeferred ids, Resolved _ =>
      resolve saveDeferred None
        (setPresenceRegistered (markRegistered ids (presenceRegistered c)) c)
  | RegisterPresenceDone saveDeferred _, Rejected err => reject saveDeferred err c
  | _, Pending => c
  end.

Definition runTask (t : TimerTask) (c : Channel) : Channel :=
  match t with
  | Retry x => retry x c
  | RequestJoinsForGroupQueue => (requestJoinsForGroupQueue c).1
  | RegisterPresenceFlush l => (registerPresenceFlush l c).1
  end.

(** What happens to the channel from outside: the client calls in, the
    transport answers or disconnects, the earliest timer fires, the next
    queued handler runs, time passes. *)
Inductive Input :=
| CallWs (p : Params)
| CallJoinGroup (groupList : list Json)
| CallRegisterPresence (endpointList : list Json)
| Respond (x : nat) (response : Response) (thisStatus : option Z)
| Disconnect
| FireTimer
| RunJob
| Elapse (ms : Z).

Definition step (c : Channel) (i : Input) : Channel :=
  match i with
  | CallWs p => (wsCall p c).1
  | CallJoinGroup l => (joinGroup l c).1
  | CallRegisterPresence l => (registerPresence l c).1
  | Respond x r s => (handleResponse x r s c).1
  | Disconnect => onDisconnect c
  | FireTimer =>
      match timers c with
      | [] => c
      | t :: rest => runTask (task t) (setClock (Z.max (clock c) (due t)) (setTimers rest c))
      end
  | RunJob =>
      match jobs c with
      | [] => c
      | (r, o) :: rest => react r o (setJobs rest c)
      end
  | Elapse ms => setClock (clock c + Z.max 0 ms) c
  end.

Definition exec (c : Channel) (inputs : list Input) : Channel := foldl step c inputs.

(** A channel right after construction and connection. *)
Definition create : Channel :=
  {| connected := true; clock := 0;
     promises := [Pending; Pending];
     reactions := []; jobs := [];
     pendingRequests := PendingRequests.create;
     exchanges := []; emitted := []; timers := [];
     joinGroups := JsObject.empty; joinDeferred := 0;
     presenceEndpoints := JsObject.empty; presenceDeferred := 1;
     presenceRegistered := JsObject.empty |}.

(** *** Batches of synchronous calls *)

(** The strings among the entries of a list of identifiers. *)
Definition stringIds (ids : list Json) : list string :=
  omap (fun i => match i with JStr s => Some s | _ => None end) ids.

(** [joinGroup] called once for each list, one call after the other with
    nothing in between; the promises that the calls return. *)
Fixpoint joinGroupAll (lists : list (list Json)) (c : Channel) : Channel * list nat :=
  match lists with
  | [] => (c, [])
  | l :: rest =>
      let '(c1, d) := joinGroup l c in
      let '(c2, ds) := joinGroupAll rest c1 in
      (c2, d :: ds)
  end.

(** The number of those calls that set a timer: the calls that find
    nothing accumulated. *)
Fixpoint flushes (groups : JsObject.t bool) (lists : list (list Json)) : nat :=
  match lists with
  | [] => 0
  | l :: rest =>
      (if bool_decide (JsObject.keys groups = []) then 1 else 0) +
      flushes (addStrings l groups) rest
  end%nat.

(** The timer that a call of [joinGroup] sets. *)
Definition joinTimer (c : Channel) : Timer :=
  {| due := clock c + 0; task := RequestJoinsForGroupQueue |}.

(** The groups of a batch have been sent: nothing is accumulated, [m]
    timers of [joinGroup] are still set, [fs] is what has been emitted and
    [xs] are the invocations of [wsCall], the handler waiting for the
    RPC's promise [pw] is the batch's, for the deferred [d0], both
    promises are pending, and the deferred of the next batch is another
    one. *)
Definition batchSent (c : Channel) (pw d0 : nat) (fs : list Frame)
    (xs : list Exchange) (m : nat) (t : Z) : Prop :=
  JsObject.keys (joinGroups c) = [] /\
  timers c = replicate m {| due := t; task := RequestJoinsForGroupQueue |} /\
  clock c = t /\
  emitted c = fs /\
  exchanges c = xs /\
  reactions c = [(pw, JoinGroupDone d0)] /\
  jobs c = [] /\
  promises c !! pw = Some Pending /\
  promises c !! d0 = Some Pending /\
  joinDeferred c <> pw /\
  joinDeferred c <> d0.

(** A batch that named no group has been closed: nothing is accumulated,
    [m] timers of [joinGroup] are still set, [fs] is what has been
    emitted and [xs] are the invocations of [wsCall], no handler waits,
    the promise of the batch, of the deferred [d0], is resolved, and the
    deferred of the next batch is another one. *)
Definition batchEmpty (c : Channel) (d0 : nat) (fs : list Frame)
    (xs : list Exchange) (m : nat) (t : Z) : Prop :=
  JsObject.keys (joinGroups c) = [] /\
  timers c = replicate m {| due := t; task := RequestJoinsForGroupQueue |} /\
  clock c = t /\
  emitted c = fs /\
  exchanges c = xs /\
  reactions c = [] /\
  promises c !! d0 = Some (Resolved None) /\
  joinDeferred c <> d0.

(** Letting every timer that is set fire. *)
Definition fireTimers (c : Channel) : Channel :=
  exec c (replicate (length (timers c)) FireTimer).

(** What the handlers of a batch pass on from the outcome of the RPC. *)
Definition passedOn (o : Settled) : Settled :=
  match o with
  | Resolved _ => Resolved None
  | Rejected e => Rejected e
  | Pending => Pending
  end.

End Platform.

End Channel.


(* ===================================================================== *)
(** ** A channel to run *)
(* ===================================================================== *)

(** An instance of the platform, for the examples: [JSON.stringify] as
    module [Js] has it, templates without placeholders, a version and a
    token. *)
Module Sample.
Import Js Channel.

Definition expand (path : string) (_ : list (string * string)) : string := path.
Definition sdk : string := "Respoke.js/1.0.0".
Definition token : JsVal := Some (JStr "app-token").

Definition wsCall := Channel.wsCall stringify expand sdk token.
Definition step := Channel.step stringify expand sdk token.
Definition exec := Channel.exec stringify expand sdk token.
Definition fireTimers := Channel.fireTimers stringify expand sdk token.
Definition requestBodyLength := Channel.requestBodyLength stringify.
Definition requestOf := Channel.requestOf expand.
Definition frameOf := Channel.frameOf sdk token.

(** A string of [n] times the character [ch]. *)
Fixpoint repeatChar (n : nat) (ch : ascii) : string :=
  match n with
  | O => EmptyString
  | S n' => String ch (repeatChar n' ch)
  end.

(** A request without a body, and one whose body is a string of [n]
    letters, which is [n + 2] octets of JSON. *)
Definition getTurn : Params :=
  {| httpMethod := Some "GET"%string; ppath := "/v1/turn";
     pparameters := None; urlParams := None |}.

Definition letters (n : Z) : Json := JStr (repeatChar (Z.to_nat n) "a").

Definition postText (n : Z) : Params :=
  {| httpMethod := Some "POST"%string; ppath := "/v1/messages";
     pparameters := Some (letters n); urlParams := None |}.

(** Responses: a status with an object as body. *)
Definition respond (status : Z) (fields : list (string * Json)) : Response :=
  {| statusCode := status; body := Structured fields; responseHeaders := None |}.

(** A 429 whose body is not JSON. *)
Definition tooManyRequests : Response :=
  {| statusCode := 429; body := Text "Too Many Requests" None;
     responseHeaders := None |}.

(** The boolean form of [Forall isCodeUnit]. *)
Definition codeUnitsb (s : list Z) : bool :=
  forallb (fun u => (0 <=? u) && (u <? 65536)) s.

End Sample.

(* ===================================================================== *)
(** ** A channel and its later states *)
(* ===================================================================== *)

(** Relations between a state of the channel and the states that the
    event loop reaches from it, and the numbering of the requests. *)
Module History.
Import Js Channel.

(** What is settled in [c] is settled the same way in [c']. *)
Definition settledAlike (c c' : Channel) : Prop :=
  forall d o, promises c !! d = Some o -> o <> Pending -> promises c' !! d = Some o.

(** The frames that [c'] has emitted are those of [c], followed by
    frames that satisfy [P]. *)
Definition emittedMore (P : Frame -> Prop) (c c' : Channel) : Prop :=
  exists fs, emitted c' = emitted c ++ fs /\ Forall P fs.

(** [request.id] of the invocations of [wsCall], oldest first. *)
Definition ids (c : Channel) : list nat :=
  (fun ex => id (request ex)) <$> exchanges c.

(** The invocations of [wsCall] are numbered from 1 by [request.id], and
    [counter] of the pending requests counts them. *)
Definition numbered (c : Channel) : Prop :=
  PendingRequests.counter (pendingRequests c) = length (exchanges c) /\
  ids c = seq 1 (length (exchanges c)).

(** The method of every request is in lower case. *)
Definition lowerMethods (c : Channel) : Prop :=
  Forall (fun ex => toLowerCase (method (request ex)) = method (request ex))
         (exchanges c).

(** A frame as [sendWebsocketRequest] builds it: an event name in lower
    case, and the two headers. *)
Definition wellFormedFrame (f : Frame) : Prop :=
  toLowerCase (event f) = event f /\
  (headers f).*1 = ["App-Token"; "Respoke-SDK"]%string.

(** The deferreds held in [pendingRequests]. *)
Definition held (d : nat) (c : Channel) : Prop :=
  Some d ∈ PendingRequests.contents (pendingRequests c).

End History.

(* ===================================================================== *)
(** ** Signals from the socket *)
(* ===================================================================== *)

Module Signals.
Import Js Routing.

(** [knownSignals] of [socketOnSignal]. *)
Definition knownSignals : list string :=
  ["offer"; "answer"; "connected"; "modify"; "iceCandidates"; "bye"]%string.

(** What [socketOnSignal] does with a message: nothing, a call of
    [routeSignal], or an Error thrown. *)
Inductive Received :=
| Ignored
| Routes (signal : Signal)
| Malformed (e : string).

(** [socketOnSignal(message)], on the signal that [SignalingMessage]
    builds from the message and on its [target]. *)
Definition socketOnSignal (target : option string) (signal : Signal) : Received :=
  if String.eqb (signalType signal) "ack" then Ignored
  else if negb (isSet target) || String.eqb (signalType signal) EmptyString ||
          negb (bool_decide (signalType signal ∈ knownSignals))
  then Malformed "Can't route signal without target or type."
  else Routes signal.

(** The events that the routing methods fire, by type of signal. *)
Definition firedEvents : list (string * string) :=
  [("offer", "signal-offer"); ("answer", "signal-answer");
   ("connected", "signal-connected"); ("modify", "signal-modify");
   ("iceCandidates", "signal-icecandidates"); ("bye", "signal-hangup")]%string.

End Signals.

(* ===================================================================== *)
(** ** Strings *)
(* ===================================================================== *)

(** The operations of JavaScript strings that the HTTP side of the
    channel uses, on strings whose characters stand for the code units
    0 to 255. *)
Module Text.

Definition CR : ascii := ascii_of_nat 13.
Definition LF : ascii := ascii_of_nat 10.
Definition CRLF : string := String CR (String LF EmptyString).

(** [s.indexOf(needle)]; [None] is -1. *)
Fixpoint indexOf (needle s : string) : option nat :=
  if String.prefix needle s then Some 0%nat
  else match s with
       | EmptyString => None
       | String _ rest => S <$> indexOf needle rest
       end.

(** [s.substring(0, n)] and [s.substring(n)]. *)
Fixpoint substringTo (n : nat) (s : string) : string :=
  match n, s with
  | S k, String c rest => String c (substringTo k rest)
  | _, _ => EmptyString
  end.

Fixpoint substringFrom (n : nat) (s : string) : string :=
  match n, s with
  | S k, String _ rest => substringFrom k rest
  | _, _ => s
  end.

(** [s.split(sep)] for a separator that is not empty, also when the
    separator is written as a regular expression without operators, as
    in [/:/]: scanning from the left, [skip] characters of a separator
    found are still to be passed over. *)
Fixpoint splitFrom (sep : string) (skip : nat) (s : string) : list string :=
  match s with
  | EmptyString => [EmptyString]
  | String c rest =>
      match skip with
      | S k => splitFrom sep k rest
      | O =>
          if String.prefix sep s
          then EmptyString :: splitFrom sep (String.length sep - 1) rest
          else match splitFrom sep 0 rest with
               | piece :: pieces => String c piece :: pieces
               | [] => [String c EmptyString]
               end
      end
  end.

Definition split (sep s : string) : list string := splitFrom sep 0 s.

(** The character [ch] does not occur in [s]. *)
Definition without (ch : ascii) (s : string) : Prop :=
  Forall (fun x => x <> ch) (list_ascii_of_string s).

End Text.

(* ===================================================================== *)
(** ** The HTTP side: call, its helpers and the handlers of its callers *)
(* ===================================================================== *)

Module Http.
Import Js Text.

(** *** makeParamString *)

(** One parameter, as [formatParam] pushes it: an array is joined with
    commas, an object (or [null]) is skipped, anything else is
    converted to a string, [undefined] to the empty one. *)
Definition formatParam (name : string) (value : JsVal) : option string :=
  match value with
  | Some (JArr items) => Some (name +:+ "=" +:+ toStr (JArr items))
  | Some (JObj _) | Some JNull => None
  | Some v => Some (name +:+ "=" +:+ toStr v)
  | None => Some (name +:+ "=")
  end.

(** [makeParamString(params)], for the own properties of [params] in
    the order in which [Object.keys] lists them. *)
Definition makeParamString (params : option (list (string * JsVal))) : string :=
  match params with
  | None => EmptyString
  | Some fields =>
      match omap (fun '(name, value) => formatParam name value) fields with
      | [] => EmptyString
      | strings => "?" +:+ String.concat "&" strings
      end
  end.

(** *** getAllResponseHeaders *)

(** The callback of [pairs.forEach]: a line with [": "] after its first
    character gives a key and a value. *)
Definition addPair (result : JsObject.t string) (pair : string) : JsObject.t string :=
  match indexOf ": " pair with
  | Some (S i) =>
      JsObject.set (substringTo (S i) pair) (substringFrom (S i + 2) pair) result
  | _ => result
  end.

(** [getAllResponseHeaders(xhrResponse)], on what
    [xhrResponse.getAllResponseHeaders()] returns ([None] is [null]). *)
Definition getAllResponseHeaders (headers : option string) : JsObject.t string :=
  match headers with
  | None => JsObject.empty
  | Some h =>
      if String.eqb h EmptyString then JsObject.empty
      else foldl addPair JsObject.empty (split CRLF h)
  end.

(** The header block of a response as XMLHttpRequest gives it: for each
    header its name, a colon, a space, its value, and CR LF. *)
Definition headerLine (kv : string * string) : string :=
  kv.1 +:+ ": " +:+ kv.2 +:+ CRLF.

Definition headerBlock (hs : list (string * string)) : string :=
  String.concat EmptyString (headerLine <$> hs).

(** *** The callback of call *)

(** What the callback reads from the XMLHttpRequest: [response] is the
    text of the body, [json] what [JSON.parse] makes of it ([None]: it
    throws), [header] is [getResponseHeader], with [None] for [null] and
    for the exception that a disallowed header raises. *)
Record Xhr := {
  readyState : Z;
  status : Z;
  response : string;
  json : option Json;
  allResponseHeaders : option string;
  header : string -> option string
}.

(** The [response] object that [call] builds. *)
Record Response := {
  body : Json;
  statusCode : Z;
  headers : JsObject.t string;
  uri : string;
  params : JsVal;
  error : option string
}.

Inductive Outcome :=
| NotReady
| Resolve (r : Response)
| Reject (message : string).

(** An object of strings as a JSON value, with its own properties. *)
Definition asObject (m : JsObject.t string) : Json :=
  JObj ((fun kv => (kv.1, JStr kv.2)) <$> m).

(** [null] and a string in a concatenation. *)
Definition orNull (v : option string) : string := default "null"%string v.

(** [xhr.onreadystatechange] as [call] sets it, for the request to [uri]
    with the parameters [params]. *)
Definition onreadystatechange (uri : string) (params : JsVal) (xhr : Xhr) : Outcome :=
  if negb (readyState xhr =? 4) then NotReady
  else if status xhr =? 0 then
    Reject "Status is 0: Incomplete request, SSL error, or CORS error."
  else
    let parsed := negb (String.eqb (response xhr) EmptyString) in
    let r :=
      {| statusCode := status xhr;
         headers := getAllResponseHeaders (allResponseHeaders xhr);
         uri := uri;
         params := params;
         body := if parsed
                 then match json xhr with
                      | Some v => v
                      | None => JStr (response xhr)
                      end
                 else JNull;
         error := if parsed
                  then match json xhr with
                       | Some _ => Channel.errors (Some (status xhr))
                       | None => Some "Invalid JSON."%string
                       end
                  else Channel.errors (Some (status xhr)) |} in
    if negb (Channel.notAnExpectedStatus (Some (status xhr))) then Resolve r
    else if status xhr =? 429 then
      let unit := orNull (header xhr "RateLimit-Time-Units") in
      let limit := orNull (header xhr "RateLimit-Limit") in
      Reject (Channel.buildResponseError (Some (asObject (headers r)))
                ("Rate limit of " +:+ limit +:+ "/" +:+ unit +:+
                 " exceeded. Try again in 1 " +:+ unit +:+ "."))
    else
      Reject (Channel.buildResponseError (Some (asObject (headers r)))
                ("unexpected response code " +:+ pretty (status xhr))).

(** *** The handlers of doOpen and getToken *)

(** [undefined] and a string in a concatenation. *)
Definition orUndefined (v : option string) : string := default "undefined"%string v.

(** The end of the error message that both handlers build. *)
Definition failure (r : Response) : string :=
  if Channel.isBillingSuspensionUnauthorizedResponse (statusCode r) (body r)
  then Channel.billingSuspensionErrorMessage
  else if Channel.isSuspensionUnauthorizedResponse (statusCode r) (body r)
  then Channel.suspensionErrorMessage
  else orUndefined (error r).

(** How a handler ends: the promise resolved with a value, and the new
    value of the variable that the handler assigns; the promise
    rejected; or a TypeError thrown. *)
Inductive Handled :=
| Done (value : JsVal) (assigned : JsVal)
| Failed (message : string)
| Threw.

(** The handlers that [doOpen] passes to [call(...).done]: on a 200,
    [appToken = response.body.token]. *)
Definition doOpenFulfilled (r : Response) : Handled :=
  if statusCode r =? 200 then
    match getProp (body r) "token" with
    | Some token => Done None token
    | None => Threw
    end
  else
    Failed (Channel.buildResponseError (Some (asObject (headers r)))
              ("Couldn't authenticate app. " +:+ failure r)).

Definition doOpenRejected (message : string) : Handled :=
  Failed ("Couldn't authenticate app. " +:+ message).

(** The handlers that [getToken] passes to [call(...).done]: on a 200
    with a [tokenId], [token = response.body.tokenId]. *)
Definition getTokenFulfilled (r : Response) : Handled :=
  let tokenId :=
    if truthy (body r)
    then match getProp (body r) "tokenId" with Some v => v | None => None end
    else None in
  if (statusCode r =? 200) && truthyVal tokenId then Done tokenId tokenId
  else
    Failed (Channel.buildResponseError (Some (asObject (headers r)))
              ("Couldn't get a developer mode token. " +:+ failure r)).

Definition getTokenRejected (message : string) : Handled :=
  Failed ("Couldn't get a developer mode token. " +:+ message).

(** A handler pair on the outcome of [call]. *)
Definition handle (fulfilled : Response -> Handled) (rejected : string -> Handled)
    (o : Outcome) : option Handled :=
  match o with
  | NotReady => None
  | Resolve r => Some (fulfilled r)
  | Reject m => Some (rejected m)
  end.

(** A complete answer with the status [s] and the JSON text of [v] as
    its body, without headers. *)
Definition answer (s : Z) (v : Json) : Xhr :=
  {| readyState := 4; status := s;
     response := string_of_list_ascii
                   ((fun u => ascii_of_nat (Z.to_nat u)) <$> stringify v);
     json := Some v;
     allResponseHeaders := None;
     header := fun _ => None |}.

End Http.

(* ===================================================================== *)
(** ** Reconnecting *)
(* ===================================================================== *)

Module Reconnect.

(** What a connection attempt leaves behind: the tokens, and whether
    there is a socket. *)
Record Session := {
  appToken : option string;
  token : option string;
  socket : bool
}.

(** The variables that [reconnect] reads and writes:
    [clientSettings.reconnect === true], [reconnectTimeout] ([None] is
    [null]), and the session. *)
Record State := {
  reconnectSetting : bool;
  reconnectTimeout : option Z;
  session : Session
}.

Definition maxReconnectTimeout : Z := 5 * 60 * 1000.

(** [reconnect()]: the new state, and the delay of the timer that it
    sets for [doReconnect], if it sets one. *)
Definition reconnect (s : State) : State * option Z :=
  if negb (reconnectSetting s) then (s, None)
  else
    let t := match reconnectTimeout s with
             | None => 2500
             | Some t => 2 * t
             end in
    let t := if maxReconnectTimeout <? t then maxReconnectTimeout else t in
    ({| reconnectSetting := false; reconnectTimeout := Some t;
        session := {| appToken := None; token := None; socket := false |} |},
     Some t).

(** How [doReconnect] ends: [actuallyConnect] fails; it succeeds but a
    later step of the chain throws; or all succeeds.  [after] is the
    session that [actuallyConnect] leaves. *)
Inductive Attempt :=
| ConnectFails (after : Session)
| LaterFails (after : Session)
| Succeeds (after : Session).

(** [doReconnect], when the timer fires: a success of [actuallyConnect]
    clears [reconnectTimeout]; in every case reconnecting is enabled
    again; after a failure [reconnect] is called again. *)
Definition doReconnect (a : Attempt) (s : State) : State * option Z :=
  match a with
  | ConnectFails after =>
      reconnect {| reconnectSetting := true; reconnectTimeout := reconnectTimeout s;
                   session := after |}
  | LaterFails after =>
      reconnect {| reconnectSetting := true; reconnectTimeout := None;
                   session := after |}
  | Succeeds after =>
      ({| reconnectSetting := true; reconnectTimeout := None; session := after |}, None)
  end.

(** The delays of the timers that a run of attempts sets, in order,
    from the state that a call of [reconnect] has left; the run ends
    with the first success. *)
Fixpoint delays (attempts : list Attempt) (s : State) : list Z :=
  match attempts with
  | [] => []
  | a :: rest =>
      match doReconnect a s with
      | (s', Some t) => t :: delays rest s'
      | (s', None) => []
      end
  end.

(** The number of attempts in a row, up to the end of a run, in which
    the connection itself failed. *)
Definition streak (attempts : list Attempt) : nat :=
  foldl (fun k a => match a with ConnectFails _ => S k | _ => 0%nat end)
        0%nat attempts.

(** An attempt that fails, at the connection or later. *)
Definition fails (a : Attempt) : Prop :=
  match a with Succeeds _ => False | _ => True end.

(** The same for a disconnection: [reconnect] is called, and each timer
    leads to the next attempt. *)
Definition delaysFrom (attempts : list Attempt) (s : State) : list Z :=
  match reconnect s with
  | (s', Some t) => t :: delays attempts s'
  | (_, None) => []
  end.

End Reconnect.

(* ===================================================================== *)
(** ** Endpoints and the presence of their connections *)
(* ===================================================================== *)

Module Connection.
Import Js.

(** The fields of a Connection that respoke/endpoint.js reads. *)
Record t := { id : string; presence : Json }.

End Connection.

Module Endpoint.
Import Js.

Record t := { connections : list Connection.t; presence : Json }.

Definition PRESENCE_CONSTANTS : list string :=
  ["chat"; "available"; "away"; "dnd"; "xa"; "unavailable"]%string.

(** [arr.indexOf(x)] on an array of strings; [None] is -1. *)
Fixpoint indexOf (x : string) (arr : list string) : option nat :=
  match arr with
  | [] => None
  | y :: rest => if String.eqb x y then Some 0%nat else S <$> indexOf x rest
  end.

(** [PRESENCE_CONSTANTS.indexOf(p)], with 1000 for -1: a presence that
    is not a string is not in the array. *)
Definition rank (p : Json) : nat :=
  match p with
  | JStr s => default 1000%nat (indexOf s PRESENCE_CONSTANTS)
  | _ => 1000%nat
  end.

(** The comparison function [sorter]. *)
Definition sorter (a b : Connection.t) : Z :=
  let indexA := rank (Connection.presence a) in
  let indexB := rank (Connection.presence b) in
  if (indexA <? indexB)%nat then -1 else if (indexB <? indexA)%nat then 1 else 0.

(** [arr.sort(comparefn)], which is stable: insertion from the right,
    an element going before the elements that it does not follow. *)
Fixpoint insertSorted {A : Type} (comparefn : A -> A -> Z) (x : A) (arr : list A) : list A :=
  match arr with
  | [] => [x]
  | y :: rest =>
      if comparefn x y <=? 0 then x :: arr else y :: insertSorted comparefn x rest
  end.

Definition sort {A : Type} (comparefn : A -> A -> Z) (arr : list A) : list A :=
  foldr (insertSorted comparefn) [] arr.

(** [resolvePresence()], with the function [resolveEndpointPresence]
    given to the endpoint, if one was. *)
Definition resolvePresence (resolveEndpointPresence : option (list Json -> Json))
    (e : t) : t :=
  let presenceList := Connection.presence <$> connections e in
  match resolveEndpointPresence with
  | Some resolve => {| connections := connections e; presence := resolve presenceList |}
  | None =>
      let idList := sort sorter (connections e) in
      {| connections := idList;
         presence := match idList with
                     | first :: _ => Connection.presence first
                     | [] => JStr "unavailable"
                     end |}
  end.

(** [getConnection(params)] with [params.connectionId]; the comparison
    of [connections[0]], an object, with the id is false for every id
    that is a string.  The result is the connection or [null], or the
    Error thrown. *)
Definition getConnection (connectionId : option string) (e : t)
    : Channel.Completion (option Connection.t) :=
  let given := Routing.isSet connectionId in
  match connections e with
  | [only] =>
      if negb given then Channel.Normal (Some only)
      else Channel.Normal
             (List.find (fun conn => bool_decide (Some (Connection.id conn) = connectionId))
                        (connections e))
  | _ =>
      if negb given
      then Channel.Throw "Can't find a connection without the connectionId."
      else Channel.Normal
             (List.find (fun conn => bool_decide (Some (Connection.id conn) = connectionId))
                        (connections e))
  end.

End Endpoint.

(* ===================================================================== *)
(** ** Connecting: the parameters of the socket, and the TURN servers *)
(* ===================================================================== *)

Module Connecting.
Import Js Text.

(** The part of [connectParams] that [authenticate] computes from
    [clientSettings.baseURL]. *)
Record ConnectParams := {
  host : string;
  port : string;
  protocol : string;
  secure : bool
}.

(** [pieces = baseURL.split(/:\/\//); protocol = pieces[0];
    pieces = pieces[1].split(/:/); host = pieces[0]; port = pieces[1]],
    and [port || '443']; [None] is the TypeError on a [baseURL] without
    ["://"]. *)
Definition connectParams (baseURL : string) : option ConnectParams :=
  match split "://" baseURL with
  | protocol :: rest :: _ =>
      match split ":" rest with
      | host :: more =>
          Some {| host := host;
                  port := match more with
                          | p :: _ => if String.eqb p EmptyString then "443" else p
                          | [] => "443"
                          end;
                  protocol := protocol;
                  secure := String.eqb protocol "https" |}
      | [] => None
      end
  | _ => None
  end.

(** The handler that [getTurnCredentials] passes to [wsCall(...).done]
    for a success, on the deferred [d] of the caller: [createIceServer]
    is the function of the WebRTC adapter. *)
Definition turnServers (createIceServer : Json -> JsVal -> JsVal -> Json)
    (creds : Json) (uris : list Json) : list Json :=
  omap (fun uri =>
          if truthy uri
          then Some (createIceServer uri
                       (default None (getProp creds "username"))
                       (default None (getProp creds "password")))
          else None) uris.

Definition getTurnCredentialsDone (createIceServer : Json -> JsVal -> JsVal -> Json)
    (creds : JsVal) (d : nat) (c : Channel.Channel) : Channel.Channel * Channel.Completion unit :=
  match creds with
  | None => (Channel.reject d "Turn credentials empty." c, Channel.Normal ())
  | Some creds =>
      if negb (truthy creds) then (Channel.reject d "Turn credentials empty." c, Channel.Normal ())
      else
        match getProp creds "uris" with
        | Some (Some (JArr uris)) =>
            let result := turnServers createIceServer creds uris in
            let c := match result with
                     | [] => Channel.reject d "Got no TURN credentials." c
                     | _ => c
                     end in
            (Channel.resolve d (Some (JArr result)) c, Channel.Normal ())
        | Some (Some uris) =>
            if truthy uris then (c, Channel.Throw "TypeError")
            else (Channel.reject d "Turn credentials empty." c, Channel.Normal ())
        | _ => (Channel.reject d "Turn credentials empty." c, Channel.Normal ())
        end
  end.

End Connecting.

(* ===================================================================== *)
(** ** Facts about CallState *)
(* ===================================================================== *)

Section CallStateFacts.
Import CallState.

(** An event fires exactly when it has a cell in the row of the current
    state. *)
Lemma fire_listed (m : Machine) (e : Event) (p : Params) :
  is_Some (fire m e p) <-> e ∈ row (name m).
Proof.
  unfold fire. destruct (name m), e; cbn [row]; split; intros H;
    first [ by eexists
          | by (apply list_elem_of_In; simpl; tauto)
          | by destruct H
          | by (repeat (apply elem_of_cons in H as [H|H]; [discriminate|]);
                apply elem_of_nil in H) ].
Qed.

(** C1.  In every state, an event that is not listed in the state's row
    of the transition table is dropped: dispatching it returns the machine
    as it was, with the same state name and flags, and emits neither an
    entry nor an exit event.  [dispatch] is a total function without an
    error result, so no exception is raised. *)
Theorem unlisted_event_ignored (m : Machine) (e : Event) (p : Params) :
  e ∉ row (name m) -> dispatch m e p = (m, []).
Proof.
  intros Hrow. unfold dispatch.
  destruct (fire m e p) as [m'|] eqn:Hfire; [|reflexivity].
  exfalso. apply Hrow, (fire_listed m e p). by eexists.
Qed.

(** [sentOffer] in [idle]. *)
Lemma unlisted_event_ignored_witness :
  (sentOffer ∉ row (name (create true))) /\
  dispatch (create true) sentOffer {| hasListener := true; receive := false |}
    = (create true, []).
Proof.
  assert (sentOffer ∉ row (name (create true))) as H.
  { simpl. intros Hin. repeat (apply elem_of_cons in Hin as [Hin|Hin]; [discriminate|]).
    by apply elem_of_nil in Hin. }
  split; [exact H | exact (unlisted_event_ignored _ _ _ H)].
Defined.

Lemma dispatch_terminated (m : Machine) (e : Event) (p : Params) :
  name m = terminated -> dispatch m e p = (m, []).
Proof.
  intros H. unfold dispatch, fire. rewrite H. by destruct e.
Qed.

Lemma run_terminated (m : Machine) (evs : list (Event * Params)) :
  name m = terminated -> run m evs = (m, []).
Proof.
  intros H. induction evs as [|[e p] evs IH]; [reflexivity|].
  simpl. rewrite (dispatch_terminated m e p H), IH. reflexivity.
Qed.

Lemma run_app (m : Machine) (evs1 evs2 : list (Event * Params)) :
  run m (evs1 ++ evs2) =
  let '(m1, h1) := run m evs1 in
  let '(m2, h2) := run m1 evs2 in (m2, h1 ++ h2).
Proof.
  revert m. induction evs1 as [|[e p] evs1 IH]; intros m; simpl.
  - by destruct (run m evs2).
  - destruct (dispatch m e p) as [m1 h1]. rewrite IH.
    destruct (run m1 evs1) as [m2 h2]. destruct (run m2 evs2) as [m3 h3].
    by rewrite app_assoc.
Qed.

(** C2.  Once a sequence of events has brought the machine into
    [terminated], whatever events are dispatched afterwards change nothing:
    the machine stays as it is and nothing more is emitted. *)
Theorem terminated_is_final (m : Machine) (before after : list (Event * Params)) :
  name (run m before).1 = terminated ->
  run m (before ++ after) = run m before.
Proof.
  intros H. rewrite run_app. destruct (run m before) as [m1 h1]. simpl in H.
  rewrite (run_terminated m1 after H). by rewrite app_nil_r.
Qed.

(** Events after a hangup in [idle]. *)
Lemma terminated_is_final_witness :
  let p := {| hasListener := true; receive := false |} in
  name (run (create true) [(hangup, p)]).1 = terminated /\
  run (create true) ([(hangup, p)] ++ [(initiate, p); (modify, p); (hangup, p)])
    = run (create true) [(hangup, p)].
Proof.
  intros p.
  assert (name (run (create true) [(hangup, p)]).1 = terminated) as H by reflexivity.
  split; [exact H | exact (terminated_is_final _ _ _ H)].
Defined.

(** C9.  [accept] in [modifying] leads to [preparing], emitting
    [modifying:exit] then [preparing:entry], and leaves the machine with
    [caller = true], [hasLocalMedia = false], [hasLocalMediaApproval =
    false] and [isModifying()] true. *)
Theorem accept_in_modifying (m : Machine) (p : Params) :
  name m = modifying ->
  let '(m', emitted) := dispatch m accept p in
  name m' = preparing /\
  emitted = [Exit modifying; Entry preparing] /\
  caller m' = true /\
  hasLocalMedia m' = false /\
  hasLocalMediaApproval m' = false /\
  isModifying m' = true.
Proof.
  intros H. unfold dispatch, fire. rewrite H. simpl.
  repeat split.
Qed.

(** A callee that started the modification. *)
Lemma accept_in_modifying_witness :
  let p := {| hasListener := true; receive := false |} in
  let m := {| name := modifying; isMediaFlowing := true; hasLocalMedia := true;
              hasLocalMediaApproval := true; caller := false;
              modifyInProgress := true |} in
  name m = modifying /\
  let '(m', emitted) := dispatch m accept p in
  name m' = preparing /\
  emitted = [Exit modifying; Entry preparing] /\
  caller m' = true /\
  hasLocalMedia m' = false /\
  hasLocalMediaApproval m' = false /\
  isModifying m' = true.
Proof.
  intros p m. split; [reflexivity | exact (accept_in_modifying m p eq_refl)].
Defined.

(** The modify round trip of the specification's scenario 4, from
    [connected]. *)
Example modify_round_trip :
  let start := {| name := connected; isMediaFlowing := true; hasLocalMedia := true;
                  hasLocalMediaApproval := true; caller := false;
                  modifyInProgress := false |} in
  let p := {| hasListener := true; receive := false |} in
  let '(m1, h1) := dispatch start modify p in
  let '(m2, h2) := dispatch m1 accept p in
  name m1 = modifying /\ isModifying m1 = true /\
  name m2 = preparing /\ caller m2 = true /\ isModifying m2 = true.
Proof. vm_compute. repeat split. Qed.

(** The caller's and the callee's happy paths, scenarios 1 and 2. *)
Example caller_happy_path :
  let p := {| hasListener := true; receive := false |} in
  let '(m, h) := run (create true)
    [(initiate, p); (answer, p); (approve, p); (receiveLocalMedia, p);
     (approve, p); (sentOffer, p); (receiveAnswer, p); (receiveRemoteMedia, p)] in
  name m = connected /\
  h = [Exit idle; Entry preparing; Exit preparing; Entry approvingDeviceAccess;
       Exit approvingDeviceAccess; Entry approvingContent;
       Exit approvingContent; Entry offering; Exit offering; Entry connecting;
       Exit connecting; Entry connected].
Proof. vm_compute. split; reflexivity. Qed.

Example callee_happy_path :
  let p := {| hasListener := true; receive := false |} in
  let '(m, h) := run (create false)
    [(initiate, p); (answer, p); (approve, p); (receiveLocalMedia, p); (approve, p)] in
  name m = connecting.
Proof. vm_compute. reflexivity. Qed.

(** The unit tests of the implementation, on the model.  The events that
    the tests call invalid in [idle] do not move a fresh machine
    (call-state.spec.js, lines 67 to 93). *)
Example tests_invalid_events_in_idle :
  let p := {| hasListener := true; receive := false |} in
  Forall (fun e => dispatch (create true) e p = (create true, []))
    [answer; receiveLocalMedia; approve; sentOffer; accept;
     receiveRemoteMedia; receiveAnswer; modify].
Proof. repeat constructor. Qed.

(** With media flowing, [reject] in [preparing] leads to [connected] and
    fires [connected:entry] (lines 675 to 698); then [modify] without
    [receive] leads to [modifying], which reports modifying (lines 700 to
    734), and [accept] leads to [preparing] with the three flags reset
    (lines 736 to 784), while [reject] leads back to [connected], which
    does not report modifying (lines 786 to 822). *)
Example tests_modify_as_initiator :
  let p := {| hasListener := true; receive := false |} in
  let flowing := {| name := preparing; isMediaFlowing := true; hasLocalMedia := false;
                    hasLocalMediaApproval := false; caller := true;
                    modifyInProgress := false |} in
  let '(m1, h1) := dispatch flowing reject p in
  let '(m2, h2) := dispatch m1 modify p in
  let '(m3, h3) := dispatch m2 accept p in
  let '(m4, h4) := dispatch m2 reject p in
  (name m1 = connected /\ isModifying m1 = false /\ Entry connected ∈ h1) /\
  (name m2 = modifying /\ isModifying m2 = true /\
   h2 = [Exit connected; Entry modifying]) /\
  (name m3 = preparing /\ isModifying m3 = true /\ caller m3 = true /\
   hasLocalMedia m3 = false /\ hasLocalMediaApproval m3 = false /\
   h3 = [Exit modifying; Entry preparing]) /\
  (name m4 = connected /\ isModifying m4 = false /\
   h4 = [Exit modifying; Entry connected]).
Proof.
  cbv zeta. vm_compute. repeat split. apply list_elem_of_In. right. by left.
Qed.

(** As the receiver of a modify, the machine is back in [preparing] as
    the callee, and the events that the tests call invalid there do not
    move it (lines 857 to 964). *)
Example tests_modify_as_receiver :
  let p := {| hasListener := true; receive := true |} in
  let established := {| name := connected; isMediaFlowing := true; hasLocalMedia := true;
                        hasLocalMediaApproval := true; caller := true;
                        modifyInProgress := false |} in
  let '(m1, h1) := dispatch established modify p in
  name m1 = preparing /\ caller m1 = false /\ isModifying m1 = true /\
  h1 = [Exit connected; Entry preparing] /\
  Forall (fun e => dispatch m1 e p = (m1, []))
    [initiate; receiveLocalMedia; approve; sentOffer; receiveRemoteMedia;
     receiveAnswer; modify; accept].
Proof. cbv zeta. vm_compute. repeat split; repeat constructor. Qed.

End CallStateFacts.

(* ===================================================================== *)
(** ** Facts about signal routing *)
(* ===================================================================== *)

Section RoutingFacts.
Import Routing.

(** A signal for a known call reaches the routing method named after its
    type. *)
Lemma successHandler_bye (call : Call) (signal : Signal) :
  signalType signal = "bye"%string -> id call = sessionId signal ->
  successHandler (Some call) signal =
    let '(call', fired) := doBye call signal in Delivered call' fired.
Proof.
  intros Ht Hid. unfold successHandler. rewrite Ht, Hid, String.eqb_refl.
  reflexivity.
Qed.

(** C3.  A [bye] routed to a call on which this side is the caller, whose
    [connectionId] is set, and that comes from another connection than
    that one, is dropped: the call is left as it was and no event, so no
    [signal-hangup], is fired on it.  This holds of [doBye] and of the
    routing through [routeSignal]'s success handler that leads to it. *)
Theorem losing_fork_bye_dropped (call : Call) (signal : Signal) :
  caller call = true ->
  isSet (connectionId call) = true ->
  connectionId call <> fromConnection signal ->
  doBye call signal = (call, []) /\
  (signalType signal = "bye"%string -> id call = sessionId signal ->
   successHandler (Some call) signal = Delivered call []).
Proof.
  intros Hcaller Hset Hne.
  assert (doBye call signal = (call, [])) as Hbye.
  { unfold doBye. rewrite Hcaller, Hset. by rewrite bool_decide_eq_false_2. }
  split; [exact Hbye|].
  intros Ht Hid. rewrite successHandler_bye by done. by rewrite Hbye.
Qed.

(** The specification's scenario 3: the call is with connection A, the
    [bye] comes from connection B. *)
Lemma losing_fork_bye_dropped_witness :
  let call := {| id := "s1"; caller := true; connectionId := Some "A"%string |} in
  let signal := {| signalType := "bye"; sessionId := "s1";
                   fromConnection := Some "B"%string |} in
  doBye call signal = (call, []) /\
  successHandler (Some call) signal = Delivered call [].
Proof.
  intros call signal.
  destruct (losing_fork_bye_dropped call signal eq_refl eq_refl ltac:(discriminate))
    as [H1 H2].
  split; [exact H1 | exact (H2 eq_refl eq_refl)].
Defined.

(** In every other case the [bye] is delivered as [signal-hangup]. *)
Lemma bye_delivered (call : Call) (signal : Signal) :
  caller call = false \/ isSet (connectionId call) = false \/
  connectionId call = fromConnection signal ->
  doBye call signal =
    (call, [{| eventName := "signal-hangup"; payload := signal |}]).
Proof.
  unfold doBye. intros [->|[->|Heq]]; [done| by rewrite andb_false_r |].
  rewrite (bool_decide_eq_true_2 _ Heq). by rewrite andb_false_r.
Qed.

End RoutingFacts.

(* ===================================================================== *)
(** ** Facts about PendingRequests *)
(* ===================================================================== *)

Section PendingRequestsFacts.
Import PendingRequests.
Context {A : Type}.
Implicit Types (p : PendingRequests.t A) (arr : list (option A)).

Lemma arraySet_lookup (i : nat) (x : A) arr :
  arraySet i x arr !! i = Some (Some x).
Proof.
  unfold arraySet. case_decide as Hi.
  - by apply list_lookup_insert_eq.
  - rewrite lookup_app_r by lia.
    rewrite lookup_app_r; rewrite length_replicate; [|lia].
    by replace (i - length arr - (i - length arr))%nat with 0%nat by lia.
Qed.

Lemma arrayDelete_lookup_ne (i j : nat) arr :
  i <> j -> arrayDelete i arr !! j = arr !! j.
Proof. intros. unfold arrayDelete. by apply list_lookup_insert_ne. Qed.

(** [forEach] visits every element that is present. *)
Lemma forEach_visits {S : Type} (fn : A -> S -> S) arr (s : S) :
  forEach fn arr s = foldl (fun acc x => fn x acc) s (omap (fun slot => slot) arr).
Proof.
  unfold forEach. revert s. induction arr as [|[x|] arr IH]; intros s; simpl; auto.
Qed.

Lemma present_lookup arr (i : nat) (x : A) :
  arr !! i = Some (Some x) -> x ∈ omap (fun slot => slot) arr.
Proof.
  intros H. apply list_elem_of_omap. exists (Some x). split; [|done].
  by apply list_elem_of_lookup_2 in H.
Qed.

End PendingRequestsFacts.

(* ===================================================================== *)
(** ** Facts about the body-size computation *)
(* ===================================================================== *)

Section EncodingFacts.
Import Encoding.

Lemma lor_below (n a b : Z) :
  0 <= n -> 0 <= a < 2 ^ n -> 0 <= b < 2 ^ n -> 0 <= Z.lor a b < 2 ^ n.
Proof.
  intros Hn [Ha0 Ha] [Hb0 Hb]. split; [by apply Z.lor_nonneg|].
  destruct (decide (n = 0)) as [->|Hn0].
  { change (2 ^ 0) with 1 in *. assert (a = 0) as -> by lia.
    assert (b = 0) as -> by lia. reflexivity. }
  destruct (decide (Z.lor a b = 0)) as [->|Hnz].
  { apply Z.pow_pos_nonneg; lia. }
  pose proof (proj2 (Z.lor_nonneg a b) (conj Ha0 Hb0)) as Hge.
  apply Z.log2_lt_pow2; [lia|].
  rewrite Z.log2_lor by done.
  apply Z.max_lub_lt.
  - destruct (decide (a = 0)) as [->|]; [simpl; lia|]. apply Z.log2_lt_pow2; lia.
  - destruct (decide (b = 0)) as [->|]; [simpl; lia|]. apply Z.log2_lt_pow2; lia.
Qed.

Lemma continuation_octet (x : Z) : isOctet (Z.lor 128 (Z.land x 63)).
Proof.
  apply (lor_below 8); [lia|lia|].
  assert (0 <= Z.land x 63 < 64); [|lia].
  change 63 with (Z.ones 6). rewrite Z.land_ones by lia. apply Z.mod_pos_bound. lia.
Qed.

Lemma lead_octet (tag v k bound : Z) :
  0 <= k -> 0 <= tag < 256 -> 0 <= v < bound -> bound <= 2 ^ k * 256 ->
  isOctet (Z.lor tag (Z.shiftr v k)).
Proof.
  intros Hk Ht Hv Hb. apply (lor_below 8); [lia|lia|].
  rewrite Z.shiftr_div_pow2 by done.
  split; [apply Z.div_pos; lia|].
  apply Z.div_lt_upper_bound; lia.
Qed.

Lemma utf8Octets_octets (v : Z) :
  0 <= v < 1114112 -> Forall isOctet (utf8Octets v).
Proof.
  intros Hv. unfold utf8Octets.
  destruct (Z.ltb_spec v 128); [|destruct (Z.ltb_spec v 2048); [|destruct (Z.ltb_spec v 65536)]];
    repeat (apply Forall_cons_2); try apply Forall_nil_2;
    try apply continuation_octet.
  - unfold isOctet; lia.
  - apply (lead_octet _ _ 6 2048); lia.
  - apply (lead_octet _ _ 12 65536); lia.
  - apply (lead_octet _ _ 18 1114112); lia.
Qed.

Lemma hexDigit_plain (n : Z) :
  0 <= n < 16 -> lineTerminator (hexDigit n) = false.
Proof.
  intros Hn. unfold lineTerminator, hexDigit.
  destruct (Z.ltb_spec n 10);
    repeat (apply orb_false_intro); apply Z.eqb_neq; lia.
Qed.

Lemma separators_escapeOctets (os t : list Z) :
  Forall isOctet os ->
  separators (escapeOctets os ++ t) = (length os + separators t)%nat.
Proof.
  induction 1 as [|o os Ho _ IH]; [reflexivity|].
  change (escapeOctets (o :: os) ++ t)
    with (37 :: hexDigit (o / 16) :: hexDigit (o mod 16) :: (escapeOctets os ++ t)).
  cbn [separators]. rewrite Z.eqb_refl.
  rewrite !hexDigit_plain.
  - simpl. by rewrite IH.
  - apply Z.mod_pos_bound; lia.
  - unfold isOctet in Ho. split; [apply Z.div_pos; lia|apply Z.div_lt_upper_bound; lia].
Qed.

Lemma unescaped_ascii (c : Z) :
  unescaped c = true ->
  0 <= c < 128 /\ c <> 37 /\ lineTerminator c = false.
Proof.
  unfold unescaped, isAlnum, lineTerminator. intros H.
  apply orb_true_iff in H as [H|H]; [lia|].
  apply bool_decide_eq_true in H.
  repeat (apply elem_of_cons in H as [->|H]); try by (repeat split; lia).
  by apply elem_of_nil in H.
Qed.

Lemma separators_unescaped (c : Z) (t : list Z) :
  unescaped c = true -> separators (c :: t) = S (separators t).
Proof.
  intros (_ & Hne & Hlt)%unescaped_ascii.
  cbn [separators]. rewrite Hlt.
  apply Z.eqb_neq in Hne. rewrite Hne. simpl.
  by destruct t as [|a [|b t']].
Qed.

Lemma pairValue_range (hi lo : Z) :
  isHighSurrogate hi = true -> isLowSurrogate lo = true ->
  65536 <= pairValue hi lo < 1114112.
Proof. unfold isHighSurrogate, isLowSurrogate, pairValue. lia. Qed.

Lemma encodeURI_counts_octets (s : list Z) :
  Forall isCodeUnit s ->
  match encodeURI s with
  | Some enc => exists bs, utf8 s = Some bs /\ separators enc = length bs
  | None => utf8 s = None
  end.
Proof.
  remember (length s) as n eqn:Hn. revert s Hn.
  induction (lt_wf n) as [n _ IH]. intros s -> Hs.
  destruct s as [|c rest]; [by exists []|].
  apply Forall_cons in Hs as [Hc Hrest]. cbn [encodeURI utf8].
  destruct (unescaped c) eqn:Hu.
  - destruct (unescaped_ascii c Hu) as (Hc7 & _ & _).
    replace (isLowSurrogate c) with false by (unfold isLowSurrogate; lia).
    replace (isHighSurrogate c) with false by (unfold isHighSurrogate; lia).
    specialize (IH (length rest) ltac:(simpl; lia) rest eq_refl Hrest).
    destruct (encodeURI rest) as [enc|]; cbn [option_map].
    + destruct IH as (bs & -> & Hsep). cbn [option_map]. eexists; split; [done|].
      rewrite separators_unescaped by done.
      unfold utf8Octets. replace (c <? 128) with true by lia. simpl. by rewrite Hsep.
    + by rewrite IH.
  - destruct (isLowSurrogate c) eqn:Hlo; [done|].
    destruct (isHighSurrogate c) eqn:Hhi.
    + destruct rest as [|lo rest']; [done|].
      destruct (isLowSurrogate lo) eqn:Hlo2; [|done].
      apply Forall_cons in Hrest as [_ Hrest].
      specialize (IH (length rest') ltac:(simpl; lia) rest' eq_refl Hrest).
      destruct (encodeURI rest') as [enc|]; cbn [option_map].
      * destruct IH as (bs & -> & Hsep). cbn [option_map]. eexists; split; [done|].
        rewrite separators_escapeOctets, length_app, Hsep; [done|].
        apply utf8Octets_octets. pose proof (pairValue_range c lo Hhi Hlo2). lia.
      * by rewrite IH.
    + specialize (IH (length rest) ltac:(simpl; lia) rest eq_refl Hrest).
      destruct (encodeURI rest) as [enc|]; cbn [option_map].
      * destruct IH as (bs & -> & Hsep). cbn [option_map]. eexists; split; [done|].
        rewrite separators_escapeOctets, length_app, Hsep; [done|].
        apply utf8Octets_octets. unfold isCodeUnit in Hc. lia.
      * by rewrite IH.
Qed.

(** The size that wsCall computes is the number of octets of the UTF-8
    encoding of the text. *)
Lemma bodyLength_utf8 (json bs : list Z) :
  Forall isCodeUnit json -> utf8 json = Some bs ->
  bodyLength json = Some (Z.of_nat (length bs)).
Proof.
  intros Hj Hu. pose proof (encodeURI_counts_octets json Hj) as H.
  unfold bodyLength, splitLength.
  destruct (encodeURI json) as [enc|]; [|congruence].
  destruct H as (bs' & Hu' & Hsep). cbn [option_map]. f_equal.
  assert (bs' = bs) as -> by congruence. lia.
Qed.

Lemma bodyLength_URIError (json : list Z) :
  Forall isCodeUnit json -> bodyLength json = None <-> utf8 json = None.
Proof.
  intros Hj. pose proof (encodeURI_counts_octets json Hj) as H.
  unfold bodyLength. destruct (encodeURI json) as [enc|]; simpl.
  - destruct H as (bs & -> & _). split; discriminate.
  - done.
Qed.

End EncodingFacts.

(* ===================================================================== *)
(** ** Facts about objects used as maps *)
(* ===================================================================== *)

Section ObjectFacts.
Import JsObject.
Context {V : Type}.
Implicit Types (o : JsObject.t V) (k : string) (v : V).

Lemma eqb_false (k k' : string) : k <> k' -> String.eqb k k' = false.
Proof. intros H. by destruct (String.eqb_spec k k'). Qed.

(** The names of the own properties after a write: a new name comes
    last, and nothing else changes. *)
Lemma assign_names k v o :
  (assign k v o).*1 = if decide (k ∈ o.*1) then o.*1 else o.*1 ++ [k].
Proof.
  induction o as [|[k' v'] o IH]; cbn [assign fmap list_fmap fst].
  - by rewrite decide_False by apply not_elem_of_nil.
  - destruct (String.eqb_spec k k') as [->|Hne]; cbn [fmap list_fmap fst].
    + rewrite decide_True by left. done.
    + rewrite IH. destruct (decide (k ∈ o.*1)) as [Hin|Hin].
      * rewrite decide_True by (by right). done.
      * rewrite decide_False; [done|]. by intros [?|?]%elem_of_cons.
Qed.

Lemma set_names k v o :
  (set k v o).*1 =
    if decide (k = "__proto__"%string \/ k ∈ o.*1) then o.*1 else o.*1 ++ [k].
Proof.
  unfold set. destruct (String.eqb_spec k "__proto__") as [->|Hne].
  - rewrite decide_True by (by left). done.
  - rewrite assign_names. destruct (decide (k ∈ o.*1)).
    + rewrite decide_True by (by right). done.
    + rewrite decide_False by tauto. done.
Qed.

Lemma elem_of_set_names k k' v o :
  k' ∈ (set k v o).*1 <-> (k' = k /\ k <> "__proto__"%string) \/ k' ∈ o.*1.
Proof.
  rewrite set_names. case_decide as H.
  - split; [by right|]. intros [[-> Hne]|?]; [|done]. by destruct H.
  - rewrite elem_of_app, list_elem_of_singleton. split.
    + intros [?| ->]; [by right|left]. split; [done|]. tauto.
    + intros [[-> _]|?]; auto.
Qed.

Lemma NoDup_set_names k v o : NoDup o.*1 -> NoDup (set k v o).*1.
Proof.
  intros H. rewrite set_names. case_decide as Hk; [done|].
  apply NoDup_app. split; [done|]. split; [|apply NoDup_singleton].
  intros x Hx ->%list_elem_of_singleton. tauto.
Qed.

(** The object never has an own property [__proto__]. *)
Lemma set_without_proto k v o :
  "__proto__"%string ∉ o.*1 -> "__proto__"%string ∉ (set k v o).*1.
Proof. intros H. rewrite elem_of_set_names. intros [[-> ?]|?]; done. Qed.

Lemma own_names k o : is_Some (own k o) <-> k ∈ o.*1.
Proof.
  induction o as [|[k' v'] o IH]; cbn [own fmap list_fmap fst].
  - split; [by intros [? ?]|by intros ?%elem_of_nil].
  - destruct (String.eqb_spec k k') as [->|Hne].
    + split; [left|by eexists].
    + rewrite IH. split; [by right|]. by intros [?|?]%elem_of_cons.
Qed.

Lemma own_assign k k' v o :
  own k' (assign k v o) = if decide (k' = k) then Some v else own k' o.
Proof.
  induction o as [|[k0 v0] o IH]; cbn [assign own].
  - case_decide as H.
    + subst. by rewrite String.eqb_refl.
    + by rewrite eqb_false.
  - destruct (String.eqb_spec k k0) as [->|Hne]; cbn [own].
    + case_decide as H.
      * subst. by rewrite String.eqb_refl.
      * by rewrite eqb_false.
    + rewrite IH. case_decide as H.
      * subst. by rewrite eqb_false.
      * done.
Qed.

(** Reading after writing. *)
Lemma own_set k k' v o :
  own k' (set k v o) =
    if decide (k' = k /\ k <> "__proto__"%string) then Some v else own k' o.
Proof.
  unfold set. destruct (String.eqb_spec k "__proto__") as [->|Hne].
  - by rewrite decide_False by tauto.
  - rewrite own_assign. case_decide; [by rewrite decide_True|by rewrite decide_False by tauto].
Qed.

Lemma insertIndex_perm (i : N) k (l : list (N * string)) :
  insertIndex i k l ≡ₚ (i, k) :: l.
Proof.
  induction l as [|[j k'] l IH]; [done|]. cbn [insertIndex].
  destruct (i <? j)%N; [done|]. rewrite IH. apply perm_swap.
Qed.

Lemma indices_perm (names : list string) :
  (indices names).*2 ≡ₚ filter (fun k => ~ arrayIndex k = None) names.
Proof.
  induction names as [|k names IH]; [done|]. cbn [indices foldr].
  fold (indices names). rewrite filter_cons.
  destruct (arrayIndex k) as [i|] eqn:E.
  - rewrite decide_True by done. rewrite insertIndex_perm. cbn. by rewrite IH.
  - rewrite decide_False by tauto. exact IH.
Qed.

(** [Object.keys] lists each own property once. *)
Lemma keys_perm o : keys o ≡ₚ o.*1.
Proof.
  unfold keys. rewrite indices_perm, Permutation_app_comm.
  apply filter_app_complement.
Qed.

Lemma elem_of_keys k o : k ∈ keys o <-> k ∈ o.*1.
Proof. by rewrite keys_perm. Qed.

Lemma NoDup_keys o : NoDup o.*1 -> NoDup (keys o).
Proof. by rewrite keys_perm. Qed.

Lemma keys_nil o : keys o = [] <-> o = [].
Proof.
  split; [|by intros ->].
  intros H. pose proof (keys_perm o) as P. rewrite H in P.
  apply Permutation_nil_l in P. by destruct o.
Qed.

(** Without array indices among the names, [Object.keys] lists the
    names in the order of their creation. *)
Lemma keys_in_order_of_creation o :
  Forall (fun k => arrayIndex k = None) o.*1 -> keys o = o.*1.
Proof.
  intros H. unfold keys.
  assert (indices o.*1 = []) as ->.
  { induction H as [|k names Hk _ IH]; [done|]. cbn [indices foldr].
    fold (indices names). by rewrite Hk. }
  cbn. induction H as [|k names Hk _ IH]; [done|].
  rewrite filter_cons, decide_True by done. by rewrite IH.
Qed.

End ObjectFacts.

(* ===================================================================== *)
(** ** Facts about the signaling channel *)
(* ===================================================================== *)

Section ChannelFacts.
Import Js Channel.

(** The platform, as in [Channel]: whatever [JSON.stringify], the
    template library, the version and the token are. *)
Variable JSON_stringify : Json -> list Z.
Variable expandTemplate : string -> list (string * string) -> string.
Variable sdkHeaderValue : string.
Variable appToken : JsVal.

Local Abbreviation wsCall :=
  (Channel.wsCall JSON_stringify expandTemplate sdkHeaderValue appToken).
Local Abbreviation retry := (Channel.retry sdkHeaderValue appToken).
Local Abbreviation requestBodyLength := (Channel.requestBodyLength JSON_stringify).
Local Abbreviation step :=
  (Channel.step JSON_stringify expandTemplate sdkHeaderValue appToken).
Local Abbreviation exec :=
  (Channel.exec JSON_stringify expandTemplate sdkHeaderValue appToken).
Local Abbreviation fireTimers :=
  (Channel.fireTimers JSON_stringify expandTemplate sdkHeaderValue appToken).

Local Abbreviation requestOf := (Channel.requestOf expandTemplate).
Local Abbreviation frameOf := (Channel.frameOf sdkHeaderValue appToken).
Local Abbreviation sent := (Channel.sent expandTemplate sdkHeaderValue appToken).

Lemma insert_last {A} (l : list A) (x y : A) :
  <[length l := y]> (l ++ [x]) = l ++ [y].
Proof.
  rewrite insert_app_r_alt by lia.
  by replace (length l - length l)%nat with 0%nat by lia.
Qed.

Lemma lookup_last {A} (l : list A) (x : A) : (l ++ [x]) !! length l = Some x.
Proof.
  rewrite lookup_app_r by lia.
  by replace (length l - length l)%nat with 0%nat by lia.
Qed.

(** A promise that is pending is settled by [settle], whatever handlers
    wait for it. *)
Lemma settle_pending (d : nat) (o : Settled) (c : Channel) :
  isPending d c = true ->
  promises (settle d o c) = <[d := o]> (promises c).
Proof. intros H. unfold settle. by rewrite H. Qed.

Lemma settle_fields (d : nat) (o : Settled) (c : Channel) :
  connected (settle d o c) = connected c /\
  clock (settle d o c) = clock c /\
  pendingRequests (settle d o c) = pendingRequests c /\
  exchanges (settle d o c) = exchanges c /\
  emitted (settle d o c) = emitted c /\
  timers (settle d o c) = timers c /\
  joinGroups (settle d o c) = joinGroups c /\
  joinDeferred (settle d o c) = joinDeferred c /\
  presenceEndpoints (settle d o c) = presenceEndpoints c /\
  presenceDeferred (settle d o c) = presenceDeferred c /\
  presenceRegistered (settle d o c) = presenceRegistered c.
Proof. unfold settle. by destruct (isPending d c). Qed.

Lemma isPending_defer (c : Channel) :
  isPending (length (promises c)) (defer c).1 = true.
Proof. unfold isPending, defer. simpl. by rewrite lookup_last. Qed.

Lemma wsCall_sent (p : Params) (c : Channel) (n : Z) :
  connected c = true -> ppath p <> EmptyString ->
  requestBodyLength p = Some n -> n <= bodySizeLimit ->
  wsCall p c = (sent p c, Normal (length (promises c))).
Proof.
  intros Hconn Hpath Hlen Hn. unfold Channel.wsCall, defer. rewrite Hlen.
  cbn [connected setPromises]. rewrite Hconn. cbn [negb].
  destruct (String.eqb_spec (ppath p) EmptyString) as [|_]; [done|].
  destruct (Z.ltb_spec bodySizeLimit n) as [|_]; [lia|].
  unfold PendingRequests.add at 1. cbn [pendingRequests exchanges setPromises clock].
  unfold Channel.sendWebsocketRequest, Channel.sent.
  cbn [exchanges setExchanges setPendingRequests].
  rewrite lookup_last. cbn [request withRequest].
  rewrite insert_last. reflexivity.
Qed.

Lemma handleResponse_unparsable (x : nat) (ex : Exchange) (r : Response)
    (message : string) (s : option Z) (c : Channel) :
  exchanges c !! x = Some ex -> parseBody (body r) = inl message ->
  handleResponse x r s c = (reject (deferred ex) message c, Normal ()).
Proof. intros Hx Hp. unfold handleResponse. by rewrite Hx, Hp. Qed.

Lemma handleResponse_retry (x : nat) (ex : Exchange) (r : Response) (b : Json)
    (s : option Z) (c : Channel) :
  exchanges c !! x = Some ex -> parseBody (body r) = inr b ->
  statusCode r = 429 -> tries (request ex) < 3 ->
  isPending (deferred ex) c = true ->
  handleResponse x r s c = (setTimeout (Retry x) 1000 c, Normal ()).
Proof.
  intros Hx Hp Hs Ht Hpend. unfold handleResponse. rewrite Hx, Hp, Hs, Hpend.
  cbn [Z.eqb Pos.eqb]. by destruct (Z.ltb_spec (tries (request ex)) 3); [|lia].
Qed.

Lemma handleResponse_exhausted (x : nat) (ex : Exchange) (r : Response) (b : Json)
    (s : option Z) (c : Channel) :
  exchanges c !! x = Some ex -> parseBody (body r) = inr b ->
  statusCode r = 429 -> 3 <= tries (request ex) ->
  handleResponse x r s c =
    (failWebsocketRequest (finishRequest x ex c).2 b (responseHeaders r)
       rateLimitMessage (deferred ex) (finishRequest x ex c).1, Normal ()).
Proof.
  intros Hx Hp Hs Ht. unfold handleResponse. rewrite Hx, Hp, Hs.
  cbn [Z.eqb Pos.eqb]. by destruct (Z.ltb_spec (tries (request ex)) 3); [lia|].
Qed.

Lemma failWebsocketRequest_error (r : Request) (b : Json) (h : JsVal)
    (e : string) (d : nat) (c : Channel) :
  truthy b = true -> truthyVal (bodyError b) = true ->
  failWebsocketRequest r b h e d c =
    reject d (buildResponseError h (e +:+ " (" +:+ method r +:+ " " +:+ path r +:+ ")")) c.
Proof. intros Hb He. unfold failWebsocketRequest. by rewrite Hb, He. Qed.

(** Without an [error] field in the body, [failWebsocketRequest] resolves
    the promise. *)
Lemma failWebsocketRequest_no_error (r : Request) (b : Json) (h : JsVal)
    (e : string) (d : nat) (c : Channel) :
  truthyVal (bodyError b) = false ->
  failWebsocketRequest r b h e d c = resolve d (Some b) c.
Proof. intros He. unfold failWebsocketRequest. by rewrite He, andb_false_r. Qed.

Lemma retry_sends (x : nat) (ex : Exchange) (c : Channel) :
  exchanges c !! x = Some ex ->
  retry x c =
    let r := withTries (tries (request ex) + 1) (request ex) in
    setEmitted (emitted c ++ [frameOf r x])
      (setExchanges
         (<[x := {| request := r; deferred := deferred ex; start := clock c |}]>
            (exchanges c)) c).
Proof.
  intros Hx. pose proof (lookup_lt_Some _ _ _ Hx) as Hlt.
  unfold Channel.retry, Channel.sendWebsocketRequest. rewrite Hx.
  cbn [exchanges setExchanges emitted]. rewrite list_lookup_insert_eq by done.
  cbn [request withStart withRequest deferred start].
  by rewrite list_insert_insert_eq.
Qed.

Lemma isPending_setTimeout (d : nat) (f : TimerTask) (ms : Z) (c : Channel) :
  isPending d (setTimeout f ms c) = isPending d c.
Proof. reflexivity. Qed.

(** The first attempt: what [wsCall] leaves behind when it has sent a
    request on a channel without timers. *)
Lemma sent_awaiting (p : Params) (c : Channel) :
  timers c = [] ->
  let key := S (PendingRequests.counter (pendingRequests c)) in
  awaiting (sent p c) (length (exchanges c)) (length (promises c))
    (requestOf p key) 1 (clock c)
    (emitted c ++ [frameOf (withTries 1 (requestOf p key)) (length (exchanges c))]).
Proof.
  intros Ht key. unfold awaiting, Channel.sent. cbn.
  repeat split; try done.
  - eexists. apply lookup_last.
  - unfold isPending. cbn. by rewrite lookup_last.
Qed.

(** One round: a 429 with a budget left sets a timer of one second, and
    when that fires the request is emitted again and counted. *)
Lemma retry_round (c : Channel) (x d : nat) (r : Request) (k t : Z)
    (fs : list Frame) (resp : Response) (b : Json) (s : option Z) :
  awaiting c x d r k t fs -> k < 3 ->
  statusCode resp = 429 -> parseBody (body resp) = inr b ->
  timers (step c (Respond x resp s)) = [{| due := t + 1000; task := Retry x |}] /\
  emitted (step c (Respond x resp s)) = fs /\
  awaiting (exec c [Respond x resp s; FireTimer]) x d r (k + 1) (t + 1000)
    (fs ++ [frameOf (withTries (k + 1) r) x]).
Proof.
  intros ([st Hx] & Hpend & Hem & Htm & Hclk) Hk Hs Hp.
  assert (step c (Respond x resp s) = setTimeout (Retry x) 1000 c) as E1.
  { unfold Channel.step. by erewrite handleResponse_retry. }
  rewrite E1. unfold setTimeout. cbn [timers setTimers emitted].
  rewrite Htm, Hclk. cbn [insertTimer].
  split; [done|]. split; [done|].
  unfold Channel.exec. cbn [foldl]. rewrite E1.
  unfold Channel.step at 1, setTimeout. cbn [timers setTimers].
  rewrite Htm, Hclk. cbn [insertTimer task due Channel.runTask clock setClock].
  erewrite retry_sends by (cbn; exact Hx).
  cbn. rewrite Z.max_r by lia.
  pose proof (lookup_lt_Some _ _ _ Hx) as Hlt.
  unfold awaiting. cbn. rewrite list_lookup_insert_eq by done.
  repeat split; try done.
  - by eexists.
  - by rewrite Hem.
Qed.

(** The last round: a 429 for a request already sent three times sets
    no timer and fails the request, which rejects the promise when the
    body carries an [error] and resolves it with the body otherwise. *)
Lemma exhausted_fails (c : Channel) (x d : nat) (r : Request) (t : Z)
    (fs : list Frame) (resp : Response) (b : Json) (s : option Z) :
  awaiting c x d r 3 t fs ->
  statusCode resp = 429 -> parseBody (body resp) = inr b ->
  let c' := step c (Respond x resp s) in
  promises c' !! d =
    Some (if truthy b && truthyVal (bodyError b)
          then Rejected (buildResponseError (responseHeaders resp)
                           (rateLimitMessage +:+ " (" +:+ method r +:+ " " +:+
                            path r +:+ ")"))
          else Resolved (Some b)) /\
  emitted c' = fs /\ timers c' = [] /\ triesOf c' x = Some 3.
Proof.
  intros ([st Hx] & Hpend & Hem & Htm & Hclk) Hs Hp c'.
  pose proof (lookup_lt_Some _ _ _ Hx) as Hlt.
  assert (d < length (promises c))%nat as Hd.
  { unfold isPending in Hpend. destruct (promises c !! d) eqn:E; [|done].
    by apply lookup_lt_Some in E. }
  subst c'. unfold Channel.step.
  erewrite handleResponse_exhausted by (try done; cbn; lia).
  set (ex := {| request := withTries 3 r; deferred := d; start := st |}).
  assert (isPending d (finishRequest x ex c).1 = true) as Hpend' by (cbn; done).
  assert (exists o,
    failWebsocketRequest (finishRequest x ex c).2 b (responseHeaders resp)
      rateLimitMessage (deferred ex) (finishRequest x ex c).1
    = settle d o (finishRequest x ex c).1 /\
    o = (if truthy b && truthyVal (bodyError b)
         then Rejected (buildResponseError (responseHeaders resp)
                          (rateLimitMessage +:+ " (" +:+ method r +:+ " " +:+
                           path r +:+ ")"))
         else Resolved (Some b))) as (o & -> & Ho).
  { unfold failWebsocketRequest. destruct (truthy b && truthyVal (bodyError b));
      eexists; (split; [reflexivity|done]). }
  pose proof (settle_fields d o (finishRequest x ex c).1)
    as (_ & _ & _ & Hex & Hemit & Htim & _).
  cbn [fst]. rewrite settle_pending by done.
  unfold triesOf. rewrite Hex, Hemit, Htim. cbn.
  rewrite !list_lookup_insert_eq by done. by rewrite Ho.
Qed.


(** Any response but a 429 whose body parses to something other than
    [null] and carries no [error]: the promise is resolved with the body,
    whatever the status of the response and whatever [this.status] is. *)
Lemma no_error_field_resolves (x : nat) (ex : Exchange) (r : Response) (b : Json)
    (s : option Z) (c : Channel) :
  exchanges c !! x = Some ex -> parseBody (body r) = inr b ->
  statusCode r <> 429 -> b <> JNull -> truthyVal (bodyError b) = false ->
  handleResponse x r s c =
    (resolve (deferred ex) (Some b) (finishRequest x ex c).1, Normal ()).
Proof.
  intros Hx Hp Hs Hb He. unfold handleResponse. rewrite Hx, Hp.
  destruct (Z.eqb_spec (statusCode r) 429) as [|_]; [done|].
  destruct (finishRequest x ex c) as [c' r'] eqn:Hfin. cbn [fst].
  repeat case_match; try by rewrite failWebsocketRequest_no_error.
  - by destruct b.
  - done.
Qed.

(** A response with an [error] in its body and a [this.status] that is
    not among the expected ones rejects the promise with that error. *)
Lemma error_field_rejects (x : nat) (ex : Exchange) (r : Response) (b e : Json)
    (s : option Z) (c : Channel) :
  exchanges c !! x = Some ex -> parseBody (body r) = inr b ->
  statusCode r <> 429 -> statusCode r <> 401 ->
  getProp b "error" = Some (Some e) -> truthy e = true ->
  notAnExpectedStatus s = true ->
  handleResponse x r s c =
    (reject (deferred ex)
       (buildResponseError (responseHeaders r)
          (toStr e +:+ " (" +:+ method (request ex) +:+ " " +:+ path (request ex) +:+ ")"))
       (finishRequest x ex c).1, Normal ()).
Proof.
  intros Hx Hp Hs Hs' Hg He Hn. unfold handleResponse. rewrite Hx, Hp.
  destruct (Z.eqb_spec (statusCode r) 429) as [|_]; [done|].
  destruct (finishRequest x ex c) as [c' r'] eqn:Hfin. cbn [fst].
  assert (method r' = method (request ex) /\ path r' = path (request ex)) as [Hm Hq].
  { unfold finishRequest in Hfin. by simplify_eq. }
  unfold isBillingSuspensionUnauthorizedResponse, isSuspensionUnauthorizedResponse.
  destruct (Z.eqb_spec (statusCode r) 401) as [|_]; [done|]. cbn [andb].
  rewrite Hn, Hg, He.
  assert (truthy b = true) as Hb by (by destruct b).
  rewrite failWebsocketRequest_error; [by rewrite Hm, Hq|done|].
  unfold bodyError. by rewrite Hg; cbn.
Qed.

Lemma wsCall_over_limit (p : Params) (c : Channel) (n : Z) :
  connected c = true -> ppath p <> EmptyString ->
  requestBodyLength p = Some n -> bodySizeLimit < n ->
  wsCall p c =
    (reject (length (promises c)) overLimitMessage (defer c).1,
     Normal (length (promises c))).
Proof.
  intros Hconn Hpath Hlen Hn. unfold Channel.wsCall, defer. rewrite Hlen.
  cbn [connected setPromises]. rewrite Hconn. cbn [negb].
  destruct (String.eqb_spec (ppath p) EmptyString) as [|_]; [done|].
  by destruct (Z.ltb_spec bodySizeLimit n) as [_|]; [|lia].
Qed.

Lemma wsCall_not_connected (p : Params) (c : Channel) (n : Z) :
  connected c = false -> requestBodyLength p = Some n ->
  wsCall p c =
    (reject (length (promises c)) notConnectedMessage (defer c).1,
     Normal (length (promises c))).
Proof.
  intros Hconn Hlen. unfold Channel.wsCall, defer. rewrite Hlen.
  cbn [connected setPromises]. by rewrite Hconn.
Qed.

Lemma reject_fresh (c : Channel) (e : string) :
  let d := length (promises c) in
  promises (reject d e (defer c).1) !! d = Some (Rejected e) /\
  emitted (reject d e (defer c).1) = emitted c.
Proof.
  intros d. subst d. unfold reject.
  destruct (settle_fields (length (promises c)) (Rejected e) (defer c).1)
    as (_ & _ & _ & _ & -> & _).
  rewrite settle_pending by apply isPending_defer.
  unfold defer. cbn. by rewrite insert_last, lookup_last.
Qed.

(** An over-size request is rejected without a frame in every case, with
    the error of the first check that it fails. *)
Lemma oversize_request_rejected_locally (p : Params) (c : Channel) (n : Z) :
  requestBodyLength p = Some n -> bodySizeLimit < n ->
  exists e,
    wsCall p c =
      (reject (length (promises c)) e (defer c).1, Normal (length (promises c))) /\
    promises (wsCall p c).1 !! length (promises c) = Some (Rejected e) /\
    emitted (wsCall p c).1 = emitted c /\
    (connected c = true -> ppath p <> EmptyString -> e = overLimitMessage).
Proof.
  intros Hlen Hn.
  assert (exists e,
    wsCall p c =
      (reject (length (promises c)) e (defer c).1, Normal (length (promises c))) /\
    (connected c = true -> ppath p <> EmptyString -> e = overLimitMessage))
    as (e & Hws & He).
  { unfold Channel.wsCall, defer. rewrite Hlen. cbn [connected setPromises].
    destruct (connected c); cbn [negb]; [|by eexists].
    destruct (String.eqb_spec (ppath p) EmptyString); [by eexists|].
    destruct (Z.ltb_spec bodySizeLimit n); [by eexists|lia]. }
  exists e. rewrite Hws. cbn [fst].
  destruct (reject_fresh c e) as [? ?]. done.
Qed.

(** C8, as amended.  On a connected channel, a request with a path and
    with a body whose text is well-formed: when the UTF-8 encoding of the
    text is longer than 20,000 octets, [wsCall] returns a promise that is
    rejected with the over-limit error and emits nothing; when it is
    20,000 octets or shorter, the promise stays pending and the frame is
    emitted. *)
Theorem body_size_limit (c : Channel) (p : Params) (v : Json) (bs : list Z) :
  connected c = true -> ppath p <> EmptyString ->
  pparameters p = Some v -> truthy v = true ->
  Forall Encoding.isCodeUnit (JSON_stringify v) ->
  Encoding.utf8 (JSON_stringify v) = Some bs ->
  let d := length (promises c) in
  (wsCall p c).2 = Normal d /\
  (bodySizeLimit < Z.of_nat (length bs) ->
   promises (wsCall p c).1 !! d = Some (Rejected overLimitMessage) /\
   emitted (wsCall p c).1 = emitted c) /\
  (Z.of_nat (length bs) <= bodySizeLimit ->
   promises (wsCall p c).1 !! d = Some Pending /\
   emitted (wsCall p c).1 =
     emitted c ++
       [frameOf (requestOf p (S (PendingRequests.counter (pendingRequests c))))
          (length (exchanges c))]).
Proof.
  intros Hconn Hpath Hv Ht Hcu Hu d. subst d.
  assert (requestBodyLength p = Some (Z.of_nat (length bs))) as Hlen.
  { unfold Channel.requestBodyLength. rewrite Hv, Ht. by apply bodyLength_utf8. }
  destruct (Z.lt_ge_cases bodySizeLimit (Z.of_nat (length bs))) as [Hbig|Hok].
  - rewrite (wsCall_over_limit p c _ Hconn Hpath Hlen Hbig).
    split; [done|]. split; [intros _; apply reject_fresh | lia].
  - rewrite (wsCall_sent p c _ Hconn Hpath Hlen Hok).
    split; [done|]. split; [lia|]. intros _. unfold Channel.sent. cbn.
    by rewrite lookup_last.
Qed.

Lemma handleResponse_removes (x : nat) (ex : Exchange) (r : Response) (b : Json)
    (s : option Z) (c : Channel) :
  exchanges c !! x = Some ex -> parseBody (body r) = inr b ->
  statusCode r <> 429 ->
  pendingRequests (handleResponse x r s c).1 =
    PendingRequests.remove (pendingRequests c) (id (request ex)).
Proof.
  intros Hx Hp Hs. unfold handleResponse. rewrite Hx, Hp.
  destruct (Z.eqb_spec (statusCode r) 429) as [|_]; [done|].
  unfold finishRequest, failWebsocketRequest, resolve, reject.
  repeat case_match; cbn [fst];
    try (match goal with
         | |- pendingRequests (settle ?d ?o ?c) = _ =>
             destruct (settle_fields d o c) as (_ & _ & -> & _)
         end); done.
Qed.

Lemma add_remove_keeps {A : Type} (q : PendingRequests.t A) (obj : A) :
  let '(q1, key) := PendingRequests.add q obj in
  key = S (PendingRequests.counter q) /\
  PendingRequests.contents q1 !! PendingRequests.counter q = Some (Some obj) /\
  PendingRequests.contents (PendingRequests.remove q1 key)
    !! PendingRequests.counter q = Some (Some obj) /\
  obj ∈ (PendingRequests.reset (Some (fun a acc => acc ++ [a]))
           (PendingRequests.remove q1 key) []).2.
Proof.
  unfold PendingRequests.add, PendingRequests.remove, PendingRequests.reset.
  cbn [PendingRequests.contents PendingRequests.counter snd].
  assert (PendingRequests.arrayDelete (S (PendingRequests.counter q))
            (PendingRequests.arraySet (PendingRequests.counter q) obj
               (PendingRequests.contents q))
            !! PendingRequests.counter q = Some (Some obj)) as Hkept.
  { rewrite arrayDelete_lookup_ne by lia. apply arraySet_lookup. }
  repeat split; [apply arraySet_lookup | exact Hkept |].
  rewrite forEach_visits.
  apply present_lookup in Hkept. revert Hkept.
  generalize (omap (fun slot : option A => slot)
    (PendingRequests.arrayDelete (S (PendingRequests.counter q))
       (PendingRequests.arraySet (PendingRequests.counter q) obj
          (PendingRequests.contents q)))).
  intros l Hl. assert (forall acc, foldl (fun acc x => acc ++ [x]) acc l = acc ++ l) as ->.
  { clear. induction l as [|a l IH]; intros acc; simpl; [by rewrite app_nil_r|].
    rewrite IH. by rewrite <- app_assoc. }
  done.
Qed.

(** C10.  [add] stores the object at the index that the counter had and
    returns the counter after its increment; [remove] with that key leaves
    the object where it is, and [reset] still calls its function on it.
    So for a request that [wsCall] has sent, whose recorded [id] is that
    key, the deferred is still among the pending requests after the
    response has been handled. *)
Theorem pending_request_not_removed {A : Type} (q : PendingRequests.t A) (obj : A)
    (c : Channel) (p : Params) (n : Z) (r : Response) (b : Json) (s : option Z) :
  (let '(q1, key) := PendingRequests.add q obj in
   key = S (PendingRequests.counter q) /\
   PendingRequests.contents q1 !! PendingRequests.counter q = Some (Some obj) /\
   PendingRequests.contents (PendingRequests.remove q1 key)
     !! PendingRequests.counter q = Some (Some obj) /\
   obj ∈ (PendingRequests.reset (Some (fun a acc => acc ++ [a]))
            (PendingRequests.remove q1 key) []).2) /\
  (connected c = true -> ppath p <> EmptyString ->
   requestBodyLength p = Some n -> n <= bodySizeLimit ->
   parseBody (body r) = inr b -> statusCode r <> 429 ->
   let x := length (exchanges c) in
   let d := length (promises c) in
   let at_ := PendingRequests.counter (pendingRequests c) in
   let c1 := (wsCall p c).1 in
   let c2 := step c1 (Respond x r s) in
   ((fun ex => id (request ex)) <$> exchanges c1 !! x) = Some (S at_) /\
   PendingRequests.contents (pendingRequests c1) !! at_ = Some (Some d) /\
   PendingRequests.contents (pendingRequests c2) !! at_ = Some (Some d)).
Proof.
  split; [apply add_remove_keeps|].
  intros Hconn Hpath Hlen Hn Hp Hs x d at_ c1 c2.
  assert (c1 = sent p c) as -> by (subst c1; by erewrite wsCall_sent).
  pose proof (add_remove_keeps (pendingRequests c) d) as (_ & H1 & H2 & _).
  assert (exchanges (sent p c) !! x = Some
            {| request := withTries 1 (requestOf p (S at_)); deferred := d;
               start := clock c |}) as Hx.
  { unfold Channel.sent. cbn. apply lookup_last. }
  rewrite Hx. split; [done|]. split; [exact H1|].
  subst c2. unfold Channel.step.
  rewrite (handleResponse_removes _ _ _ _ _ _ Hx Hp Hs). exact H2.
Qed.

(** *** joinGroup *)

Lemma addStrings_app (l1 l2 : list Json) (acc : JsObject.t bool) :
  addStrings (l1 ++ l2) acc = addStrings l2 (addStrings l1 acc).
Proof. unfold addStrings. apply foldl_app. Qed.

(** The names accumulated are the strings of the lists, but for
    [__proto__]. *)
Lemma elem_of_addStrings (ids : list Json) (acc : JsObject.t bool) (g : string) :
  g ∈ (addStrings ids acc).*1 <->
  (JStr g ∈ ids /\ g <> "__proto__"%string) \/ g ∈ acc.*1.
Proof.
  revert acc. induction ids as [|i ids IH]; intros acc.
  - cbn. split; [by right|]. intros [[H _]|H]; [by apply elem_of_nil in H|done].
  - change (addStrings (i :: ids) acc) with
      (addStrings ids (match i with JStr s => JsObject.set s true acc | _ => acc end)).
    rewrite IH, elem_of_cons.
    destruct i;
      try (split; [intros [[? ?]|?]; auto | intros [[[?|?] ?]|?]; auto; done]).
    rewrite elem_of_set_names.
    split.
    + intros [[? ?]|[[-> ?]|?]]; auto.
    + intros [[[[= ->]|?] ?]|?]; auto.
Qed.

Lemma NoDup_addStrings (ids : list Json) (acc : JsObject.t bool) :
  NoDup acc.*1 -> NoDup (addStrings ids acc).*1.
Proof.
  revert acc. induction ids as [|i ids IH]; intros acc H; [done|].
  change (addStrings (i :: ids) acc) with
    (addStrings ids (match i with JStr s => JsObject.set s true acc | _ => acc end)).
  apply IH. destruct i; try done. by apply NoDup_set_names.
Qed.

(** Lists that name nothing but [__proto__] accumulate nothing. *)
Lemma addStrings_nothing (ids : list Json) (acc : JsObject.t bool) :
  Forall (fun g => g = "__proto__"%string) (stringIds ids) ->
  addStrings ids acc = acc.
Proof.
  revert acc. induction ids as [|i ids IH]; intros acc H; [done|].
  change (addStrings (i :: ids) acc) with
    (addStrings ids (match i with JStr s => JsObject.set s true acc | _ => acc end)).
  destruct i; try (by apply IH).
  cbn in H. apply Forall_cons in H as [-> H]. rewrite IH by done.
  reflexivity.
Qed.

Lemma stringIds_app (l1 l2 : list Json) :
  stringIds (l1 ++ l2) = stringIds l1 ++ stringIds l2.
Proof. apply omap_app. Qed.

Lemma flushes_nothing (lists : list (list Json)) :
  Forall (fun g => g = "__proto__"%string) (stringIds (concat lists)) ->
  flushes JsObject.empty lists = length lists.
Proof.
  induction lists as [|l lists IH]; [done|]. cbn [concat flushes length].
  rewrite stringIds_app, Forall_app. intros [H1 H2].
  rewrite addStrings_nothing by done. by rewrite IH.
Qed.

Lemma insertTimer_replicate (t : Timer) (k : nat) :
  insertTimer t (replicate k t) = replicate (S k) t.
Proof.
  induction k as [|k IH]; [done|].
  cbn [replicate insertTimer]. rewrite Z.ltb_irrefl. by rewrite IH.
Qed.

(** [N] synchronous calls on a connected channel: the ids accumulate, a
    timer is set by each call that found nothing accumulated, and every
    call returns the promise of the one deferred. *)
Lemma joinGroupAll_state (lists : list (list Json)) (c : Channel) (j : nat) :
  connected c = true -> timers c = replicate j (joinTimer c) ->
  joinGroupAll lists c =
    (setTimers (replicate (j + flushes (joinGroups c) lists) (joinTimer c))
       (setJoinGroups (addStrings (concat lists) (joinGroups c)) c),
     replicate (length lists) (joinDeferred c)).
Proof.
  revert c j. induction lists as [|l lists IH]; intros c j Hconn Htm.
  - cbn. rewrite Nat.add_0_r, <- Htm. by destruct c.
  - cbn [Channel.joinGroupAll]. unfold joinGroup at 1. rewrite Hconn. cbn [negb].
    cbn [flushes concat length replicate]. rewrite addStrings_app.
    destruct (bool_decide (JsObject.keys (joinGroups c) = [])) eqn:Hempty; cbn [negb].
    + unfold setTimeout. cbn [clock timers setJoinGroups].
      rewrite Htm. fold (joinTimer c). rewrite insertTimer_replicate.
      rewrite (IH _ (S j)); [|done|done].
      cbn. by replace (j + S (flushes (addStrings l (joinGroups c)) lists))%nat
        with (S (j + flushes (addStrings l (joinGroups c)) lists)) by lia.
    + rewrite (IH _ j); [|done|done]. by cbn.
Qed.

Lemma settle_other (d d' : nat) (o : Settled) (c : Channel) :
  d <> d' -> promises (settle d o c) !! d' = promises c !! d'.
Proof.
  intros Hne. unfold settle. destruct (isPending d c); [|done].
  cbn. by rewrite list_lookup_insert_ne.
Qed.

(** Settling a promise that no handler waits for queues nothing. *)
Lemma settle_unobserved (d pw : nat) (r : Reaction) (o : Settled) (c : Channel) :
  reactions c = [(pw, r)] -> d <> pw ->
  reactions (settle d o c) = [(pw, r)] /\ jobs (settle d o c) = jobs c.
Proof.
  intros Hr Hne. unfold settle. destruct (isPending d c); [|done].
  cbn. rewrite Hr. cbn.
  rewrite !(decide_False (P := pw = d)) by done.
  rewrite (decide_True (P := pw <> d)) by done.
  cbn. by rewrite app_nil_r.
Qed.

(** The timer callback with groups accumulated sends them. *)
Lemma flush_sends (c : Channel) (g : string) (gs : list string) (n : Z)
    (ts : list Timer) (t : Timer) :
  connected c = true -> JsObject.keys (joinGroups c) = g :: gs ->
  requestBodyLength (joinParams (g :: gs)) = Some n -> n <= bodySizeLimit ->
  timers c = t :: ts -> due t = clock c -> task t = RequestJoinsForGroupQueue ->
  let c' := step c FireTimer in
  let key := S (PendingRequests.counter (pendingRequests c)) in
  JsObject.keys (joinGroups c') = [] /\
  timers c' = ts /\
  clock c' = clock c /\
  emitted c' = emitted c ++
    [frameOf (requestOf (joinParams (g :: gs)) key) (length (exchanges c))] /\
  exchanges c' = exchanges c ++
    [{| request := withTries 1 (requestOf (joinParams (g :: gs)) key);
        deferred := S (length (promises c)); start := clock c |}] /\
  reactions c' = reactions c ++ [(S (length (promises c)), JoinGroupDone (joinDeferred c))] /\
  jobs c' = jobs c /\
  promises c' = promises c ++ [Pending; Pending] /\
  joinDeferred c' = length (promises c).
Proof.
  intros Hconn Hel Hlen Hn Htm Hdue Htask c' key. subst c' key.
  unfold Channel.step. rewrite Htm, Htask. cbn [Channel.runTask].
  unfold Channel.requestJoinsForGroupQueue.
  cbn [joinGroups setClock setTimers setJoinGroups joinDeferred defer promises
       setPromises setJoinDeferred].
  rewrite Hel.
  erewrite wsCall_sent; [|by cbn|done|exact Hlen|exact Hn].
  cbn [fst]. unfold done, Channel.sent.
  cbn [promises setEmitted setExchanges setPendingRequests setPromises setJoinDeferred
       length app].
  rewrite length_app. cbn [length].
  replace (length (promises c) + 1)%nat with (S (length (promises c))) by lia.
  assert (((promises c ++ [Pending]) ++ [Pending]) !! S (length (promises c))
          = Some Pending) as ->.
  { rewrite lookup_app_r; rewrite length_app; cbn; [|lia].
    by replace (S (length (promises c)) - (length (promises c) + 1))%nat
      with 0%nat by lia. }
  cbn. rewrite Hdue, Z.max_id, <- app_assoc.
  repeat split; done.
Qed.

(** The timer callback with nothing accumulated resolves the deferred
    of the batch it closes, and sends nothing. *)
Lemma flush_empty (c : Channel) (pw d0 : nat) (fs : list Frame)
    (xs : list Exchange) (m : nat) (t : Z) :
  batchSent c pw d0 fs xs (S m) t -> batchSent (step c FireTimer) pw d0 fs xs m t.
Proof.
  intros (Hel & Htm & Hclk & Hem & Hex & Hre & Hjobs & Hpw & Hd0 & Hn1 & Hn2).
  pose proof (lookup_lt_Some _ _ _ Hpw) as Lpw.
  pose proof (lookup_lt_Some _ _ _ Hd0) as Ld0.
  unfold Channel.step. rewrite Htm. cbn [replicate task Channel.runTask].
  unfold Channel.requestJoinsForGroupQueue.
  cbn [joinGroups setClock setTimers setJoinGroups joinDeferred defer promises
       setPromises setJoinDeferred].
  rewrite Hel. cbn [fst]. unfold resolve.
  set (c0 := setJoinDeferred _ _).
  destruct (settle_fields (joinDeferred c) (Resolved None) c0)
    as (_ & Eclk & _ & Eex & Eem & Etm & Ejg & Ejd & _).
  destruct (settle_unobserved (joinDeferred c) pw (JoinGroupDone d0) (Resolved None) c0)
    as [Ere Ejobs]; [done|done|].
  unfold batchSent.
  rewrite Eclk, Eem, Eex, Etm, Ejg, Ejd, Ere, Ejobs, !settle_other by done.
  subst c0. cbn. rewrite Hclk, Z.max_id.
  rewrite !lookup_app_l by done.
  repeat split; try done; lia.
Qed.

Lemma flush_all (c : Channel) (pw d0 : nat) (fs : list Frame)
    (xs : list Exchange) (m : nat) (t : Z) :
  batchSent c pw d0 fs xs m t ->
  batchSent (exec c (replicate m FireTimer)) pw d0 fs xs 0 t.
Proof.
  revert c. induction m as [|m IH]; intros c H; [done|].
  cbn [replicate]. unfold Channel.exec. cbn [foldl].
  apply IH. by apply flush_empty.
Qed.

(** When the promise of the RPC is settled, the batch's handler passes
    the outcome on to the promise of the batch. *)
Lemma batch_settled (c : Channel) (pw d0 : nat) (fs : list Frame)
    (xs : list Exchange) (t : Z) (o : Settled) :
  batchSent c pw d0 fs xs 0 t -> pw <> d0 -> o <> Pending ->
  promises (step (settle pw o c) RunJob) !! d0 = Some (passedOn o).
Proof.
  intros (_ & _ & _ & _ & _ & Hre & Hjobs & Hpw & Hd0 & _) Hne Ho.
  pose proof (lookup_lt_Some _ _ _ Hd0) as Ld0.
  assert (isPending pw c = true) as Ppw by (unfold isPending; by rewrite Hpw).
  assert (jobs (settle pw o c) = [(JoinGroupDone d0, o)]) as Hj.
  { unfold settle. rewrite Ppw. cbn. rewrite Hre, Hjobs. cbn.
    by rewrite (decide_True (P := pw = pw)). }
  unfold Channel.step. rewrite Hj.
  set (c1 := setJobs [] (settle pw o c)).
  assert (promises c1 = <[pw := o]> (promises c)) as Hp1.
  { subst c1. cbn. by apply settle_pending. }
  assert (isPending d0 c1 = true) as Pd0.
  { unfold isPending. rewrite Hp1, list_lookup_insert_ne by done. by rewrite Hd0. }
  destruct o as [|v|e]; [done| |]; cbn [react passedOn]; unfold resolve, reject;
    rewrite settle_pending by done; apply list_lookup_insert_eq;
    by rewrite Hp1, length_insert.
Qed.

(** The first timer of calls that named no group: the promise of the
    batch is resolved and nothing is sent. *)
Lemma flush_nothing (c : Channel) (m : nat) :
  JsObject.keys (joinGroups c) = [] ->
  timers c = replicate (S m) (joinTimer c) ->
  reactions c = [] -> isPending (joinDeferred c) c = true ->
  batchEmpty (step c FireTimer) (joinDeferred c) (emitted c) (exchanges c) m
    (clock c + 0).
Proof.
  intros Hel Htm Hre Hpend.
  assert (joinDeferred c < length (promises c))%nat as Ld0.
  { unfold isPending in Hpend.
    destruct (promises c !! joinDeferred c) eqn:E; [|done].
    by apply lookup_lt_Some in E. }
  unfold Channel.step. rewrite Htm. cbn [replicate task joinTimer Channel.runTask].
  unfold Channel.requestJoinsForGroupQueue.
  cbn [joinGroups setClock setTimers setJoinGroups joinDeferred defer promises
       setPromises setJoinDeferred].
  rewrite Hel. cbn [fst]. unfold resolve.
  set (c0 := setJoinDeferred _ _).
  assert (isPending (joinDeferred c) c0 = true) as Hpend0.
  { subst c0. unfold isPending in *. cbn. by rewrite lookup_app_l. }
  destruct (settle_fields (joinDeferred c) (Resolved None) c0)
    as (_ & Eclk & _ & Eex & Eem & Etm & Ejg & Ejd & _).
  unfold batchEmpty.
  rewrite Eclk, Eem, Eex, Etm, Ejg, Ejd, settle_pending by done.
  assert (reactions (settle (joinDeferred c) (Resolved None) c0) = []) as ->.
  { unfold settle. rewrite Hpend0. subst c0. cbn. by rewrite Hre. }
  subst c0. cbn. rewrite Z.max_r by lia.
  rewrite list_lookup_insert_eq by (rewrite length_app; lia).
  repeat split; try done; lia.
Qed.

(** Each further timer finds nothing to send either. *)
Lemma flush_idle (c : Channel) (d0 : nat) (fs : list Frame)
    (xs : list Exchange) (m : nat) (t : Z) :
  batchEmpty c d0 fs xs (S m) t -> batchEmpty (step c FireTimer) d0 fs xs m t.
Proof.
  intros (Hel & Htm & Hclk & Hem & Hex & Hre & Hd0 & Hn).
  pose proof (lookup_lt_Some _ _ _ Hd0) as Ld0.
  unfold Channel.step. rewrite Htm. cbn [replicate task Channel.runTask].
  unfold Channel.requestJoinsForGroupQueue.
  cbn [joinGroups setClock setTimers setJoinGroups joinDeferred defer promises
       setPromises setJoinDeferred].
  rewrite Hel. cbn [fst]. unfold resolve.
  set (c0 := setJoinDeferred _ _).
  destruct (settle_fields (joinDeferred c) (Resolved None) c0)
    as (_ & Eclk & _ & Eex & Eem & Etm & Ejg & Ejd & _).
  unfold batchEmpty.
  rewrite Eclk, Eem, Eex, Etm, Ejg, Ejd, settle_other by done.
  assert (reactions (settle (joinDeferred c) (Resolved None) c0) = []) as ->.
  { unfold settle. destruct (isPending (joinDeferred c) c0); subst c0; cbn;
      by rewrite Hre. }
  subst c0. cbn. rewrite Hclk, Z.max_id.
  rewrite lookup_app_l by done.
  repeat split; try done; lia.
Qed.

Lemma flush_idle_all (c : Channel) (d0 : nat) (fs : list Frame)
    (xs : list Exchange) (m : nat) (t : Z) :
  batchEmpty c d0 fs xs m t ->
  batchEmpty (exec c (replicate m FireTimer)) d0 fs xs 0 t.
Proof.
  revert c. induction m as [|m IH]; intros c H; [done|].
  cbn [replicate]. unfold Channel.exec. cbn [foldl].
  apply IH. by apply flush_idle.
Qed.

Lemma flushes_first (l : list Json) (lists : list (list Json)) :
  flushes JsObject.empty (l :: lists) = S (flushes (addStrings l JsObject.empty) lists).
Proof. reflexivity. Qed.


(** *** registerPresence *)

(** Of two synchronous calls, the first sets the timer, and the timer's
    callback keeps the list of that first call. *)
Lemma registerPresence_timer_keeps_first_list (c : Channel) (l1 l2 : list Json) :
  connected c = true -> JsObject.keys (presenceEndpoints c) = [] -> timers c = [] ->
  JsObject.keys (addUnregistered (presenceRegistered c) l1 (presenceEndpoints c)) <> [] ->
  timers (exec c [CallRegisterPresence l1; CallRegisterPresence l2]) =
    [{| due := clock c + 0; task := RegisterPresenceFlush l1 |}].
Proof.
  intros Hconn Hel Htm Hne. unfold Channel.exec. cbn [foldl Channel.step].
  unfold registerPresence at 2. rewrite Hconn, Hel. cbn [negb fst].
  rewrite bool_decide_eq_true_2 by done. cbn [negb].
  unfold registerPresence, setTimeout. cbn. rewrite Hconn, Htm. cbn.
  by rewrite bool_decide_eq_false_2.
Qed.

(** The handler of a successful registration records the list that the
    callback kept, whatever was sent. *)
Lemma registerPresence_success_marks (saveDeferred : nat) (ids : list Json)
    (v : JsVal) (c : Channel) :
  presenceRegistered (react (RegisterPresenceDone saveDeferred ids) (Resolved v) c)
  = markRegistered ids (presenceRegistered c).
Proof.
  cbn [react]. unfold resolve.
  by destruct (settle_fields saveDeferred (Resolved None)
                 (setPresenceRegistered (markRegistered ids (presenceRegistered c)) c))
    as (_ & _ & _ & _ & _ & _ & _ & _ & _ & _ & ->).
Qed.

End ChannelFacts.

(* ===================================================================== *)
(** ** The channel on examples *)
(* ===================================================================== *)

Section Examples.
Import Js Channel Sample.

Lemma codeUnitsb_Forall (s : list Z) :
  codeUnitsb s = true -> Forall Encoding.isCodeUnit s.
Proof.
  unfold codeUnitsb. intros H. apply Forall_forall. intros u Hu.
  apply list_elem_of_In in Hu.
  pose proof (proj1 (forallb_forall _ _) H u Hu) as Hb. cbn beta in Hb.
  unfold Encoding.isCodeUnit. lia.
Qed.

Lemma equal_by_decide {A : Type} `{EqDecision A} (x y : A) :
  bool_decide (x = y) = true -> x = y.
Proof. apply bool_decide_eq_true_1. Qed.



(** C5.  A response of status 500 whose body is the object [{}]: whatever
    [this.status] is, the promise of the request is resolved with the
    body.  The message that the table [errors] has for the status is not
    used. *)
Theorem error_status_without_error_field_resolves :
  let r := respond 500 [] in
  statusCode r = 500 /\
  parseBody (body r) = inr (JObj []) /\
  bodyError (JObj []) = None /\
  errors (Some 500) = Some "Can't perform this action: server problem."%string /\
  forall thisStatus : option Z,
    promises (Sample.exec create [CallWs getTurn; Respond 0 r thisStatus]) !! 2%nat
    = Some (Resolved (Some (JObj []))).
Proof.
  intros r. repeat split. intros thisStatus.
  change (Sample.exec create [CallWs getTurn; Respond 0 r thisStatus])
    with (handleResponse 0 r thisStatus (Sample.exec create [CallWs getTurn])).1.
  erewrite no_error_field_resolves; [|by vm_compute|done|done|done|done].
  by vm_compute.
Qed.

(** The same request answered with an [error] in the body is rejected
    with that error. *)
Example error_status_with_error_field_rejects :
  promises (Sample.exec create
              [CallWs getTurn;
               Respond 0 (respond 500 [("error"%string, JStr "boom")]) (Some 500)])
    !! 2%nat = Some (Rejected "boom (get /v1/turn)").
Proof. by vm_compute. Qed.

(** Three answers of status 429 without an [error] in the body: after the
    third the promise is resolved. *)
Example rate_limited_without_error_field_resolves :
  let r := respond 429 [] in
  let c := Sample.exec create
             [CallWs getTurn; Respond 0 r None; FireTimer; Respond 0 r None;
              FireTimer; Respond 0 r None] in
  length (emitted c) = 3%nat /\
  promises c !! 2%nat = Some (Resolved (Some (JObj []))).
Proof. by vm_compute. Qed.



(** The order in which the groups of a batch are sent: names that are
    array indices first, by value, then the others as they were first
    named; a name is sent once, and [__proto__] is not sent. *)
Example join_batch_order_of_groups :
  let lists := [[JStr "b"; JStr "10"; JStr "a"];
                [JStr "__proto__"; JStr "9"; JStr "b"; JStr "01"]] in
  let c2 := Sample.fireTimers (joinGroupAll lists create).1 in
  data <$> emitted c2 =
    [Some (JObj [("groups"%string,
                  JArr [JStr "9"; JStr "10"; JStr "b"; JStr "a"; JStr "01"])])].
Proof. by vm_compute. Qed.

(** C7.  Two synchronous calls of [registerPresence], for "u1" and for
    "u2": one RPC is sent for both ids and succeeds, and the promise of
    the batch is resolved; but only "u1", the id of the call that set the
    timer, is recorded in [presenceRegistered], so a later call for "u2"
    accumulates "u2" again. *)
Theorem presence_registered_for_first_caller_only :
  let c := Sample.exec create
             [CallRegisterPresence [JStr "u1"]; CallRegisterPresence [JStr "u2"];
              FireTimer; Respond 0 (respond 200 []) (Some 200); RunJob] in
  (exists f ids, emitted c = [f] /\ url f = "/v1/presenceobservers"%string /\
     data f = Some (JObj [("endpointList"%string, JArr (JStr <$> ids))]) /\
     ids = ["u1"; "u2"]%string) /\
  promises c !! 1%nat = Some (Resolved None) /\
  JsObject.keys (presenceRegistered c) = ["u1"%string] /\
  JsObject.isTrue "u2" (presenceRegistered c) = false /\
  JsObject.keys (presenceEndpoints (Sample.step c (CallRegisterPresence [JStr "u2"])))
    = ["u2"%string] /\
  JsObject.keys (presenceEndpoints (Sample.step c (CallRegisterPresence [JStr "u1"])))
    = [].
Proof.
  intros c. split.
  { eexists _, ["u1"; "u2"]%string. by vm_compute. }
  by vm_compute.
Qed.

(** A request with a body of 20,002 octets on a channel that is not
    connected: the promise is rejected with the error of a channel that
    is not connected, not with the over-limit error. *)
Lemma oversize_body_when_disconnected :
  let c := setConnected false create in
  let '(c', result) := Sample.wsCall (postText 20000) c in
  option_map (fun bs => Z.of_nat (length bs))
    (Encoding.utf8 (stringify (letters 20000))) = Some 20002 /\
  result = Normal 2%nat /\
  promises c' !! 2%nat = Some (Rejected notConnectedMessage) /\
  notConnectedMessage <> overLimitMessage /\
  emitted c' = [].
Proof. vm_compute. repeat split. discriminate. Qed.

(** Bodies of 20,002 and of 20,000 octets on a connected channel. *)
Lemma body_size_limit_witness :
  let big := postText 20000 in
  let small := postText 19998 in
  (connected create = true /\ ppath big <> EmptyString /\
   pparameters big = Some (letters 20000) /\ truthy (letters 20000) = true /\
   Encoding.utf8 (stringify (letters 20000)) = Some (stringify (letters 20000)) /\
   bodySizeLimit < Z.of_nat (length (stringify (letters 20000))) /\
   Z.of_nat (length (stringify (letters 19998))) <= bodySizeLimit) /\
  (promises (Sample.wsCall big create).1 !! 2%nat = Some (Rejected overLimitMessage) /\
   emitted (Sample.wsCall big create).1 = []) /\
  (promises (Sample.wsCall small create).1 !! 2%nat = Some Pending /\
   length (emitted (Sample.wsCall small create).1) = 1%nat).
Proof.
  intros big small.
  assert (bodySizeLimit < Z.of_nat (length (stringify (letters 20000)))) as Hbig
    by (vm_compute; reflexivity).
  assert (Z.of_nat (length (stringify (letters 19998))) <= bodySizeLimit) as Hsmall
    by (vm_compute; discriminate).
  assert (Encoding.utf8 (stringify (letters 20000)) = Some (stringify (letters 20000)))
    as Hu by (apply equal_by_decide; vm_compute; reflexivity).
  pose proof (body_size_limit stringify expand sdk token create big
                (letters 20000) (stringify (letters 20000))
                eq_refl ltac:(discriminate) eq_refl ltac:(vm_compute; reflexivity)
                (codeUnitsb_Forall (stringify (letters 20000))
                   ltac:(vm_compute; reflexivity)) Hu) as H1.
  pose proof (body_size_limit stringify expand sdk token create small
                (letters 19998) (stringify (letters 19998))
                eq_refl ltac:(discriminate) eq_refl ltac:(vm_compute; reflexivity)
                (codeUnitsb_Forall (stringify (letters 19998))
                   ltac:(vm_compute; reflexivity))
                ltac:(apply equal_by_decide; vm_compute; reflexivity)) as H2.
  cbv zeta in H1, H2.
  destruct H1 as (_ & Hover & _). destruct H2 as (_ & _ & Hunder).
  split.
  { split; [reflexivity|]. split; [discriminate|]. split; [reflexivity|].
    split; [vm_compute; reflexivity|]. split; [exact Hu|].
    split; [exact Hbig | exact Hsmall]. }
  split; [exact (Hover Hbig)|].
  destruct (Hunder Hsmall) as [P E].
  split; [exact P | exact (eq_trans (f_equal length E) eq_refl)].
Defined.

(** A request answered with status 200: its deferred stays among the
    pending requests, and a later disconnect calls [reject] on it, to no
    effect. *)
Lemma pending_request_not_removed_witness :
  let c1 := (Sample.wsCall getTurn create).1 in
  let c2 := Sample.step c1 (Respond 0 (respond 200 []) None) in
  (connected create = true /\ ppath getTurn <> EmptyString /\
   Sample.requestBodyLength getTurn = Some 0 /\ 0 <= bodySizeLimit /\
   parseBody (body (respond 200 [])) = inr (JObj []) /\
   statusCode (respond 200 []) <> 429) /\
  ((fun ex => id (request ex)) <$> exchanges c1 !! 0%nat) = Some 1%nat /\
  promises c2 !! 2%nat = Some (Resolved (Some (JObj []))) /\
  PendingRequests.contents (pendingRequests c2) !! 0%nat = Some (Some 2%nat) /\
  promises (Sample.step c2 Disconnect) !! 2%nat = Some (Resolved (Some (JObj []))).
Proof.
  intros c1 c2.
  pose proof (pending_request_not_removed stringify expand sdk token
                (PendingRequests.create (A := nat)) 7%nat create getTurn 0
                (respond 200 []) (JObj []) None) as [_ H].
  specialize (H eq_refl ltac:(discriminate) eq_refl ltac:(vm_compute; discriminate)
                eq_refl ltac:(vm_compute; discriminate)).
  cbv zeta in H. destruct H as (K & _ & Q).
  split; [repeat split; try reflexivity; vm_compute; discriminate|].
  split; [exact K|]. split; [by vm_compute|]. split; [exact Q | by vm_compute].
Defined.

(** What C10 leads to with two requests in flight: the response to the
    first removes the deferred of the second from the pending requests,
    so a disconnect does not reject the second one's promise. *)
Example response_removes_the_next_request :
  let c := Sample.exec create
             [CallWs getTurn; CallWs getTurn; Respond 0 (respond 200 []) (Some 200)] in
  PendingRequests.contents (pendingRequests c) = [Some 2%nat; None] /\
  promises c !! 3%nat = Some Pending /\
  promises (Sample.step c Disconnect) !! 3%nat = Some Pending.
Proof. by vm_compute. Qed.

End Examples.

(* ===================================================================== *)
(** ** What the channel keeps, whatever happens to it *)
(* ===================================================================== *)

Section ChannelHistory.
Import Js Channel History.

Variable JSON_stringify : Json -> list Z.
Variable expandTemplate : string -> list (string * string) -> string.
Variable sdkHeaderValue : string.
Variable appToken : JsVal.

Local Abbreviation wsCall :=
  (Channel.wsCall JSON_stringify expandTemplate sdkHeaderValue appToken).
Local Abbreviation step :=
  (Channel.step JSON_stringify expandTemplate sdkHeaderValue appToken).
Local Abbreviation exec :=
  (Channel.exec JSON_stringify expandTemplate sdkHeaderValue appToken).
Local Abbreviation retry := (Channel.retry sdkHeaderValue appToken).
Local Abbreviation sendWebsocketRequest :=
  (Channel.sendWebsocketRequest sdkHeaderValue appToken).
Local Abbreviation requestJoinsForGroupQueue :=
  (Channel.requestJoinsForGroupQueue JSON_stringify expandTemplate sdkHeaderValue appToken).
Local Abbreviation registerPresenceFlush :=
  (Channel.registerPresenceFlush JSON_stringify expandTemplate sdkHeaderValue appToken).
Local Abbreviation runTask :=
  (Channel.runTask JSON_stringify expandTemplate sdkHeaderValue appToken).

(** *** Settled promises *)

Lemma settledAlike_refl (c : Channel) : settledAlike c c.
Proof. by intros d o H _. Qed.

Lemma settledAlike_trans (c1 c2 c3 : Channel) :
  settledAlike c1 c2 -> settledAlike c2 c3 -> settledAlike c1 c3.
Proof. intros H12 H23 d o H Ho. apply H23; [|done]. by apply H12. Qed.

Lemma settledAlike_promises (c c' : Channel) :
  promises c' = promises c -> settledAlike c c'.
Proof. intros E d o H _. by rewrite E. Qed.

Lemma settle_settledAlike (d : nat) (o : Settled) (c : Channel) :
  settledAlike c (settle d o c).
Proof.
  intros d' o' H Ho. unfold settle.
  destruct (isPending d c) eqn:Hp; [|done].
  cbn. rewrite list_lookup_insert_ne; [done|].
  intros ->. unfold isPending in Hp. rewrite H in Hp. by destruct o'.
Qed.

Lemma defer_settledAlike (c : Channel) : settledAlike c (defer c).1.
Proof.
  intros d o H _. cbn. rewrite lookup_app_l; [done|]. by eapply lookup_lt_Some.
Qed.

Lemma promises_sendWebsocketRequest (x : nat) (c : Channel) :
  promises (sendWebsocketRequest x c) = promises c.
Proof. unfold Channel.sendWebsocketRequest. by destruct (exchanges c !! x). Qed.

Lemma promises_retry (x : nat) (c : Channel) : promises (retry x c) = promises c.
Proof.
  unfold Channel.retry. destruct (exchanges c !! x); [|done].
  by rewrite promises_sendWebsocketRequest.
Qed.

Lemma promises_done (d : nat) (r : Reaction) (c : Channel) :
  promises (done d r c) = promises c.
Proof. unfold done. by repeat case_match. Qed.

Lemma wsCall_settledAlike (p : Params) (c : Channel) : settledAlike c (wsCall p c).1.
Proof.
  unfold Channel.wsCall.
  destruct (defer c) as [c1 d] eqn:Hd.
  assert (settledAlike c c1) as H1.
  { replace c1 with (defer c).1 by (by rewrite Hd). apply defer_settledAlike. }
  destruct (Channel.requestBodyLength JSON_stringify p); [|done].
  repeat case_match; cbn [fst];
    try (eapply settledAlike_trans; [exact H1|apply settle_settledAlike]).
  eapply settledAlike_trans; [exact H1|].
  apply settledAlike_promises. by rewrite promises_sendWebsocketRequest.
Qed.

Lemma failWebsocketRequest_settledAlike (r : Request) (b : Json) (h : JsVal)
    (e : string) (d : nat) (c : Channel) :
  settledAlike c (failWebsocketRequest r b h e d c).
Proof. unfold failWebsocketRequest. case_match; apply settle_settledAlike. Qed.

Lemma handleResponse_settledAlike (x : nat) (r : Response) (s : option Z) (c : Channel) :
  settledAlike c (handleResponse x r s c).1.
Proof.
  unfold handleResponse.
  destruct (exchanges c !! x) as [ex|]; [|apply settledAlike_refl].
  destruct (parseBody (body r)) as [m|b]; [apply settle_settledAlike|].
  assert (settledAlike c (finishRequest x ex c).1) as Hf
    by (by apply settledAlike_promises).
  destruct (finishRequest x ex c) as [c' r'].
  repeat case_match; cbn [fst]; simplify_eq;
    first [ by apply settledAlike_promises
          | (eapply settledAlike_trans; [exact Hf|];
             first [ apply failWebsocketRequest_settledAlike
                   | apply settle_settledAlike
                   | apply settledAlike_refl ]) ].
Qed.

Lemma forEach_reject_settledAlike (e : string) (arr : list (option nat)) (c : Channel) :
  settledAlike c (PendingRequests.forEach (fun d acc => reject d e acc) arr c).
Proof.
  unfold PendingRequests.forEach. revert c.
  induction arr as [|slot arr IH]; intros c; [apply settledAlike_refl|].
  cbn [foldl]. eapply settledAlike_trans; [|apply IH].
  destruct slot; [apply settle_settledAlike|apply settledAlike_refl].
Qed.

Lemma onDisconnect_settledAlike (c : Channel) : settledAlike c (onDisconnect c).
Proof.
  unfold onDisconnect, PendingRequests.reset.
  apply settledAlike_trans with (setConnected false c);
    [by apply settledAlike_promises|].
  eapply settledAlike_trans; [apply forEach_reject_settledAlike|].
  by apply settledAlike_promises.
Qed.

Lemma joinGroup_settledAlike (l : list Json) (c : Channel) :
  settledAlike c (joinGroup l c).1.
Proof.
  unfold joinGroup. repeat case_match; cbn [fst];
    first [apply settle_settledAlike | by apply settledAlike_promises].
Qed.

Lemma registerPresence_settledAlike (l : list Json) (c : Channel) :
  settledAlike c (registerPresence l c).1.
Proof.
  unfold registerPresence. destruct (negb (connected c)).
  - destruct (defer c) as [c1 d] eqn:Hd. cbn [fst].
    eapply settledAlike_trans; [|apply settle_settledAlike].
    replace c1 with (defer c).1 by (by rewrite Hd). apply defer_settledAlike.
  - case_match; by apply settledAlike_promises.
Qed.

Lemma requestJoinsForGroupQueue_settledAlike (c : Channel) :
  settledAlike c (requestJoinsForGroupQueue c).1.
Proof.
  unfold Channel.requestJoinsForGroupQueue.
  set (c0 := setJoinGroups JsObject.empty c).
  assert (settledAlike c c0) as H0 by (by apply settledAlike_promises).
  destruct (defer c0) as [c1 d] eqn:Hd.
  assert (settledAlike c (setJoinDeferred d c1)) as H1.
  { eapply settledAlike_trans; [exact H0|].
    eapply settledAlike_trans; [apply (defer_settledAlike c0)|].
    rewrite Hd. by apply settledAlike_promises. }
  destruct (JsObject.keys (joinGroups c)) as [|g gs].
  - cbn [fst]. eapply settledAlike_trans; [exact H1|apply settle_settledAlike].
  - pose proof (wsCall_settledAlike (joinParams (g :: gs)) (setJoinDeferred d c1)) as Hw.
    destruct (wsCall (joinParams (g :: gs)) (setJoinDeferred d c1)) as [c2 [pr|e]];
      cbn [fst] in *.
    + eapply settledAlike_trans; [exact H1|].
      eapply settledAlike_trans; [exact Hw|].
      apply settledAlike_promises, promises_done.
    + by eapply settledAlike_trans.
Qed.

Lemma registerPresenceFlush_settledAlike (l : list Json) (c : Channel) :
  settledAlike c (registerPresenceFlush l c).1.
Proof.
  unfold Channel.registerPresenceFlush.
  set (c0 := setPresenceEndpoints JsObject.empty c).
  assert (settledAlike c c0) as H0 by (by apply settledAlike_promises).
  destruct (defer c0) as [c1 d] eqn:Hd.
  assert (settledAlike c (setPresenceDeferred d c1)) as H1.
  { eapply settledAlike_trans; [exact H0|].
    eapply settledAlike_trans; [apply (defer_settledAlike c0)|].
    rewrite Hd. by apply settledAlike_promises. }
  destruct (JsObject.keys (presenceEndpoints c)) as [|g gs].
  - cbn [fst]. eapply settledAlike_trans; [exact H1|apply settle_settledAlike].
  - pose proof (wsCall_settledAlike (presenceParams (g :: gs))
                  (setPresenceDeferred d c1)) as Hw.
    destruct (wsCall (presenceParams (g :: gs)) (setPresenceDeferred d c1))
      as [c2 [pr|e]]; cbn [fst] in *.
    + eapply settledAlike_trans; [exact H1|].
      eapply settledAlike_trans; [exact Hw|].
      apply settledAlike_promises, promises_done.
    + by eapply settledAlike_trans.
Qed.

Lemma react_settledAlike (r : Reaction) (o : Settled) (c : Channel) :
  settledAlike c (react r o c).
Proof.
  unfold react. repeat case_match;
    first [ apply settledAlike_refl | apply settle_settledAlike
          | (eapply settledAlike_trans; [|apply settle_settledAlike];
             by apply settledAlike_promises) ].
Qed.

Lemma step_settledAlike (c : Channel) (i : Input) : settledAlike c (step c i).
Proof.
  destruct i; cbn [Channel.step].
  - apply wsCall_settledAlike.
  - apply joinGroup_settledAlike.
  - apply registerPresence_settledAlike.
  - apply handleResponse_settledAlike.
  - apply onDisconnect_settledAlike.
  - destruct (timers c) as [|t rest]; [apply settledAlike_refl|].
    eapply settledAlike_trans;
      [apply (settledAlike_promises c
                (setClock (Z.max (clock c) (due t)) (setTimers rest c))); done|].
    destruct (task t); cbn [Channel.runTask].
    + apply settledAlike_promises, promises_retry.
    + apply requestJoinsForGroupQueue_settledAlike.
    + apply registerPresenceFlush_settledAlike.
  - destruct (jobs c) as [|[r o] rest]; [apply settledAlike_refl|].
    eapply settledAlike_trans; [|apply react_settledAlike].
    by apply settledAlike_promises.
  - by apply settledAlike_promises.
Qed.

Lemma exec_settledAlike (c : Channel) (inputs : list Input) :
  settledAlike c (exec c inputs).
Proof.
  revert c. induction inputs as [|i inputs IH]; intros c; [apply settledAlike_refl|].
  cbn. eapply settledAlike_trans; [apply step_settledAlike|apply IH].
Qed.

(** X1.  A promise that has been resolved or rejected stays as it is: no
    call into the channel, response, timer, disconnection or handler
    changes its outcome. *)
Theorem settled_promise_is_final (c : Channel) (inputs : list Input)
    (d : nat) (o : Settled) :
  promises c !! d = Some o -> o <> Pending ->
  promises (exec c inputs) !! d = Some o.
Proof. intros H Ho. by apply exec_settledAlike. Qed.

(** *** The numbering of the requests *)

Lemma ids_insert (x : nat) (ex ex' : Exchange) (l : list Exchange) :
  l !! x = Some ex -> id (request ex') = id (request ex) ->
  (fun e => id (request e)) <$> <[x := ex']> l = (fun e => id (request e)) <$> l.
Proof.
  intros Hx Hid. rewrite list_fmap_insert. apply list_insert_id.
  by rewrite list_lookup_fmap, Hx, Hid.
Qed.

Lemma numbered_same (c c' : Channel) :
  PendingRequests.counter (pendingRequests c') = PendingRequests.counter (pendingRequests c) ->
  ids c' = ids c -> numbered c -> numbered c'.
Proof.
  intros Hc Hi [N1 N2]. unfold numbered.
  assert (length (exchanges c') = length (exchanges c)) as Hl.
  { apply (f_equal length) in Hi. unfold ids in Hi. by rewrite !length_fmap in Hi. }
  rewrite Hc, Hi, Hl. done.
Qed.

Lemma sendWebsocketRequest_numbers (x : nat) (c : Channel) :
  PendingRequests.counter (pendingRequests (sendWebsocketRequest x c))
    = PendingRequests.counter (pendingRequests c) /\
  ids (sendWebsocketRequest x c) = ids c.
Proof.
  unfold Channel.sendWebsocketRequest. destruct (exchanges c !! x) as [ex|] eqn:Hx; [|done].
  split; [done|]. unfold ids. cbn. by erewrite ids_insert.
Qed.

Lemma settle_numbers (d : nat) (o : Settled) (c : Channel) :
  pendingRequests (settle d o c) = pendingRequests c /\
  exchanges (settle d o c) = exchanges c.
Proof. unfold settle. by destruct (isPending d c). Qed.

Lemma numbered_settle (d : nat) (o : Settled) (c : Channel) :
  numbered c -> numbered (settle d o c).
Proof.
  destruct (settle_numbers d o c) as [E1 E2].
  apply numbered_same; [by rewrite E1|]. unfold ids. by rewrite E2.
Qed.

Lemma numbered_done (d : nat) (r : Reaction) (c : Channel) :
  numbered c -> numbered (done d r c).
Proof. unfold done. by repeat case_match. Qed.

Lemma wsCall_numbered (p : Params) (c : Channel) :
  numbered c -> numbered (wsCall p c).1.
Proof.
  intros N. unfold Channel.wsCall, defer.
  destruct (Channel.requestBodyLength JSON_stringify p); [|done].
  repeat case_match; cbn [fst]; simplify_eq;
    try (apply numbered_settle; exact N).
  match goal with |- numbered (Channel.sendWebsocketRequest _ _ ?x ?c0) =>
    destruct (sendWebsocketRequest_numbers x c0) as [E1 E2] end.
  destruct N as [N1 N2]. unfold numbered.
  rewrite E1, E2.
  match goal with |- context [length (exchanges ?c1)] =>
    replace (length (exchanges c1)) with (S (length (exchanges c))) end.
  2:{ unfold Channel.sendWebsocketRequest. case_match; cbn;
        rewrite ?length_insert, length_app; cbn; lia. }
  unfold PendingRequests.add in *. simplify_eq.
  unfold ids in *. cbn. rewrite fmap_app, N2. cbn.
  rewrite N1. split; [done|].
  symmetry. exact (seq_S (length (exchanges c)) 1).
Qed.

Lemma finishRequest_numbered (x : nat) (ex : Exchange) (c : Channel) :
  exchanges c !! x = Some ex -> numbered c -> numbered (finishRequest x ex c).1.
Proof.
  intros Hx. apply numbered_same; [done|]. unfold ids. cbn. by erewrite ids_insert.
Qed.

Lemma failWebsocketRequest_numbered (r : Request) (b : Json) (h : JsVal)
    (e : string) (d : nat) (c : Channel) :
  numbered c -> numbered (failWebsocketRequest r b h e d c).
Proof. unfold failWebsocketRequest. case_match; apply numbered_settle. Qed.

Lemma handleResponse_numbered (x : nat) (r : Response) (s : option Z) (c : Channel) :
  numbered c -> numbered (handleResponse x r s c).1.
Proof.
  intros N. unfold handleResponse.
  destruct (exchanges c !! x) as [ex|] eqn:Hx; [|done].
  destruct (parseBody (body r)) as [m|b]; [by apply numbered_settle|].
  pose proof (finishRequest_numbered x ex c Hx N) as Hf.
  destruct (finishRequest x ex c) as [c' r'].
  repeat case_match; cbn [fst] in *; simplify_eq;
    first [ done
          | by apply failWebsocketRequest_numbered
          | by apply numbered_settle ].
Qed.

Lemma retry_numbered (x : nat) (c : Channel) : numbered c -> numbered (retry x c).
Proof.
  unfold Channel.retry. destruct (exchanges c !! x) as [ex|] eqn:Hx; [|done].
  intros N.
  match goal with |- numbered (Channel.sendWebsocketRequest _ _ ?x ?c0) =>
    destruct (sendWebsocketRequest_numbers x c0) as [E1 E2];
    apply (numbered_same c0); [done|done|] end.
  revert N. apply numbered_same; [done|]. unfold ids. cbn. by erewrite ids_insert.
Qed.

Lemma forEach_reject_numbers (e : string) (arr : list (option nat)) (c : Channel) :
  let c' := PendingRequests.forEach (fun d acc => reject d e acc) arr c in
  pendingRequests c' = pendingRequests c /\ exchanges c' = exchanges c.
Proof.
  unfold PendingRequests.forEach. revert c.
  induction arr as [|slot arr IH]; intros c; [done|].
  cbn [foldl]. destruct (IH (match slot with Some x => reject x e c | None => c end))
    as [E1 E2]. cbn zeta in *. rewrite E1, E2.
  destruct slot; [apply settle_numbers|done].
Qed.

Lemma onDisconnect_numbered (c : Channel) : numbered c -> numbered (onDisconnect c).
Proof.
  unfold onDisconnect, PendingRequests.reset.
  destruct (forEach_reject_numbers "WebSocket disconnected"
              (PendingRequests.contents (pendingRequests c)) (setConnected false c))
    as [E1 E2]. cbn zeta in *.
  apply numbered_same; [done|]. unfold ids. cbn. by rewrite E2.
Qed.

Lemma joinGroup_numbered (l : list Json) (c : Channel) :
  numbered c -> numbered (joinGroup l c).1.
Proof.
  intros N. unfold joinGroup. repeat case_match; cbn [fst];
    first [by apply numbered_settle | done].
Qed.

Lemma registerPresence_numbered (l : list Json) (c : Channel) :
  numbered c -> numbered (registerPresence l c).1.
Proof.
  intros N. unfold registerPresence, defer. repeat case_match; simplify_eq; cbn [fst];
    first [by apply numbered_settle | done].
Qed.

Lemma requestJoinsForGroupQueue_numbered (c : Channel) :
  numbered c -> numbered (requestJoinsForGroupQueue c).1.
Proof.
  intros N. unfold Channel.requestJoinsForGroupQueue, defer.
  destruct (JsObject.keys (joinGroups c)) as [|g gs]; cbn [fst].
  - by apply numbered_settle.
  - match goal with |- context [Channel.wsCall _ _ _ _ ?p ?c0] =>
      pose proof (wsCall_numbered p c0 N) as Hw;
      destruct (wsCall p c0) as [c2 [pr|e]] end; cbn [fst] in *; [|done].
    by apply numbered_done.
Qed.

Lemma registerPresenceFlush_numbered (l : list Json) (c : Channel) :
  numbered c -> numbered (registerPresenceFlush l c).1.
Proof.
  intros N. unfold Channel.registerPresenceFlush, defer.
  destruct (JsObject.keys (presenceEndpoints c)) as [|g gs]; cbn [fst].
  - by apply numbered_settle.
  - match goal with |- context [Channel.wsCall _ _ _ _ ?p ?c0] =>
      pose proof (wsCall_numbered p c0 N) as Hw;
      destruct (wsCall p c0) as [c2 [pr|e]] end; cbn [fst] in *; [|done].
    by apply numbered_done.
Qed.

Lemma react_numbered (r : Reaction) (o : Settled) (c : Channel) :
  numbered c -> numbered (react r o c).
Proof.
  intros N. unfold react. repeat case_match;
    first [ done | by apply numbered_settle ].
Qed.

Lemma step_numbered (c : Channel) (i : Input) : numbered c -> numbered (step c i).
Proof.
  intros N. destruct i; cbn [Channel.step].
  - by apply wsCall_numbered.
  - by apply joinGroup_numbered.
  - by apply registerPresence_numbered.
  - by apply handleResponse_numbered.
  - by apply onDisconnect_numbered.
  - destruct (timers c) as [|t rest]; [done|].
    destruct (task t); cbn [Channel.runTask].
    + by apply retry_numbered.
    + by apply requestJoinsForGroupQueue_numbered.
    + by apply registerPresenceFlush_numbered.
  - destruct (jobs c) as [|[r o] rest]; [done|]. by apply react_numbered.
  - done.
Qed.

Lemma exec_numbered (c : Channel) (inputs : list Input) :
  numbered c -> numbered (exec c inputs).
Proof.
  revert c. induction inputs as [|i inputs IH]; intros c N; [done|].
  cbn. by apply IH, step_numbered.
Qed.

(** X2.  On a channel that starts without requests, whatever happens to it,
    the requests that [wsCall] has accepted carry the ids 1, 2, 3, ... in
    the order of the calls, and [counter] is their number: an id is never
    given twice, not after a disconnection either. *)
Theorem request_ids_count_from_one (inputs : list Input) :
  let c := exec create inputs in
  ids c = seq 1 (length (exchanges c)) /\
  PendingRequests.counter (pendingRequests c) = length (exchanges c) /\
  NoDup (ids c).
Proof.
  intros c. destruct (exec_numbered create inputs) as [N1 N2]; [done|].
  fold c in N1, N2. split; [done|]. split; [done|].
  rewrite N2. apply NoDup_seq.
Qed.

(** *** The frames *)

(** From a channel whose requests have lower-case methods, [c'] is
    reached by emitting well-formed frames, and its requests have
    lower-case methods. *)
Local Abbreviation emits c c' :=
  (lowerMethods c -> lowerMethods c' /\ emittedMore wellFormedFrame c c').

Lemma lower_lower (ch : ascii) : lower (lower ch) = lower ch.
Proof. destruct ch as [[] [] [] [] [] [] [] []]; reflexivity. Qed.

Lemma toLowerCase_idempotent (s : string) : toLowerCase (toLowerCase s) = toLowerCase s.
Proof. induction s as [|ch s IH]; [done|]. cbn. by rewrite lower_lower, IH. Qed.

Lemma emits_refl (c : Channel) : emits c c.
Proof. intros L. split; [done|]. exists []. by rewrite app_nil_r. Qed.

Lemma emits_trans (c1 c2 c3 : Channel) : emits c1 c2 -> emits c2 c3 -> emits c1 c3.
Proof.
  intros H12 H23 L1. destruct (H12 L1) as [L2 (fs & E2 & F2)].
  destruct (H23 L2) as [L3 (gs & E3 & F3)]. split; [done|].
  exists (fs ++ gs). split; [by rewrite E3, E2, app_assoc|by apply Forall_app].
Qed.

Lemma emits_same (c c' : Channel) :
  exchanges c' = exchanges c -> emitted c' = emitted c -> emits c c'.
Proof.
  intros Ex Em L. split; [unfold lowerMethods; by rewrite Ex|].
  exists []. by rewrite app_nil_r.
Qed.

Lemma lowerMethods_insert (x : nat) (ex ex' : Exchange) (l : list Exchange) :
  l !! x = Some ex -> method (request ex') = method (request ex) ->
  Forall (fun e => toLowerCase (method (request e)) = method (request e)) l ->
  Forall (fun e => toLowerCase (method (request e)) = method (request e)) (<[x := ex']> l).
Proof.
  intros Hx Hm F. apply Forall_insert; [done|]. rewrite Hm.
  by apply (proj1 (Forall_lookup _ _) F x ex).
Qed.

Lemma settle_emits (d : nat) (o : Settled) (c : Channel) : emits c (settle d o c).
Proof.
  destruct (settle_fields d o c) as (_ & _ & _ & Ex & Em & _). by apply emits_same.
Qed.

Lemma sendWebsocketRequest_emits (x : nat) (c : Channel) :
  emits c (sendWebsocketRequest x c).
Proof.
  unfold Channel.sendWebsocketRequest.
  destruct (exchanges c !! x) as [ex|] eqn:Hx; [|apply emits_refl].
  intros L. split.
  - unfold lowerMethods. cbn. by eapply lowerMethods_insert.
  - eexists. split; [reflexivity|]. apply Forall_singleton. split; [|done].
    cbn. by apply (proj1 (Forall_lookup _ _) L x ex).
Qed.

Lemma wsCall_emits (p : Params) (c : Channel) : emits c (wsCall p c).1.
Proof.
  unfold Channel.wsCall, defer.
  destruct (Channel.requestBodyLength JSON_stringify p); [|by apply emits_same].
  repeat case_match; cbn [fst]; simplify_eq;
    try (eapply emits_trans; [|apply settle_emits]; by apply emits_same).
  eapply emits_trans; [|apply sendWebsocketRequest_emits].
  intros L. split; [|exists []; by rewrite app_nil_r].
  unfold lowerMethods. cbn. apply Forall_app. split; [done|].
  apply Forall_singleton. cbn. unfold requestMethod. apply toLowerCase_idempotent.
Qed.

Lemma finishRequest_emits (x : nat) (ex : Exchange) (c : Channel) :
  exchanges c !! x = Some ex -> emits c (finishRequest x ex c).1.
Proof.
  intros Hx L. split; [|exists []; by rewrite app_nil_r].
  unfold lowerMethods. cbn. by eapply lowerMethods_insert.
Qed.

Lemma failWebsocketRequest_emits (r : Request) (b : Json) (h : JsVal)
    (e : string) (d : nat) (c : Channel) :
  emits c (failWebsocketRequest r b h e d c).
Proof. unfold failWebsocketRequest. case_match; apply settle_emits. Qed.

Lemma handleResponse_emits (x : nat) (r : Response) (s : option Z) (c : Channel) :
  emits c (handleResponse x r s c).1.
Proof.
  unfold handleResponse.
  destruct (exchanges c !! x) as [ex|] eqn:Hx; [|apply emits_refl].
  destruct (parseBody (body r)) as [m|b]; [apply settle_emits|].
  pose proof (finishRequest_emits x ex c Hx) as Hf.
  destruct (finishRequest x ex c) as [c' r'].
  repeat case_match; cbn [fst] in *; simplify_eq;
    first [ by apply emits_same
          | exact Hf
          | (eapply emits_trans; [exact Hf|];
             first [ apply failWebsocketRequest_emits | apply settle_emits ]) ].
Qed.

Lemma retry_emits (x : nat) (c : Channel) : emits c (retry x c).
Proof.
  unfold Channel.retry. destruct (exchanges c !! x) as [ex|] eqn:Hx; [|apply emits_refl].
  eapply emits_trans; [|apply sendWebsocketRequest_emits].
  intros L. split; [|exists []; by rewrite app_nil_r].
  unfold lowerMethods. cbn. by eapply lowerMethods_insert.
Qed.

Lemma onDisconnect_emits (c : Channel) : emits c (onDisconnect c).
Proof.
  unfold onDisconnect, PendingRequests.reset.
  destruct (forEach_reject_numbers "WebSocket disconnected"
              (PendingRequests.contents (pendingRequests c)) (setConnected false c))
    as [_ E2]. cbn zeta in *.
  apply emits_same; [done|]. cbn.
  assert (forall arr (c0 : Channel),
            emitted (PendingRequests.forEach
                       (fun d acc => reject d "WebSocket disconnected" acc) arr c0)
            = emitted c0) as H.
  { unfold PendingRequests.forEach. induction arr as [|slot arr IH]; intros c0; [done|].
    cbn [foldl]. rewrite IH. destruct slot; [|done].
    by destruct (settle_fields n (Rejected "WebSocket disconnected") c0)
      as (_ & _ & _ & _ & Em & _). }
  apply (H _ (setConnected false c)).
Qed.

Lemma joinGroup_emits (l : list Json) (c : Channel) : emits c (joinGroup l c).1.
Proof.
  unfold joinGroup. repeat case_match; cbn [fst];
    first [apply settle_emits | by apply emits_same].
Qed.

Lemma registerPresence_emits (l : list Json) (c : Channel) :
  emits c (registerPresence l c).1.
Proof.
  unfold registerPresence, defer. repeat case_match; simplify_eq; cbn [fst];
    first [ by apply emits_same
          | (eapply emits_trans; [|apply settle_emits]; by apply emits_same) ].
Qed.

Lemma done_emits (d : nat) (r : Reaction) (c : Channel) : emits c (done d r c).
Proof. unfold done. repeat case_match; by apply emits_same. Qed.

Lemma requestJoinsForGroupQueue_emits (c : Channel) :
  emits c (requestJoinsForGroupQueue c).1.
Proof.
  unfold Channel.requestJoinsForGroupQueue, defer.
  destruct (JsObject.keys (joinGroups c)) as [|g gs]; cbn [fst].
  - eapply emits_trans; [|apply settle_emits]. by apply emits_same.
  - match goal with |- context [Channel.wsCall _ _ _ _ ?p ?c0] =>
      pose proof (wsCall_emits p c0) as Hw;
      apply (emits_trans c c0); [by apply emits_same|];
      destruct (wsCall p c0) as [c2 [pr|e]] end; cbn [fst] in *; [|done].
    eapply emits_trans; [exact Hw|apply done_emits].
Qed.

Lemma registerPresenceFlush_emits (l : list Json) (c : Channel) :
  emits c (registerPresenceFlush l c).1.
Proof.
  unfold Channel.registerPresenceFlush, defer.
  destruct (JsObject.keys (presenceEndpoints c)) as [|g gs]; cbn [fst].
  - eapply emits_trans; [|apply settle_emits]. by apply emits_same.
  - match goal with |- context [Channel.wsCall _ _ _ _ ?p ?c0] =>
      pose proof (wsCall_emits p c0) as Hw;
      apply (emits_trans c c0); [by apply emits_same|];
      destruct (wsCall p c0) as [c2 [pr|e]] end; cbn [fst] in *; [|done].
    eapply emits_trans; [exact Hw|apply done_emits].
Qed.

Lemma react_emits (r : Reaction) (o : Settled) (c : Channel) : emits c (react r o c).
Proof.
  unfold react. repeat case_match;
    first [ apply emits_refl | apply settle_emits
          | (eapply emits_trans; [|apply settle_emits]; by apply emits_same) ].
Qed.

Lemma step_emits (c : Channel) (i : Input) : emits c (step c i).
Proof.
  destruct i; cbn [Channel.step].
  - apply wsCall_emits.
  - apply joinGroup_emits.
  - apply registerPresence_emits.
  - apply handleResponse_emits.
  - apply onDisconnect_emits.
  - destruct (timers c) as [|t rest]; [apply emits_refl|].
    eapply emits_trans;
      [apply (emits_same c (setClock (Z.max (clock c) (due t)) (setTimers rest c))); done|].
    destruct (task t); cbn [Channel.runTask].
    + apply retry_emits.
    + apply requestJoinsForGroupQueue_emits.
    + apply registerPresenceFlush_emits.
  - destruct (jobs c) as [|[r o] rest]; [apply emits_refl|].
    eapply emits_trans; [|apply react_emits]. by apply emits_same.
  - by apply emits_same.
Qed.

Lemma exec_emits (c : Channel) (inputs : list Input) : emits c (exec c inputs).
Proof.
  revert c. induction inputs as [|i inputs IH]; intros c; [apply emits_refl|].
  cbn. eapply emits_trans; [apply step_emits|apply IH].
Qed.


End ChannelHistory.

(* ===================================================================== *)
(** ** Disconnection, late responses and the guards of the channel *)
(* ===================================================================== *)

Section ChannelBehaviour.
Import Js Channel History.

Variable JSON_stringify : Json -> list Z.
Variable expandTemplate : string -> list (string * string) -> string.
Variable sdkHeaderValue : string.
Variable appToken : JsVal.

Local Abbreviation wsCall :=
  (Channel.wsCall JSON_stringify expandTemplate sdkHeaderValue appToken).
Local Abbreviation step :=
  (Channel.step JSON_stringify expandTemplate sdkHeaderValue appToken).
Local Abbreviation exec :=
  (Channel.exec JSON_stringify expandTemplate sdkHeaderValue appToken).

(** *** The disconnect handler *)

Lemma forEach_reject_fields (e : string) (arr : list (option nat)) (c : Channel) :
  let c' := PendingRequests.forEach (fun d acc => reject d e acc) arr c in
  connected c' = connected c /\ emitted c' = emitted c /\ timers c' = timers c.
Proof.
  unfold PendingRequests.forEach. revert c.
  induction arr as [|slot arr IH]; intros c; [done|].
  cbn [foldl]. destruct (IH (match slot with Some x => reject x e c | None => c end))
    as (E1 & E2 & E3). cbn zeta in *. rewrite E1, E2, E3.
  destruct slot as [d|]; [|done]. unfold reject.
  by destruct (settle_fields d (Rejected e) c) as (-> & _ & _ & _ & -> & -> & _).
Qed.

Lemma forEach_reject_others (e : string) (arr : list (option nat)) (c : Channel)
    (d : nat) :
  Some d ∉ arr ->
  promises (PendingRequests.forEach (fun d acc => reject d e acc) arr c) !! d
    = promises c !! d.
Proof.
  unfold PendingRequests.forEach. revert c.
  induction arr as [|slot arr IH]; intros c Hd; [done|].
  apply not_elem_of_cons in Hd as [Hne Hd].
  cbn [foldl]. rewrite IH by done.
  destruct slot as [d'|]; [|done]. apply settle_other. congruence.
Qed.

Lemma forEach_reject_pending (e : string) (arr : list (option nat)) (c : Channel)
    (d : nat) :
  Some d ∈ arr -> isPending d c = true ->
  promises (PendingRequests.forEach (fun d acc => reject d e acc) arr c) !! d
    = Some (Rejected e).
Proof.
  unfold PendingRequests.forEach. revert c.
  induction arr as [|slot arr IH]; intros c Hd Hp; [by apply elem_of_nil in Hd|].
  cbn [foldl]. destruct (decide (slot = Some d)) as [->|Hne].
  - pose proof (forEach_reject_settledAlike e arr (reject d e c)) as Hk.
    apply Hk; [|done]. unfold reject. rewrite settle_pending by done.
    apply list_lookup_insert_eq. unfold isPending in Hp.
    destruct (promises c !! d) eqn:E; [|done]. by eapply lookup_lt_Some.
  - apply elem_of_cons in Hd as [Hd|Hd]; [congruence|].
    apply IH; [done|]. destruct slot as [d'|]; [|done].
    unfold isPending, reject. rewrite settle_other by congruence. exact Hp.
Qed.

(** X4.  When the socket disconnects, every request whose deferred is held in
    [pendingRequests] and still pending is rejected with "WebSocket
    disconnected"; the other promises are left alone; the container is
    emptied, its counter is kept; nothing is emitted and no timer is
    cleared. *)
Theorem disconnect_rejects_pending_requests (c : Channel) :
  let c' := onDisconnect c in
  (forall d, held d c -> isPending d c = true ->
             promises c' !! d = Some (Rejected "WebSocket disconnected")) /\
  (forall d, ~ held d c -> promises c' !! d = promises c !! d) /\
  PendingRequests.contents (pendingRequests c') = [] /\
  PendingRequests.counter (pendingRequests c')
    = PendingRequests.counter (pendingRequests c) /\
  connected c' = false /\ emitted c' = emitted c /\ timers c' = timers c.
Proof.
  intros c'. subst c'. unfold onDisconnect, PendingRequests.reset, held.
  cbn [pendingRequests setPendingRequests promises PendingRequests.contents
       PendingRequests.counter connected emitted timers].
  destruct (forEach_reject_fields "WebSocket disconnected"
              (PendingRequests.contents (pendingRequests c)) (setConnected false c))
    as (E1 & E2 & E3). cbn zeta in *.
  split; [|split; [|repeat split]].
  - intros d Hd Hp. by apply forEach_reject_pending.
  - intros d Hd. by rewrite forEach_reject_others.
  - by rewrite E1.
  - by rewrite E2.
  - by rewrite E3.
Qed.

(** *** Responses that come late *)

Lemma settle_settled (d : nat) (o : Settled) (c : Channel) :
  isPending d c = false -> settle d o c = c.
Proof. intros H. unfold settle. by rewrite H. Qed.

Lemma failWebsocketRequest_settled (r : Request) (b : Json) (h : JsVal)
    (e : string) (d : nat) (c : Channel) :
  isPending d c = false -> failWebsocketRequest r b h e d c = c.
Proof.
  intros H. unfold failWebsocketRequest, reject, resolve.
  case_match; by apply settle_settled.
Qed.

(** X5.  A response that arrives when the promise of its request is already
    settled (rejected by a disconnection, say) changes no promise, sets
    no timer, even for a 429, queues no handler and emits nothing. *)
Theorem response_after_settlement (x : nat) (ex : Exchange) (r : Response)
    (s : option Z) (c : Channel) :
  exchanges c !! x = Some ex -> isPending (deferred ex) c = false ->
  let c' := step c (Respond x r s) in
  promises c' = promises c /\ timers c' = timers c /\ emitted c' = emitted c /\
  reactions c' = reactions c /\ jobs c' = jobs c.
Proof.
  intros Hx Hp c'. subst c'. cbn [Channel.step]. unfold handleResponse.
  rewrite Hx, Hp, andb_false_r.
  destruct (parseBody (body r)) as [m|b].
  - cbn [fst]. unfold reject. by rewrite settle_settled.
  - assert (isPending (deferred ex) (finishRequest x ex c).1 = false) as Hp' by done.
    destruct (finishRequest x ex c) as [c1 r1] eqn:Hf.
    assert (promises c1 = promises c /\ timers c1 = timers c /\
            emitted c1 = emitted c /\ reactions c1 = reactions c /\
            jobs c1 = jobs c) as Hsame.
    { unfold finishRequest in Hf. by simplify_eq. }
    cbn [fst] in Hp'.
    repeat case_match; cbn [fst]; simplify_eq;
      unfold resolve; rewrite ?failWebsocketRequest_settled, ?settle_settled by done;
      done.
Qed.

(** *** Responses that succeed, and suspended accounts *)

Lemma finishRequest_fields (x : nat) (ex : Exchange) (c : Channel) :
  let c' := (finishRequest x ex c).1 in
  promises c' = promises c /\ timers c' = timers c /\ emitted c' = emitted c /\
  exchanges c' =
    <[x := withRequest (withDuration (clock c - start ex) (request ex)) ex]> (exchanges c).
Proof. done. Qed.

(** X6.  A response that is not a 429 and not the 401 of a suspended account,
    handled with a [this.status] among the expected ones: the promise is
    resolved with the parsed body, also when the body carries an
    [error]; the duration of the request is measured from its last
    emission. *)
Theorem expected_status_resolves (x : nat) (ex : Exchange) (r : Response) (b : Json)
    (s : option Z) (c : Channel) :
  exchanges c !! x = Some ex -> parseBody (body r) = inr b ->
  statusCode r <> 429 ->
  isSuspensionUnauthorizedResponse (statusCode r) b = false ->
  notAnExpectedStatus s = false ->
  isPending (deferred ex) c = true ->
  let c' := step c (Respond x r s) in
  promises c' !! deferred ex = Some (Resolved (Some b)) /\
  (durationMillis ∘ request <$> exchanges c' !! x) = Some (clock c - start ex) /\
  timers c' = timers c /\ emitted c' = emitted c.
Proof.
  intros Hx Hb Hs Hsus Hexp Hp c'. subst c'. cbn [Channel.step]. unfold handleResponse.
  rewrite Hx, Hb. destruct (Z.eqb_spec (statusCode r) 429) as [|_]; [done|].
  unfold isBillingSuspensionUnauthorizedResponse. rewrite Hsus, Hexp. cbn [andb fst].
  unfold resolve.
  destruct (settle_fields (deferred ex) (Resolved (Some b)) (finishRequest x ex c).1)
    as (_ & _ & _ & Eex & Eem & Etm & _).
  destruct (finishRequest_fields x ex c) as (Fp & Ft & Fe & Fx). cbn zeta in *.
  destruct (finishRequest x ex c) as [c1 r1]. cbn [fst] in *.
  rewrite settle_pending by (unfold isPending; by rewrite Fp).
  rewrite Eex, Eem, Etm, Fp, Ft, Fe, Fx.
  pose proof (lookup_lt_Some _ _ _ Hx) as Lx.
  assert (deferred ex < length (promises c))%nat as Ld.
  { unfold isPending in Hp. destruct (promises c !! deferred ex) eqn:E; [|done].
    by eapply lookup_lt_Some. }
  rewrite !list_lookup_insert_eq by done. done.
Qed.

(** X7.  The 401 of a suspended account (a [details.message] that mentions
    "suspended") whose body carries an [error]: the promise is rejected
    with the suspension message, or with the billing message when
    [details.reason] mentions "billing suspension", followed by the
    method and path; [this.status] plays no part. *)
Theorem suspended_account_is_rejected (x : nat) (ex : Exchange) (r : Response)
    (b : Json) (s : option Z) (c : Channel) :
  exchanges c !! x = Some ex -> parseBody (body r) = inr b ->
  isSuspensionUnauthorizedResponse (statusCode r) b = true ->
  truthyVal (bodyError b) = true ->
  isPending (deferred ex) c = true ->
  let message :=
    if isBillingSuspensionUnauthorizedResponse (statusCode r) b
    then billingSuspensionErrorMessage else suspensionErrorMessage in
  statusCode r = 401 /\
  promises (step c (Respond x r s)) !! deferred ex =
    Some (Rejected
            (buildResponseError (responseHeaders r)
               (message +:+ " (" +:+ method (request ex) +:+ " " +:+
                path (request ex) +:+ ")"))).
Proof.
  intros Hx Hb Hsus He Hp message.
  assert (statusCode r = 401) as H401.
  { unfold isSuspensionUnauthorizedResponse in Hsus.
    destruct (Z.eqb_spec (statusCode r) 401); [done|]. by cbn in Hsus. }
  assert (truthy b = true) as Hbt.
  { unfold isSuspensionUnauthorizedResponse in Hsus.
    destruct (truthy b); [done|]. by rewrite andb_false_r in Hsus. }
  split; [done|]. subst message. cbn [Channel.step]. unfold handleResponse.
  rewrite Hx, Hb, H401. cbn [Z.eqb Pos.eqb].
  rewrite H401 in Hsus.
  destruct (finishRequest_fields x ex c) as (Fp & _). cbn zeta in Fp.
  assert (method (finishRequest x ex c).2 = method (request ex) /\
          path (finishRequest x ex c).2 = path (request ex)) as [Hm Hq] by done.
  destruct (finishRequest x ex c) as [c1 r1]. cbn [fst snd] in *.
  assert (deferred ex < length (promises c))%nat as Ld.
  { unfold isPending in Hp. destruct (promises c !! deferred ex) eqn:E; [|done].
    by eapply lookup_lt_Some. }
  rewrite Hsus.
  destruct (isBillingSuspensionUnauthorizedResponse 401 b); cbn [fst];
    rewrite failWebsocketRequest_error by done; unfold reject;
    rewrite settle_pending by (unfold isPending; by rewrite Fp);
    rewrite Fp, Hm, Hq; by apply list_lookup_insert_eq.
Qed.

(** *** joinGroup and registerPresence on a channel that is not connected *)

(** X8.  [joinGroup] on a channel that is not connected rejects the promise
    that the batch shares: nothing is accumulated and no timer is set,
    and the next call, on the channel connected again, returns this
    same promise, already rejected. *)
Theorem joinGroup_not_connected (l l' : list Json) (c : Channel) :
  connected c = false -> isPending (joinDeferred c) c = true ->
  let d := joinDeferred c in
  let c1 := (joinGroup l c).1 in
  let c2 := setConnected true c1 in
  (joinGroup l c).2 = d /\
  promises c1 !! d = Some (Rejected notConnectedMessage) /\
  joinGroups c1 = joinGroups c /\ timers c1 = timers c /\ emitted c1 = emitted c /\
  (joinGroup l' c2).2 = d /\
  promises (joinGroup l' c2).1 !! d = Some (Rejected notConnectedMessage).
Proof.
  intros Hc Hp d c1 c2. subst d c1 c2.
  assert (joinGroup l c = (reject (joinDeferred c) notConnectedMessage c, joinDeferred c))
    as E by (unfold joinGroup; by rewrite Hc).
  rewrite E. cbn [fst snd]. unfold reject.
  destruct (settle_fields (joinDeferred c) (Rejected notConnectedMessage) c)
    as (_ & _ & _ & _ & Eem & Etm & Ejg & Ejd & _).
  assert (promises (settle (joinDeferred c) (Rejected notConnectedMessage) c)
            !! joinDeferred c = Some (Rejected notConnectedMessage)) as Hr.
  { rewrite settle_pending by done. apply list_lookup_insert_eq.
    unfold isPending in Hp. destruct (promises c !! joinDeferred c) eqn:E'; [|done].
    by eapply lookup_lt_Some. }
  repeat split; try done.
  - unfold joinGroup. cbn [connected setConnected negb joinDeferred setJoinGroups].
    by case_match.
  - apply (joinGroup_settledAlike l'
             (setConnected true (settle (joinDeferred c) (Rejected notConnectedMessage) c)));
      [exact Hr|done].
Qed.

(** X9.  [registerPresence] on a channel that is not connected returns a new
    promise, rejected; the promises that existed, the one that the batch
    shares among them, are left as they are, nothing is accumulated and
    no timer is set. *)
Theorem registerPresence_not_connected (l : list Json) (c : Channel) :
  connected c = false ->
  let d := (registerPresence l c).2 in
  let c1 := (registerPresence l c).1 in
  d = length (promises c) /\
  promises c1 !! d = Some (Rejected notConnectedMessage) /\
  (forall d', (d' < length (promises c))%nat -> promises c1 !! d' = promises c !! d') /\
  presenceDeferred c1 = presenceDeferred c /\
  presenceEndpoints c1 = presenceEndpoints c /\
  timers c1 = timers c /\ emitted c1 = emitted c.
Proof.
  intros Hc d c1. subst d c1. unfold registerPresence. rewrite Hc. cbn [negb].
  destruct (defer c) as [c0 d0] eqn:Hd. unfold defer in Hd. simplify_eq.
  cbn [fst snd]. destruct (reject_fresh c notConnectedMessage) as [Hr Hem].
  cbn zeta in *. unfold defer in Hr, Hem. cbn [fst] in Hr, Hem.
  unfold reject in *.
  destruct (settle_fields (length (promises c)) (Rejected notConnectedMessage)
              (setPromises (promises c ++ [Pending]) c))
    as (_ & _ & _ & _ & _ & Etm & _ & _ & Epe & Epd & _).
  split; [done|]. split; [done|]. split; [|by repeat split].
  intros d' Hd'. rewrite settle_other by lia. cbn. by rewrite lookup_app_l.
Qed.

End ChannelBehaviour.

(* ===================================================================== *)
(** ** Batches of registerPresence *)
(* ===================================================================== *)

Section PresenceBatches.
Import Js Channel History.

Variable JSON_stringify : Json -> list Z.
Variable expandTemplate : string -> list (string * string) -> string.
Variable sdkHeaderValue : string.
Variable appToken : JsVal.

Local Abbreviation wsCall :=
  (Channel.wsCall JSON_stringify expandTemplate sdkHeaderValue appToken).
Local Abbreviation step :=
  (Channel.step JSON_stringify expandTemplate sdkHeaderValue appToken).
Local Abbreviation requestBodyLength := (Channel.requestBodyLength JSON_stringify).
Local Abbreviation requestOf := (Channel.requestOf expandTemplate).
Local Abbreviation frameOf := (Channel.frameOf sdkHeaderValue appToken).

Lemma isTrue_set (k g : string) (o : JsObject.t bool) :
  JsObject.isTrue g (JsObject.set k true o) = true <->
  (g = k /\ k <> "__proto__"%string) \/ JsObject.isTrue g o = true.
Proof.
  unfold JsObject.isTrue. rewrite own_set. case_decide as H.
  - split; [by left|done].
  - split; [by right|]. by intros [?|?].
Qed.

(** What a call accumulates: the strings of its list that are not
    registered, but for [__proto__]. *)
Lemma elem_of_addUnregistered (reg : JsObject.t bool) (eps : list Json)
    (acc : JsObject.t bool) (g : string) :
  g ∈ (addUnregistered reg eps acc).*1 <->
  g ∈ acc.*1 \/
  (JStr g ∈ eps /\ JsObject.isTrue g reg = false /\ g <> "__proto__"%string).
Proof.
  unfold addUnregistered. revert acc.
  induction eps as [|ep eps IH]; intros acc; cbn [foldl].
  - split; [auto|]. intros [?|[H _]]; [done|]. by apply elem_of_nil in H.
  - rewrite IH. setoid_rewrite elem_of_cons.
    destruct ep as [| | |s| |];
      try (split; [intros [?|(? & ? & ?)]; auto | intros [?|([?|?] & ? & ?)]; auto; done]).
    destruct (JsObject.isTrue s reg) eqn:Hs.
    + split; [intros [?|(? & ? & ?)]; auto|].
      intros [?|([[= ->]|?] & ? & ?)]; auto. congruence.
    + rewrite elem_of_set_names.
      split.
      * intros [[[-> ?]|?]|(? & ? & ?)]; auto 6.
      * intros [?|([[= ->]|?] & ? & ?)]; auto 6.
Qed.

Lemma NoDup_addUnregistered (reg : JsObject.t bool) (eps : list Json)
    (acc : JsObject.t bool) :
  NoDup acc.*1 -> NoDup (addUnregistered reg eps acc).*1.
Proof.
  unfold addUnregistered. revert acc.
  induction eps as [|ep eps IH]; intros acc H; [done|]. cbn [foldl].
  apply IH. destruct ep; try done.
  destruct (JsObject.isTrue s reg); [done|]. by apply NoDup_set_names.
Qed.

(** What a successful registration records: the entries of the list as
    property names, but for [__proto__]. *)
Lemma isTrue_markRegistered (ids : list Json) (reg : JsObject.t bool) (g : string) :
  JsObject.isTrue g (markRegistered ids reg) = true <->
  JsObject.isTrue g reg = true \/
  (g <> "__proto__"%string /\ exists i, i ∈ ids /\ toStr i = g).
Proof.
  unfold markRegistered. revert reg.
  induction ids as [|i ids IH]; intros reg; cbn [foldl].
  - split; [auto|]. intros [?|(_ & i & H & _)]; [done|]. by apply elem_of_nil in H.
  - rewrite IH, isTrue_set. split.
    + intros [[[-> Hne]|?]|(Hne & j & Hj & <-)].
      * right. split; [done|]. exists i. split; [left|done].
      * by left.
      * right. split; [done|]. exists j. split; [by right|done].
    + intros [?|(Hne & j & Hj & <-)]; [by left; right|].
      apply elem_of_cons in Hj as [->|Hj]; [by left; left|].
      right. split; [done|]. by exists j.
Qed.

(** A list that names none but registered endpoints, and [__proto__],
    accumulates nothing. *)
Lemma addUnregistered_all_registered (reg : JsObject.t bool) (eps : list Json)
    (acc : JsObject.t bool) :
  (forall s, JStr s ∈ eps ->
             JsObject.isTrue s reg = true \/ s = "__proto__"%string) ->
  addUnregistered reg eps acc = acc.
Proof.
  unfold addUnregistered.
  induction eps as [|ep eps IH]; intros H; [done|]. cbn [foldl].
  assert (forall s, JStr s ∈ eps ->
            JsObject.isTrue s reg = true \/ s = "__proto__"%string) as H'
    by (intros s Hs; apply H; by right).
  destruct ep as [| | |s| |]; try (by apply IH).
  destruct (H s ltac:(left)) as [-> | ->]; [by apply IH|].
  destruct (JsObject.isTrue "__proto__" reg); by apply IH.
Qed.

(** The call that finds nothing accumulated sets the timer. *)
Lemma registerPresence_first (l : list Json) (c : Channel) :
  connected c = true -> presenceEndpoints c = JsObject.empty -> timers c = [] ->
  registerPresence l c =
    (setTimers [{| due := clock c + 0; task := RegisterPresenceFlush l |}]
       (setPresenceEndpoints
          (addUnregistered (presenceRegistered c) l JsObject.empty) c),
     presenceDeferred c).
Proof.
  intros Hc He Ht. unfold registerPresence, setTimeout. rewrite Hc, He. cbn [negb].
  change (JsObject.keys JsObject.empty) with (@nil string).
  rewrite bool_decide_eq_true_2 by done. cbn.
  by rewrite Ht.
Qed.


(** The timer callback with endpoints accumulated sends them. *)
Lemma presence_flush_sends (c : Channel) (g : string) (gs : list string) (n : Z)
    (l : list Json) :
  connected c = true -> JsObject.keys (presenceEndpoints c) = g :: gs ->
  requestBodyLength (presenceParams (g :: gs)) = Some n -> n <= bodySizeLimit ->
  timers c = [{| due := clock c + 0; task := RegisterPresenceFlush l |}] ->
  let c' := step c FireTimer in
  let key := S (PendingRequests.counter (pendingRequests c)) in
  presenceEndpoints c' = JsObject.empty /\
  timers c' = [] /\
  emitted c' = emitted c ++
    [frameOf (requestOf (presenceParams (g :: gs)) key) (length (exchanges c))] /\
  reactions c' = reactions c ++
    [(S (length (promises c)), RegisterPresenceDone (presenceDeferred c) l)] /\
  jobs c' = jobs c /\
  promises c' = promises c ++ [Pending; Pending] /\
  presenceDeferred c' = length (promises c) /\
  presenceRegistered c' = presenceRegistered c /\
  connected c' = true.
Proof.
  intros Hconn Hel Hlen Hn Htm c' key. subst c' key.
  unfold Channel.step. rewrite Htm. cbn [Channel.runTask task].
  unfold Channel.registerPresenceFlush.
  cbn [presenceEndpoints setClock setTimers setPresenceEndpoints presenceDeferred defer
       promises setPromises setPresenceDeferred].
  rewrite Hel.
  erewrite wsCall_sent; [|by cbn|done|exact Hlen|exact Hn].
  cbn [fst]. unfold done, Channel.sent.
  cbn [promises setEmitted setExchanges setPendingRequests setPromises
       setPresenceDeferred length app].
  rewrite length_app. cbn [length].
  replace (length (promises c) + 1)%nat with (S (length (promises c))) by lia.
  assert (((promises c ++ [Pending]) ++ [Pending]) !! S (length (promises c))
          = Some Pending) as ->.
  { rewrite lookup_app_r; rewrite length_app; cbn; [|lia].
    by replace (S (length (promises c)) - (length (promises c) + 1))%nat
      with 0%nat by lia. }
  cbn. rewrite <- app_assoc.
  repeat split; done.
Qed.


End PresenceBatches.

(* ===================================================================== *)
(** ** Signals: from the socket to the call *)
(* ===================================================================== *)

Section SignalFacts.
Import Js Routing Signals.

(** X12.  A signal that [socketOnSignal] hands to [routeSignal], for a call
    with the signal's session: the routing method for its type exists,
    and fires the event of that type once, with the signal, or nothing
    when the type is bye; an offer and an answer set the call's
    connection to that of the sender, the other types leave the call as
    it is. *)
Theorem accepted_signal_reaches_its_handler (target : option string)
    (signal : Signal) (call : Call) :
  socketOnSignal target signal = Routes signal ->
  id call = sessionId signal ->
  exists call' fired name,
    successHandler (Some call) signal = Delivered call' fired /\
    (signalType signal, name) ∈ firedEvents /\
    (fired = [{| eventName := name; payload := signal |}] \/
     fired = [] /\ signalType signal = "bye"%string) /\
    call' =
      (if bool_decide (signalType signal ∈ ["offer"; "answer"]%string)
       then withConnectionId call (fromConnection signal) else call).
Proof.
  destruct signal as [ty sid fc]. cbn [signalType sessionId fromConnection].
  intros Hr Hid. unfold socketOnSignal in Hr. cbn [signalType] in Hr.
  destruct (String.eqb ty "ack"); [done|].
  destruct (negb (isSet target) || String.eqb ty EmptyString); [done|].
  cbn [orb] in Hr.
  destruct (bool_decide (ty ∈ knownSignals)) eqn:Hk; [|done].
  clear Hr. apply bool_decide_eq_true in Hk. unfold successHandler.
  cbn [sessionId signalType]. rewrite Hid, String.eqb_refl. cbn [negb].
  unfold knownSignals in Hk.
  repeat (apply elem_of_cons in Hk as [->|Hk]);
    [ .. | by apply elem_of_nil in Hk ].
  1-5: eexists _, _, _; split; [reflexivity|];
       split; [apply list_elem_of_In; cbn; tauto|]; split; [by left|done].
  change (firstUpper "bye") with (Some "Bye"%string). cbn match.
  change (routingMethods ("do" +:+ "Bye")) with (Some doBye). cbn match.
  unfold doBye.
  destruct (caller call && isSet (connectionId call) &&
            negb (bool_decide (connectionId call = fromConnection
               {| signalType := "bye"; sessionId := sid; fromConnection := fc |}))).
  - eexists _, _, "signal-hangup"%string. split; [reflexivity|].
    split; [apply list_elem_of_In; cbn; tauto|]. split; [by right; split|done].
  - eexists _, _, _. split; [reflexivity|].
    split; [apply list_elem_of_In; cbn; tauto|]. split; [by left|done].
Qed.

(** X13.  [socketOnSignal] hands a message to [routeSignal] exactly when it
    has a target and its type is one of the six known ones; of the other
    messages an ack is dropped and every other makes it throw.  So a
    message of the type unknown never reaches [doUnknown]. *)
Theorem socketOnSignal_routes_known_types_only (target : option string)
    (signal : Signal) :
  (socketOnSignal target signal = Routes signal <->
   isSet target = true /\ signalType signal ∈ knownSignals) /\
  (socketOnSignal target signal = Ignored <-> signalType signal = "ack"%string) /\
  (forall other, socketOnSignal target signal = Routes other ->
                 routingMethods ("do" +:+ default EmptyString (firstUpper (signalType other)))
                 <> Some doUnknown).
Proof.
  unfold socketOnSignal.
  destruct (String.eqb_spec (signalType signal) "ack") as [E|Hne].
  - split; [|split; [done|done]]. split; [done|]. intros [_ H]. rewrite E in H.
    exfalso. revert H. unfold knownSignals. rewrite !elem_of_cons, elem_of_nil.
    intros [?|[?|[?|[?|[?|[?|[]]]]]]]; done.
  - destruct (isSet target); cbn [negb orb].
    + destruct (String.eqb_spec (signalType signal) EmptyString) as [E|_]; cbn [orb].
      * split; [|split; [done|done]]. split; [done|]. intros [_ H]. rewrite E in H.
        exfalso. revert H. unfold knownSignals. rewrite !elem_of_cons, elem_of_nil.
        intros [?|[?|[?|[?|[?|[?|[]]]]]]]; done.
      * destruct (bool_decide (signalType signal ∈ knownSignals)) eqn:Hk; cbn [negb].
        -- apply bool_decide_eq_true in Hk. split; [done|]. split; [done|].
           intros other [= H]. subst other. revert Hk. unfold knownSignals.
           rewrite !elem_of_cons, elem_of_nil.
           intros [->|[->|[->|[->|[->|[->|[]]]]]]]; intros H;
             apply (f_equal (fun h => match h with
                                      | Some handler =>
                                          length (handler
                                            {| id := EmptyString; caller := false;
                                               connectionId := None |}
                                            {| signalType := EmptyString;
                                               sessionId := EmptyString;
                                               fromConnection := None |}).2
                                      | None => 0%nat
                                      end)) in H;
             by vm_compute in H.
        -- apply bool_decide_eq_false in Hk. split; [|done]. split; [done|]. by intros [_ ?].
    + split; [|done]. split; [done|by intros [? _]].
Qed.

(** X14.  Once an answer has been routed to the call of a caller, the call's
    connection is the one that answered, and a bye is passed on to the
    call exactly when it comes from that connection: the byes of the
    other connections of the callee are dropped. *)
Theorem bye_after_answer (call : Call) (answer bye : Signal) (winner : string) :
  caller call = true -> fromConnection answer = Some winner ->
  winner <> EmptyString ->
  let call1 := (doAnswer call answer).1 in
  connectionId call1 = Some winner /\
  (doBye call1 bye).1 = call1 /\
  (fromConnection bye = Some winner ->
   (doBye call1 bye).2 = [{| eventName := "signal-hangup"; payload := bye |}]) /\
  (fromConnection bye <> Some winner -> (doBye call1 bye).2 = []).
Proof.
  intros Hc Ha Hw call1. subst call1. unfold doAnswer, doBye. cbn.
  rewrite Hc, Ha. cbn.
  destruct (String.eqb_spec winner EmptyString) as [|_]; [done|]. cbn.
  split; [done|]. split; [by case_match|].
  split; intros H.
  - by rewrite bool_decide_eq_true_2.
  - by rewrite bool_decide_eq_false_2.
Qed.

End SignalFacts.

(* ===================================================================== *)
(** ** More on PendingRequests *)
(* ===================================================================== *)

Section ContainerFacts.
Import PendingRequests.
Context {A : Type}.

Local Abbreviation addAll :=
  (fun (p : PendingRequests.t A) (objs : list A) =>
     foldl (fun q o => (add q o).1) p objs).

Lemma arraySet_app (arr : list (option A)) (n : nat) (x : A) :
  (length arr <= n)%nat ->
  arraySet n x arr = arr ++ replicate (n - length arr) None ++ [Some x].
Proof. intros H. unfold arraySet. by rewrite decide_False by lia. Qed.

Lemma forEach_app {S : Type} (fn : A -> S -> S) (l1 l2 : list (option A)) (s : S) :
  forEach fn (l1 ++ l2) s = forEach fn l2 (forEach fn l1 s).
Proof. unfold forEach. apply foldl_app. Qed.

Lemma forEach_holes {S : Type} (fn : A -> S -> S) (k : nat) (s : S) :
  forEach fn (replicate k None) s = s.
Proof. unfold forEach. induction k as [|k IH]; [done|]. exact IH. Qed.

Lemma addAll_state (p : PendingRequests.t A) (objs : list A) :
  (length (contents p) <= counter p)%nat ->
  counter (addAll p objs) = (counter p + length objs)%nat /\
  (length (contents (addAll p objs)) <= counter (addAll p objs))%nat /\
  forall (S : Type) (fn : A -> S -> S) (s : S),
    forEach fn (contents (addAll p objs)) s
    = foldl (fun acc o => fn o acc) (forEach fn (contents p) s) objs.
Proof.
  revert p. induction objs as [|o objs IH]; intros p Hp.
  - cbn. split; [lia|]. done.
  - cbn [foldl]. destruct (IH (add p o).1) as (E1 & E2 & E3).
    { cbn. rewrite arraySet_app by done. rewrite !length_app, length_replicate. cbn. lia. }
    rewrite E1. split; [cbn; lia|]. split; [by rewrite E1 in E2|].
    intros S fn s. rewrite E3. f_equal. unfold add. cbn [fst contents].
    rewrite arraySet_app by done. by rewrite !forEach_app, forEach_holes.
Qed.

(** X15.  [reset] calls its function once for each object added since the
    container was last emptied, in the order in which they were added,
    and leaves the container empty; the counter goes on from where it
    was, so the next key is a new one. *)
Theorem reset_visits_in_order_of_adding {St : Type} (fn : A -> St -> St)
    (objs : list A) (s : St) (fn0 : option (A -> St -> St)) (s0 : St)
    (before : PendingRequests.t A) (obj : A) :
  let p0 := (reset fn0 before s0).1 in
  let p := addAll p0 objs in
  reset (Some fn) p s =
    ({| contents := []; counter := (counter before + length objs)%nat |},
     foldl (fun acc o => fn o acc) s objs) /\
  (add (reset (Some fn) p s).1 obj).2 = S (counter before + length objs)%nat.
Proof.
  intros p0 p. destruct (addAll_state p0 objs) as (E1 & _ & E3); [cbn; lia|].
  fold p in E1, E3. unfold reset, add. cbn [fst snd counter contents].
  rewrite E1, E3. by cbn.
Qed.

(** X16.  Of two objects added one after the other, [remove] with the key of
    the first deletes the second: the first stays, and what [reset]
    visits afterwards is what it would have visited had the second
    never been added. *)
Theorem remove_deletes_the_next_object (p : PendingRequests.t A) (a b : A) :
  (length (contents p) <= counter p)%nat ->
  let p1 := (add p a).1 in
  let ka := (add p a).2 in
  let p2 := (add p1 b).1 in
  let p3 := remove p2 ka in
  ka = S (counter p) /\ (add p1 b).2 = S ka /\
  contents p2 !! ka = Some (Some b) /\
  contents p3 !! ka = Some None /\
  contents p3 !! counter p = Some (Some a) /\
  forall (St : Type) (fn : A -> St -> St) (s : St),
    forEach fn (contents p3) s = forEach fn (contents p1) s.
Proof.
  intros Hp p1 ka p2 p3. subst p1 ka p2 p3. cbn.
  rewrite (arraySet_app (contents p)) by done.
  set (l1 := contents p ++ replicate (counter p - length (contents p)) None ++ [Some a]).
  assert (length l1 = S (counter p)) as Hl1.
  { subst l1. rewrite !length_app, length_replicate. cbn. lia. }
  rewrite (arraySet_app l1) by lia. rewrite Hl1.
  replace (S (counter p) - S (counter p))%nat with 0%nat by lia. cbn [replicate app].
  unfold arrayDelete.
  assert (<[S (counter p) := None]> (l1 ++ [Some b]) = l1 ++ [None]) as ->.
  { rewrite <- Hl1. apply insert_last. }
  split; [done|]. split; [done|].
  split; [rewrite <- Hl1; apply lookup_last|].
  split; [rewrite <- Hl1; apply lookup_last|].
  split.
  - rewrite lookup_app_l by lia. subst l1. rewrite app_assoc.
    replace (counter p) with (length (contents p ++ replicate (counter p - length (contents p)) None)) at 1.
    + apply lookup_last.
    + rewrite length_app, length_replicate. lia.
  - intros St fn s. unfold forEach. by rewrite foldl_app.
Qed.

End ContainerFacts.

(* ===================================================================== *)
(** ** More on the body size *)
(* ===================================================================== *)

Section BodySizeFacts.
Import Encoding.

Lemma utf8_ascii (json : list Z) :
  Forall (fun c => 0 <= c < 128) json -> utf8 json = Some json.
Proof.
  induction 1 as [|c json Hc _ IH]; [done|].
  cbn [utf8]. unfold isLowSurrogate, isHighSurrogate.
  destruct (Z.leb_spec 56320 c); [lia|]. destruct (Z.leb_spec 55296 c); [lia|].
  cbn [andb]. rewrite IH. unfold utf8Octets.
  by destruct (Z.ltb_spec c 128); [|lia].
Qed.

(** X17.  The size of a text of ASCII characters only is its length: the
    characters that [encodeURI] escapes count once, like the others. *)
Theorem bodyLength_of_ascii (json : list Z) :
  Forall (fun c => 0 <= c < 128) json ->
  bodyLength json = Some (Z.of_nat (length json)).
Proof.
  intros H. apply bodyLength_utf8; [|by apply utf8_ascii].
  eapply Forall_impl; [exact H|]. unfold isCodeUnit. cbn. lia.
Qed.

Lemma utf8Octets_length (v : Z) :
  (1 <= length (utf8Octets v) <= 4)%nat /\
  (v < 65536 -> (length (utf8Octets v) <= 3)%nat) /\
  (65536 <= v -> length (utf8Octets v) = 4%nat).
Proof.
  unfold utf8Octets.
  destruct (Z.ltb_spec v 128); [cbn; lia|].
  destruct (Z.ltb_spec v 2048); [cbn; lia|].
  destruct (Z.ltb_spec v 65536); cbn; lia.
Qed.

Lemma utf8_length (json bs : list Z) :
  Forall isCodeUnit json -> utf8 json = Some bs ->
  (length json <= length bs <= 3 * length json)%nat.
Proof.
  remember (length json) as n eqn:Hn. revert json bs Hn.
  induction (lt_wf n) as [n _ IH]. intros json bs -> Hj Hu.
  destruct json as [|c rest]; [cbn in Hu; simplify_eq; cbn; lia|].
  apply Forall_cons in Hj as [Hc Hrest]. cbn [utf8] in Hu.
  destruct (isLowSurrogate c) eqn:Hlo; [done|].
  destruct (isHighSurrogate c) eqn:Hhi.
  - destruct rest as [|lo rest']; [done|].
    destruct (isLowSurrogate lo) eqn:Hlo'; [|done].
    destruct (utf8 rest') as [bs'|] eqn:Hu'; [|done]. cbn in Hu. simplify_eq.
    apply Forall_cons in Hrest as [_ Hrest'].
    pose proof (IH (length rest') ltac:(cbn; lia) rest' bs' eq_refl Hrest' Hu') as Hb.
    destruct (utf8Octets_length (pairValue c lo)) as (_ & _ & H4).
    pose proof (pairValue_range c lo Hhi Hlo') as Hr.
    rewrite length_app, H4 by lia. cbn [length]. lia.
  - destruct (utf8 rest) as [bs'|] eqn:Hu'; [|done]. cbn in Hu. simplify_eq.
    pose proof (IH (length rest) ltac:(cbn; lia) rest bs' eq_refl Hrest Hu') as Hb.
    destruct (utf8Octets_length c) as (H1 & H3 & _).
    unfold isCodeUnit in Hc. rewrite length_app. cbn [length]. lia.
Qed.

(** X18.  The size of a text is at least its length in code units and at most
    three times that. *)
Theorem bodyLength_bounds (json : list Z) (n : Z) :
  Forall isCodeUnit json -> bodyLength json = Some n ->
  Z.of_nat (length json) <= n <= 3 * Z.of_nat (length json).
Proof.
  intros Hj Hn.
  destruct (utf8 json) as [bs|] eqn:Hu.
  - rewrite (bodyLength_utf8 json bs Hj Hu) in Hn. simplify_eq.
    pose proof (utf8_length json bs Hj Hu). lia.
  - apply (bodyLength_URIError json Hj) in Hu. congruence.
Qed.

End BodySizeFacts.

(* ===================================================================== *)
(** ** Strings, and the headers of an HTTP response *)
(* ===================================================================== *)

Section TextFacts.
Import Js Text Http.

Lemma append_cons (x : ascii) (a b : string) :
  String x a +:+ b = String x (a +:+ b).
Proof. reflexivity. Qed.

Lemma append_assoc' (a b c : string) : (a +:+ b) +:+ c = a +:+ (b +:+ c).
Proof. induction a as [|x a IH]; [done|]. by rewrite !append_cons, IH. Qed.

Lemma append_empty_r (a : string) : a +:+ EmptyString = a.
Proof. induction a as [|x a IH]; [done|]. by rewrite append_cons, IH. Qed.

Lemma length_append (a b : string) :
  String.length (a +:+ b) = (String.length a + String.length b)%nat.
Proof. induction a as [|x a IH]; [done|]. rewrite append_cons. cbn. by rewrite IH. Qed.

Lemma prefix_append (a b : string) : String.prefix a (a +:+ b) = true.
Proof.
  induction a as [|x a IH]; [by destruct b|].
  rewrite append_cons. cbn. by destruct (ascii_dec x x).
Qed.

Lemma prefix_other (ch c : ascii) (sep s : string) :
  c <> ch -> String.prefix (String ch sep) (String c s) = false.
Proof. intros H. cbn. by destruct (ascii_dec ch c) as [->|]. Qed.

Lemma without_cons (ch c : ascii) (s : string) :
  without ch (String c s) <-> c <> ch /\ without ch s.
Proof.
  unfold without. cbn [list_ascii_of_string].
  split; [intros H; by apply Forall_cons in H | intros [? ?]; by apply Forall_cons_2].
Qed.

Lemma without_append (ch : ascii) (a b : string) :
  without ch (a +:+ b) <-> without ch a /\ without ch b.
Proof.
  induction a as [|x a IH].
  - split; [intros H; split; [apply Forall_nil_2|done] | by intros [_ H]].
  - rewrite append_cons, !without_cons, IH. tauto.
Qed.

Lemma splitFrom_skip (sep a rest : string) :
  splitFrom sep (String.length a) (a +:+ rest) = splitFrom sep 0 rest.
Proof. induction a as [|x a IH]; [done|]. rewrite append_cons. exact IH. Qed.

(** Up to the first separator. *)
Lemma split_piece (ch : ascii) (sep a rest : string) :
  without ch a ->
  split (String ch sep) (a +:+ String ch sep +:+ rest)
  = a :: split (String ch sep) rest.
Proof.
  intros Ha. unfold split. induction a as [|x a IH].
  - change (EmptyString +:+ String ch sep +:+ rest) with (String ch (sep +:+ rest)).
    cbn [splitFrom].
    change (String ch (sep +:+ rest)) with (String ch sep +:+ rest).
    rewrite prefix_append. f_equal. cbn [String.length].
    replace (S (String.length sep) - 1)%nat with (String.length sep) by lia.
    apply splitFrom_skip.
  - apply without_cons in Ha as [Hx Ha].
    change (String x a +:+ String ch sep +:+ rest)
      with (String x (a +:+ String ch sep +:+ rest)).
    cbn [splitFrom]. rewrite prefix_other by done. by rewrite IH.
Qed.

(** Without a separator. *)
Lemma split_whole (ch : ascii) (sep a : string) :
  without ch a -> split (String ch sep) a = [a].
Proof.
  intros Ha. unfold split. induction a as [|x a IH]; [done|].
  apply without_cons in Ha as [Hx Ha].
  cbn [splitFrom]. rewrite prefix_other by done. by rewrite IH.
Qed.

Lemma indexOf_after (ch : ascii) (needle a rest : string) :
  without ch a ->
  indexOf (String ch needle) (a +:+ String ch needle +:+ rest)
  = Some (String.length a).
Proof.
  intros Ha. induction a as [|x a IH].
  - change (EmptyString +:+ String ch needle +:+ rest)
      with (String ch needle +:+ rest).
    destruct (String ch needle +:+ rest) eqn:E; [done|].
    cbn [indexOf]. rewrite <- E. by rewrite prefix_append.
  - apply without_cons in Ha as [Hx Ha].
    change (String x a +:+ String ch needle +:+ rest)
      with (String x (a +:+ String ch needle +:+ rest)).
    cbn [indexOf]. rewrite prefix_other by done. by rewrite IH.
Qed.

Lemma substringTo_append (a rest : string) :
  substringTo (String.length a) (a +:+ rest) = a.
Proof.
  induction a as [|x a IH]; [by destruct rest|].
  rewrite append_cons. cbn. by rewrite IH.
Qed.

Lemma substringFrom_append (a rest : string) :
  substringFrom (String.length a) (a +:+ rest) = rest.
Proof.
  induction a as [|x a IH]; [by destruct rest|]. rewrite append_cons. exact IH.
Qed.

(** A line ["name: value"] adds the header. *)
Lemma addPair_line (result : JsObject.t string) (k v : string) :
  k <> EmptyString -> without ":" k ->
  addPair result (k +:+ ": " +:+ v) = JsObject.set k v result.
Proof.
  intros Hk Hc. unfold addPair.
  rewrite (indexOf_after ":" " " k v Hc).
  destruct k as [|x k]; [done|]. cbn [String.length].
  f_equal.
  - apply (substringTo_append (String x k)).
  - replace (S (String.length k) + 2)%nat
      with (String.length (String x k +:+ ": ")).
    + rewrite <- append_assoc'. apply substringFrom_append.
    + rewrite length_append. cbn. lia.
Qed.

Lemma split_headerBlock (hs : list (string * string)) :
  Forall (fun kv => without CR kv.1 /\ without CR kv.2) hs ->
  split CRLF (headerBlock hs)
  = ((fun kv => kv.1 +:+ ": " +:+ kv.2) <$> hs) ++ [EmptyString].
Proof.
  induction 1 as [|[k v] hs [Hk Hv] _ IH]; [done|].
  unfold headerBlock in *.
  assert (forall rest : string,
            split CRLF (headerLine (k, v) +:+ rest)
            = (k +:+ ": " +:+ v) :: split CRLF rest) as Hline.
  { intros rest. unfold headerLine. cbn [fst snd].
    rewrite <- !append_assoc'. rewrite (append_assoc' _ CRLF rest).
    rewrite (append_assoc' k ": " v).
    apply (split_piece CR (String LF EmptyString)).
    apply without_append. split; [done|].
    apply without_append. split; [|done].
    repeat (apply Forall_cons_2; [done|]). apply Forall_nil_2. }
  destruct hs as [|kv hs].
  - change (String.concat EmptyString (headerLine <$> [(k, v)]))
      with (headerLine (k, v)).
    specialize (Hline EmptyString). rewrite append_empty_r in Hline.
    by rewrite Hline.
  - change (String.concat EmptyString (headerLine <$> (k, v) :: kv :: hs))
      with (headerLine (k, v) +:+
            String.concat EmptyString (headerLine <$> kv :: hs)).
    by rewrite Hline, IH.
Qed.

Lemma foldl_addPair (hs : list (string * string)) (m : JsObject.t string) :
  Forall (fun kv => kv.1 <> EmptyString /\ without ":" kv.1) hs ->
  foldl addPair m ((fun kv => kv.1 +:+ ": " +:+ kv.2) <$> hs)
  = foldl (fun acc kv => JsObject.set kv.1 kv.2 acc) m hs.
Proof.
  intros H. revert m. induction H as [|[k v] hs [Hk Hc] _ IH]; intros m; [done|].
  cbn [fmap list_fmap foldl fst snd]. rewrite addPair_line by done. apply IH.
Qed.

(** Reading the object that a list of headers leaves: the value of the
    last header of the name, and nothing under [__proto__]. *)
Lemma own_foldl_set (hs : list (string * string)) (k : string) :
  JsObject.own k (foldl (fun acc kv => JsObject.set kv.1 kv.2 acc) JsObject.empty hs)
  = if decide (k = "__proto__"%string) then None
    else (list_to_map (reverse hs) : gmap string string) !! k.
Proof.
  induction hs as [|[k' v'] hs IH] using rev_ind.
  - cbn. by case_decide.
  - rewrite foldl_app, reverse_app. cbn [foldl reverse rev_append app fst snd].
    rewrite own_set, IH. cbn [list_to_map foldr uncurry fst snd].
    destruct (decide (k = "__proto__"%string)) as [->|Hne].
    + by rewrite decide_False by (by intros [<- ?]).
    + destruct (decide (k = k')) as [<-|Hkk].
      * rewrite decide_True by done. by rewrite lookup_insert_eq.
      * rewrite decide_False by tauto. by rewrite lookup_insert_ne.
Qed.

Lemma NoDup_foldl_set (hs : list (string * string)) (o : JsObject.t string) :
  NoDup o.*1 ->
  NoDup (foldl (fun acc kv => JsObject.set kv.1 kv.2 acc) o hs).*1.
Proof.
  revert o. induction hs as [|kv hs IH]; intros o H; [done|].
  cbn [foldl]. by apply IH, NoDup_set_names.
Qed.

Lemma headerBlock_nonempty (kv : string * string) (hs : list (string * string)) :
  headerBlock (kv :: hs) <> EmptyString.
Proof.
  unfold headerBlock. destruct kv as [k v]. intros H.
  assert (exists rest, String.concat EmptyString (headerLine <$> (k, v) :: hs)
                       = headerLine (k, v) +:+ rest) as [rest E].
  { destruct hs; [exists EmptyString; by rewrite append_empty_r|by eexists]. }
  rewrite E in H. apply (f_equal String.length) in H. unfold headerLine in H.
  rewrite !length_append in H. cbn in H. lia.
Qed.

(** X19.  Reading back the header block of a response: of the block that
    lists the headers [hs], each with a name that is not empty and
    holds neither a colon nor a CR and with a value without CR,
    [getAllResponseHeaders] makes the object that [result[name] = value]
    leaves, header after header: each name is a property once, read
    with the value of the last header of that name; a header named
    [__proto__] leaves no property.  A value may hold a colon and a
    space. *)
Theorem getAllResponseHeaders_reads_the_block (hs : list (string * string)) :
  Forall (fun kv => kv.1 <> EmptyString /\ without ":" kv.1 /\
                    without CR kv.1 /\ without CR kv.2) hs ->
  let result := getAllResponseHeaders (Some (headerBlock hs)) in
  result = foldl (fun acc kv => JsObject.set kv.1 kv.2 acc) JsObject.empty hs /\
  NoDup result.*1 /\
  (forall k, k ∈ result.*1 <-> k ∈ hs.*1 /\ k <> "__proto__"%string) /\
  (forall k, JsObject.own k result =
             if decide (k = "__proto__"%string) then None
             else (list_to_map (reverse hs) : gmap string string) !! k).
Proof.
  intros H result.
  assert (result = foldl (fun acc kv => JsObject.set kv.1 kv.2 acc) JsObject.empty hs)
    as E.
  { subst result. unfold getAllResponseHeaders.
    destruct hs as [|kv hs]; [done|].
    destruct (String.eqb_spec (headerBlock (kv :: hs)) EmptyString) as [E|_];
      [by apply headerBlock_nonempty in E|].
    rewrite split_headerBlock by (eapply Forall_impl; [exact H|]; cbn; tauto).
    rewrite foldl_app. cbn [foldl].
    rewrite foldl_addPair by (eapply Forall_impl; [exact H|]; cbn; tauto).
    unfold addPair at 1. by cbn [indexOf String.prefix]. }
  assert (forall k, JsObject.own k result =
            if decide (k = "__proto__"%string) then None
            else (list_to_map (reverse hs) : gmap string string) !! k) as Hown
    by (intros k; rewrite E; apply own_foldl_set).
  split; [exact E|]. split; [rewrite E; by apply NoDup_foldl_set, NoDup_nil|].
  split; [|exact Hown].
  intros k. rewrite <- own_names, Hown.
  destruct (decide (k = "__proto__"%string)) as [->|Hne].
  - split; [by intros [? ?]|by intros [_ ?]].
  - split.
    + intros [v Hv]. split; [|done].
      apply elem_of_list_to_map_2 in Hv. rewrite elem_of_reverse in Hv.
      apply list_elem_of_fmap. exists (k, v). split; [reflexivity|exact Hv].
    + intros [Hin _].
      destruct ((list_to_map (reverse hs) : gmap string string) !! k) eqn:Hl;
        [by eexists|].
      apply not_elem_of_list_to_map in Hl.
      rewrite fmap_reverse, elem_of_reverse in Hl. done.
Qed.

End TextFacts.

(* ===================================================================== *)
(** ** The HTTP side *)
(* ===================================================================== *)

Section HttpFacts.
Import Js Text Http.

(** *** makeParamString *)

Lemma omap_formatParam_skipped (fs1 fs2 : list (string * JsVal)) (k : string) (v : JsVal) :
  formatParam k v = None ->
  omap (fun '(name, value) => formatParam name value) (fs1 ++ (k, v) :: fs2)
  = omap (fun '(name, value) => formatParam name value) (fs1 ++ fs2).
Proof. intros H. rewrite !omap_app. cbn. by rewrite H. Qed.

(** X20.  A parameter whose value is an object or [null] is left out of the
    query string, and the string is empty exactly when every parameter
    is one of these. *)
Theorem makeParamString_leaves_objects_out (fs1 fs2 : list (string * JsVal))
    (k : string) (v : Json) :
  (v = JNull \/ exists fields, v = JObj fields) ->
  makeParamString (Some (fs1 ++ (k, Some v) :: fs2)) = makeParamString (Some (fs1 ++ fs2)) /\
  (makeParamString (Some (fs1 ++ fs2)) = EmptyString <->
   Forall (fun kv => kv.2 = Some JNull \/ exists fields, kv.2 = Some (JObj fields))
          (fs1 ++ fs2)).
Proof.
  intros Hv. split.
  - unfold makeParamString. rewrite omap_formatParam_skipped; [done|].
    by destruct Hv as [->|[fields ->]].
  - generalize (fs1 ++ fs2) as fs. intros fs. unfold makeParamString.
    assert (omap (fun '(name, value) => formatParam name value) fs = [] <->
            Forall (fun kv => kv.2 = Some JNull \/ exists fields, kv.2 = Some (JObj fields)) fs)
      as Hiff.
    { induction fs as [|[name value] fs IH]; [by split; [intros; apply Forall_nil_2|]|].
      cbn [omap list_omap]. rewrite Forall_cons. cbn [snd].
      destruct value as [[| | | | |]|]; cbn [formatParam]; rewrite ?IH;
        try (split; [done|]; intros [[?|[? ?]] _]; done).
      - split; [intros; split; [by left|done]|by intros [_ ?]].
      - split; [intros; split; [right; by eexists|done]|by intros [_ ?]]. }
    destruct (omap _ fs) eqn:E.
    + split; [intros _; by apply Hiff|done].
    + split; [done|]. intros H. by apply Hiff in H.
Qed.

(** X21.  Nothing is escaped: a value that holds ["&name=value"] reads in the
    query string as a parameter of its own. *)
Theorem makeParamString_does_not_escape (a b v w : string) :
  makeParamString (Some [(a, Some (JStr (v +:+ "&" +:+ b +:+ "=" +:+ w)))])
  = makeParamString (Some [(a, Some (JStr v)); (b, Some (JStr w))]).
Proof.
  unfold makeParamString. cbn [omap list_omap formatParam toStr String.concat].
  f_equal. by rewrite !append_assoc'.
Qed.

(** *** The callback of call *)

Lemma prefix_buildResponseError (h : JsVal) (p rest : string) :
  String.prefix p (Channel.buildResponseError h (p +:+ rest)) = true.
Proof.
  unfold Channel.buildResponseError.
  repeat case_match; rewrite ?append_assoc'; apply prefix_append.
Qed.

(** X22.  When the request is complete with a status other than 0, [call]
    resolves its promise exactly for the statuses 200, 204, 205, 302,
    401, 403, 404 and 418, with a response that carries the status; for
    every other status it rejects the promise, whatever the body is, with
    a message on the rate limit for a 429 and on the unexpected code
    otherwise. *)
Theorem call_resolves_expected_statuses_only (uri : string) (params : JsVal) (xhr : Xhr) :
  readyState xhr = 4 -> status xhr <> 0 ->
  let expected := bool_decide (status xhr ∈ [200; 204; 205; 302; 401; 403; 404; 418]) in
  match onreadystatechange uri params xhr with
  | Resolve r => expected = true /\ statusCode r = status xhr
  | Reject message =>
      expected = false /\
      String.prefix (if status xhr =? 429 then "Rate limit of "
                     else "unexpected response code " +:+ pretty (status xhr))
                    message = true
  | NotReady => False
  end.
Proof.
  intros Hr Hs expected. subst expected. unfold onreadystatechange.
  rewrite Hr. cbn [Z.eqb Pos.eqb negb].
  destruct (Z.eqb_spec (status xhr) 0) as [|_]; [done|].
  unfold Channel.notAnExpectedStatus.
  destruct (bool_decide (status xhr ∈ [200; 204; 205; 302; 401; 403; 404; 418]));
    cbn [negb]; [done|].
  destruct (status xhr =? 429).
  - split; [done|]. apply (prefix_buildResponseError _ "Rate limit of ").
  - split; [done|].
    rewrite <- (append_empty_r ("unexpected response code " +:+ pretty (status xhr))) at 2.
    apply prefix_buildResponseError.
Qed.

(** *** doOpen and getToken *)

(** X23.  [doOpen] succeeds on a 200 only: when the request is complete, the
    promise is resolved, and [appToken] set to the [token] of the body,
    only if the status is 200; for every other status the promise is
    rejected with a message that starts with "Couldn't authenticate
    app. "; a 200 whose body is empty or [null] makes the handler throw
    a TypeError. *)
Theorem doOpen_succeeds_on_200_only (uri : string) (params : JsVal) (xhr : Xhr) :
  readyState xhr = 4 ->
  match handle doOpenFulfilled doOpenRejected (onreadystatechange uri params xhr) with
  | Some (Done value appToken) =>
      status xhr = 200 /\ value = None /\
      exists r, onreadystatechange uri params xhr = Resolve r /\
                getProp (body r) "token" = Some appToken
  | Some Threw =>
      status xhr = 200 /\
      (response xhr = EmptyString \/ json xhr = Some JNull)
  | Some (Failed message) =>
      status xhr <> 200 /\
      String.prefix "Couldn't authenticate app. " message = true
  | None => False
  end.
Proof.
  intros Hr. unfold onreadystatechange.
  rewrite Hr. cbn [Z.eqb Pos.eqb negb].
  destruct (Z.eqb_spec (status xhr) 0) as [E0|_].
  { cbn. split; [lia|done]. }
  destruct (Channel.notAnExpectedStatus (Some (status xhr))) eqn:He; cbn [negb].
  - assert (status xhr <> 200) as Hne.
    { intros E. rewrite E in He. by vm_compute in He. }
    destruct (status xhr =? 429); cbn; (split; [done|]);
      apply (prefix_append "Couldn't authenticate app. ").
  - cbn [handle]. unfold doOpenFulfilled. cbn [statusCode body headers].
    destruct (Z.eqb_spec (status xhr) 200) as [E|Hne].
    + destruct (String.eqb_spec (response xhr) EmptyString) as [Er|Hr']; cbn [negb].
      * cbn. split; [done|]. by left.
      * destruct (json xhr) as [v|] eqn:Hj.
        -- destruct (getProp v "token") as [t|] eqn:Ht.
           ++ split; [done|]. split; [done|]. eexists. split; [reflexivity|].
              cbn [body]. by destruct (String.eqb_spec (response xhr) EmptyString).
           ++ split; [done|]. right. by destruct v.
        -- cbn. split; [done|]. split; [done|]. eexists. split; [reflexivity|].
           cbn [body]. by destruct (String.eqb_spec (response xhr) EmptyString).
    + split; [done|]. apply prefix_buildResponseError.
Qed.

(** X24.  [getToken] resolves with the [tokenId] of the body only on a 200
    that has one; a 200 without it is rejected, and as the table of
    errors has no message for 200 the message ends in "undefined". *)
Theorem getToken_needs_a_tokenId (uri : string) (params : JsVal) (xhr : Xhr) (v : Json) :
  readyState xhr = 4 -> status xhr = 200 ->
  response xhr <> EmptyString -> json xhr = Some v ->
  let tokenId := if truthy v then default None (getProp v "tokenId") else None in
  handle getTokenFulfilled getTokenRejected (onreadystatechange uri params xhr)
  = Some (if truthyVal tokenId then Done tokenId tokenId
          else Failed (Channel.buildResponseError
                         (Some (asObject (getAllResponseHeaders (allResponseHeaders xhr))))
                         "Couldn't get a developer mode token. undefined")).
Proof.
  intros Hr Hs Hn Hj tokenId. subst tokenId. unfold onreadystatechange.
  rewrite Hr, Hs, Hj. cbn [Z.eqb Pos.eqb negb].
  destruct (String.eqb_spec (response xhr) EmptyString); [done|]. cbn [negb].
  change (Channel.notAnExpectedStatus (Some 200)) with false. cbn [negb handle].
  unfold getTokenFulfilled. cbn [statusCode body headers Z.eqb Pos.eqb andb].
  unfold failure. cbn [statusCode body error].
  unfold Channel.isBillingSuspensionUnauthorizedResponse,
    Channel.isSuspensionUnauthorizedResponse. cbn [Z.eqb Pos.eqb andb].
  destruct (truthy v); [|done].
  destruct (getProp v "tokenId") as [t|]; [|done]. done.
Qed.

End HttpFacts.

(* ===================================================================== *)
(** ** Reconnecting *)
(* ===================================================================== *)

Section ReconnectFacts.
Import Reconnect.

(** The delay after [k] failures in a row. *)
Local Abbreviation backoff := (fun k : nat => Z.min (2500 * 2 ^ Z.of_nat k) 300000).

Lemma backoff_next (k : nat) :
  (if maxReconnectTimeout <? 2 * backoff k then maxReconnectTimeout else 2 * backoff k)
  = backoff (S k).
Proof.
  unfold maxReconnectTimeout. change (5 * 60 * 1000) with 300000.
  rewrite Nat2Z.inj_succ, Z.pow_succ_r by lia.
  assert (0 < 2 ^ Z.of_nat k) by (apply Z.pow_pos_nonneg; lia).
  destruct (Z.ltb_spec 300000 (2 * Z.min (2500 * 2 ^ Z.of_nat k) 300000)); lia.
Qed.

Local Abbreviation next :=
  (fun (k : nat) (a : Attempt) =>
     match a with ConnectFails _ => S k | _ => 0%nat end).

(** After [k] failed connections in a row, each further failure sets
    the timer of the next attempt by the failures in a row up to it. *)
Lemma delays_of_failures (attempts : list Attempt) (s : State) (k : nat) :
  reconnectTimeout s = Some (backoff k) -> Forall fails attempts ->
  delays attempts s
  = (fun i => backoff (foldl next k (take (S i) attempts)))
      <$> seq 0%nat (length attempts).
Proof.
  intros Hs H. revert s k Hs.
  induction H as [|a attempts Ha _ IH]; intros s k Hs; [done|].
  cbn [length seq fmap list_fmap take foldl].
  rewrite <- fmap_S_seq, <- list_fmap_compose.
  destruct a as [after|after|after]; [| |done];
    cbn [delays doReconnect]; unfold reconnect;
    cbn [reconnectSetting reconnectTimeout negb].
  - rewrite Hs, backoff_next. f_equal. by apply IH.
  - change (if maxReconnectTimeout <? 2500 then maxReconnectTimeout else 2500)
      with (backoff 0%nat).
    f_equal. by apply IH.
Qed.

(** The first success ends the run. *)
Lemma delays_until_success (attempts rest : list Attempt) (after : Session)
    (s : State) :
  Forall fails attempts ->
  delays (attempts ++ Succeeds after :: rest) s = delays attempts s.
Proof.
  intros H. revert s. induction H as [|a attempts Ha _ IH]; intros s; [done|].
  destruct a as [x|x|x]; [| |done];
    cbn [app delays doReconnect]; unfold reconnect;
    cbn [reconnectSetting negb]; by rewrite IH.
Qed.

(** X25.  After a disconnection, the attempts to connect again are made
    after 2500 ms, then after twice the delay before for as long as the
    connection itself fails, but never after more than five minutes:
    the attempt that follows [k] failed connections in a row is made
    after min(2500 * 2^k, 300000) ms.  An attempt in which the
    connection was made and a later step failed is followed by an
    attempt after 2500 ms again.  The first success ends the run, and
    leaves the channel ready to start again at 2500 ms. *)
Theorem reconnect_delays_double_up_to_five_minutes (attempts : list Attempt)
    (after : Session) (rest : list Attempt) (s : State) :
  reconnectSetting s = true -> reconnectTimeout s = None ->
  Forall fails attempts ->
  delaysFrom attempts s
  = (fun i => backoff (streak (take i attempts))) <$> seq 0%nat (S (length attempts)) /\
  delaysFrom (attempts ++ Succeeds after :: rest) s = delaysFrom attempts s /\
  Forall (fun t => 2500 <= t <= 300000) (delaysFrom attempts s) /\
  forall s', doReconnect (Succeeds after) s'
             = ({| reconnectSetting := true; reconnectTimeout := None;
                   session := after |}, None).
Proof.
  intros Hset Ht Hf.
  assert (delaysFrom attempts s
          = (fun i => backoff (streak (take i attempts)))
              <$> seq 0%nat (S (length attempts))) as E.
  { unfold delaysFrom, reconnect. rewrite Hset, Ht. cbn [negb].
    change (if maxReconnectTimeout <? 2500 then maxReconnectTimeout else 2500)
      with (backoff 0%nat).
    cbn [seq fmap list_fmap take]. f_equal.
    rewrite <- fmap_S_seq, <- list_fmap_compose.
    by apply delays_of_failures. }
  split; [exact E|]. split.
  { unfold delaysFrom. destruct (reconnect s) as [s' [t|]]; [|done].
    by rewrite delays_until_success. }
  split; [|done].
  rewrite E. apply Forall_fmap, Forall_forall. intros i _. cbn.
  assert (0 < 2 ^ Z.of_nat (streak (take i attempts))) by (apply Z.pow_pos_nonneg; lia).
  lia.
Qed.

End ReconnectFacts.

(* ===================================================================== *)
(** ** The presence of an endpoint *)
(* ===================================================================== *)

Section EndpointFacts.
Import Js Endpoint.

Local Abbreviation rankOf := (fun conn : Connection.t => rank (Connection.presence conn)).

Lemma sorter_le (a b : Connection.t) :
  (sorter a b <=? 0) = (rankOf a <=? rankOf b)%nat.
Proof.
  unfold sorter. cbn zeta.
  destruct (Nat.ltb_spec (rankOf a) (rankOf b));
    [|destruct (Nat.ltb_spec (rankOf b) (rankOf a))];
    destruct (Nat.leb_spec (rankOf a) (rankOf b)); cbn; try done; lia.
Qed.

Lemma insertSorted_perm {A : Type} (f : A -> A -> Z) (x : A) (l : list A) :
  insertSorted f x l ≡ₚ x :: l.
Proof.
  induction l as [|y l IH]; [done|]. cbn. case_match; [done|].
  rewrite IH. apply Permutation_swap.
Qed.

Lemma sort_perm {A : Type} (f : A -> A -> Z) (l : list A) : sort f l ≡ₚ l.
Proof.
  unfold sort. induction l as [|x l IH]; [done|].
  cbn. by rewrite insertSorted_perm, IH.
Qed.

Lemma head_insertSorted (x : Connection.t) (l : list Connection.t) :
  head (insertSorted sorter x l)
  = Some (match head l with
          | Some h => if (rankOf x <=? rankOf h)%nat then x else h
          | None => x
          end).
Proof. destruct l as [|h l]; [done|]. cbn. rewrite sorter_le. by case_match. Qed.

(** The first of the connections whose presence ranks highest comes
    first in the sorted array. *)
Lemma head_sort_first_best (l1 l2 : list Connection.t) (best : Connection.t) :
  Forall (fun conn => (rankOf best < rankOf conn)%nat) l1 ->
  Forall (fun conn => (rankOf best <= rankOf conn)%nat) l2 ->
  head (sort sorter (l1 ++ best :: l2)) = Some best.
Proof.
  intros H1 H2. induction H1 as [|x l1 Hx _ IH].
  - cbn [app]. unfold sort. cbn [foldr]. rewrite head_insertSorted.
    fold (sort sorter l2).
    destruct (head (sort sorter l2)) as [h|] eqn:Hh; [|done].
    assert (h ∈ l2) as Hin.
    { rewrite <- (sort_perm sorter l2). destruct (sort sorter l2); [done|].
      cbn in Hh. simplify_eq. by left. }
    pose proof (proj1 (Forall_forall _ _) H2 h Hin) as Hle. cbn beta in Hle.
    by destruct (Nat.leb_spec (rankOf best) (rankOf h)); [|lia].
  - cbn [app]. unfold sort. cbn [foldr]. rewrite head_insertSorted.
    fold (sort sorter (l1 ++ best :: l2)). rewrite IH. cbn beta in Hx.
    by destruct (Nat.leb_spec (rankOf x) (rankOf best)); [lia|].
Qed.

(** Every list that is not empty has a first element of the lowest
    rank. *)
Lemma first_best_exists (l : list Connection.t) :
  l <> [] ->
  exists l1 best l2, l = l1 ++ best :: l2 /\
    Forall (fun conn => (rankOf best < rankOf conn)%nat) l1 /\
    Forall (fun conn => (rankOf best <= rankOf conn)%nat) l2.
Proof.
  induction l as [|x l IH]; [done|]. intros _.
  destruct l as [|y l].
  - exists [], x, []. by repeat split.
  - destruct IH as (l1 & best & l2 & E & H1 & H2); [done|].
    destruct (Nat.leb_spec (rankOf x) (rankOf best)).
    + exists [], x, (y :: l). split; [done|]. split; [done|].
      rewrite E. apply Forall_app. split.
      * eapply Forall_impl; [exact H1|]. cbn. lia.
      * apply Forall_cons. split; [done|]. eapply Forall_impl; [exact H2|]. cbn. lia.
    + exists (x :: l1), best, l2. rewrite E. split; [done|]. split; [|done].
      by apply Forall_cons.
Qed.

Lemma resolved_presence (e : t) (l1 l2 : list Connection.t) (best : Connection.t) :
  connections e = l1 ++ best :: l2 ->
  Forall (fun conn => (rankOf best < rankOf conn)%nat) l1 ->
  Forall (fun conn => (rankOf best <= rankOf conn)%nat) l2 ->
  presence (resolvePresence None e) = Connection.presence best.
Proof.
  intros E H1 H2. unfold resolvePresence. cbn [presence]. rewrite E.
  pose proof (head_sort_first_best l1 l2 best H1 H2) as Hh.
  destruct (sort sorter (l1 ++ best :: l2)); [done|]. cbn in Hh. by simplify_eq.
Qed.

Lemma first_best_minimal (l1 l2 : list Connection.t) (best conn : Connection.t) :
  Forall (fun conn => (rankOf best < rankOf conn)%nat) l1 ->
  Forall (fun conn => (rankOf best <= rankOf conn)%nat) l2 ->
  conn ∈ l1 ++ best :: l2 -> (rankOf best <= rankOf conn)%nat.
Proof.
  intros H1 H2 Hin. apply elem_of_app in Hin as [Hin|Hin].
  - pose proof (proj1 (Forall_forall _ _) H1 conn Hin). cbn in *. lia.
  - apply elem_of_cons in Hin as [->|Hin]; [done|].
    by pose proof (proj1 (Forall_forall _ _) H2 conn Hin).
Qed.

(** X26.  Without a function of the application's own, [resolvePresence]
    gives the endpoint the presence of the first of its connections
    whose presence ranks highest in chat, available, away, dnd, xa,
    unavailable, any other value ranking last; it keeps the connections,
    in another order; without connections the presence is
    "unavailable". *)
Theorem resolvePresence_takes_the_first_of_the_best (e : t) :
  let e' := resolvePresence None e in
  connections e' ≡ₚ connections e /\
  (connections e = [] -> presence e' = JStr "unavailable") /\
  (forall l1 best l2,
     connections e = l1 ++ best :: l2 ->
     Forall (fun conn => (rankOf best < rankOf conn)%nat) l1 ->
     Forall (fun conn => (rankOf best <= rankOf conn)%nat) l2 ->
     presence e' = Connection.presence best) /\
  (forall conn, conn ∈ connections e -> (rank (presence e') <= rankOf conn)%nat).
Proof.
  intros e'. subst e'.
  split; [apply sort_perm|].
  split; [unfold resolvePresence; by intros ->|].
  split; [intros l1 best l2; apply resolved_presence|].
  intros conn Hin.
  destruct (first_best_exists (connections e)) as (l1 & best & l2 & E & H1 & H2).
  { intros E. rewrite E in Hin. by apply elem_of_nil in Hin. }
  rewrite (resolved_presence e l1 l2 best E H1 H2).
  rewrite E in Hin. by eapply first_best_minimal.
Qed.

Lemma indexOf_lookup (x : string) (arr : list string) (i : nat) :
  indexOf x arr = Some i -> arr !! i = Some x.
Proof.
  revert i. induction arr as [|y arr IH]; intros i; [done|]. cbn [indexOf].
  destruct (String.eqb_spec x y) as [->|_]; [by intros [= <-]|].
  destruct (indexOf x arr) as [k|]; [|done]. intros [= <-]. by apply IH.
Qed.

Lemma rank_known (p q : Json) :
  (rank p < 1000)%nat -> rank p = rank q -> p = q.
Proof.
  intros Hp E. assert (rank q < 1000)%nat as Hq by lia.
  unfold rank in *.
  destruct p as [| | |s| |]; try lia. destruct q as [| | |s'| |]; try lia.
  destruct (indexOf s PRESENCE_CONSTANTS) as [i|] eqn:Ei; [|cbn in Hp; lia].
  destruct (indexOf s' PRESENCE_CONSTANTS) as [i'|] eqn:Ei'; [|cbn in Hq; lia].
  cbn in E. subst i'.
  apply indexOf_lookup in Ei, Ei'. congruence.
Qed.

(** X27.  When the presence that ranks highest is one of the six known
    values, the order of the connections does not matter: the endpoint
    gets the same presence for every order. *)
Theorem resolvePresence_does_not_depend_on_the_order (e1 e2 : t) (conn : Connection.t) :
  connections e1 ≡ₚ connections e2 ->
  conn ∈ connections e1 -> (rankOf conn < 1000)%nat ->
  presence (resolvePresence None e1) = presence (resolvePresence None e2).
Proof.
  intros Hperm Hin Hknown.
  destruct (first_best_exists (connections e1)) as (l1 & b1 & l1' & E1 & H1 & H1').
  { intros E. rewrite E in Hin. by apply elem_of_nil in Hin. }
  destruct (first_best_exists (connections e2)) as (l2 & b2 & l2' & E2 & H2 & H2').
  { intros E. rewrite E in Hperm. apply Permutation_nil_r in Hperm.
    rewrite Hperm in Hin. by apply elem_of_nil in Hin. }
  rewrite (resolved_presence e1 _ _ _ E1 H1 H1'), (resolved_presence e2 _ _ _ E2 H2 H2').
  assert (b1 ∈ connections e2) as I1.
  { rewrite <- Hperm, E1. apply elem_of_app. right. by left. }
  assert (b2 ∈ connections e1) as I2.
  { rewrite Hperm, E2. apply elem_of_app. right. by left. }
  rewrite E1 in Hin, I2. rewrite E2 in I1.
  pose proof (first_best_minimal _ _ _ _ H1 H1' Hin) as A1.
  pose proof (first_best_minimal _ _ _ _ H1 H1' I2) as A2.
  pose proof (first_best_minimal _ _ _ _ H2 H2' I1) as A3.
  apply rank_known; cbn in *; lia.
Qed.

(** X28.  [getConnection] with an id gives the first connection that has this
    id, no connection before it in the list having the id, or [null]
    when there is none, also when the endpoint has one connection only;
    without an id it gives the connection of an endpoint that has
    exactly one, and throws otherwise. *)
Theorem getConnection_by_id (connectionId : option string) (e : t) :
  match getConnection connectionId e with
  | Channel.Normal (Some conn) =>
      conn ∈ connections e /\
      (Routing.isSet connectionId = true ->
       exists i, connections e !! i = Some conn /\
                 Some (Connection.id conn) = connectionId /\
                 forall j other, (j < i)%nat -> connections e !! j = Some other ->
                                 Some (Connection.id other) <> connectionId) /\
      (Routing.isSet connectionId = false -> connections e = [conn])
  | Channel.Normal None =>
      Routing.isSet connectionId = true /\
      forall conn, conn ∈ connections e -> Some (Connection.id conn) <> connectionId
  | Channel.Throw _ =>
      Routing.isSet connectionId = false /\ length (connections e) <> 1%nat
  end.
Proof.
  assert (forall l : list Connection.t,
    match List.find (fun conn => bool_decide (Some (Connection.id conn) = connectionId)) l with
    | Some conn =>
        exists i, l !! i = Some conn /\ Some (Connection.id conn) = connectionId /\
                  forall j other, (j < i)%nat -> l !! j = Some other ->
                                  Some (Connection.id other) <> connectionId
    | None => forall conn, conn ∈ l -> Some (Connection.id conn) <> connectionId
    end) as Hfind.
  { induction l as [|x l IH]; [by intros conn ?%elem_of_nil|]. cbn [List.find].
    case_bool_decide as Hx.
    - exists 0%nat. split; [done|]. split; [done|]. intros j other Hj. lia.
    - destruct (List.find _ l).
      + destruct IH as (i & Hi & Hid & Hbefore). exists (S i).
        split; [done|]. split; [done|].
        intros [|j] other Hj Hl; [by injection Hl as <-|].
        apply (Hbefore j); [lia|done].
      + intros conn [->|Hin]%elem_of_cons; [done|by apply IH]. }
  unfold getConnection.
  destruct (Routing.isSet connectionId) eqn:Hset; cbn [negb].
  - assert (match
        List.find (fun conn => bool_decide (Some (Connection.id conn) = connectionId))
          (connections e)
      with
      | Some conn => conn ∈ connections e /\
          (true = true ->
           exists i, connections e !! i = Some conn /\
                     Some (Connection.id conn) = connectionId /\
                     forall j other, (j < i)%nat -> connections e !! j = Some other ->
                                     Some (Connection.id other) <> connectionId) /\
          (true = false -> connections e = [conn])
      | None => true = true /\
          forall conn, conn ∈ connections e -> Some (Connection.id conn) <> connectionId
      end) as H.
    { specialize (Hfind (connections e)). destruct (List.find _ _); [|done].
      destruct Hfind as (i & Hi & Hrest).
      split; [by eapply list_elem_of_lookup_2|]. split; [|done].
      intros _. by exists i. }
    by destruct (connections e) as [|? [|? ?]].
  - destruct (connections e) as [|only [|? ?]]; cbn; try done.
    split; [by left|done].
Qed.

End EndpointFacts.

(* ===================================================================== *)
(** ** Connecting *)
(* ===================================================================== *)

Section ConnectingFacts.
Import Js Text Connecting.

Lemma split_host_port (host port : string) :
  without ":" host -> without ":" port -> without "/" port ->
  split "://" (host +:+ ":" +:+ port) = [host +:+ ":" +:+ port].
Proof.
  intros Hh Hp Hs. unfold split. induction host as [|x host IH].
  - change (EmptyString +:+ ":" +:+ port) with (String ":" port).
    cbn [splitFrom].
    assert (String.prefix "://" (String ":" port) = false) as ->.
    { change (String.prefix "://" (String ":" port))
        with (if ascii_dec ":" ":" then String.prefix "//" port else false).
      destruct (ascii_dec ":" ":"); [|done].
      destruct port as [|p port]; [done|].
      apply without_cons in Hs as [Hne _]. by apply prefix_other. }
    fold (split "://" port). by rewrite (split_whole ":" "//" port).
  - apply without_cons in Hh as [Hx Hh]. rewrite append_cons.
    cbn [splitFrom]. rewrite (prefix_other ":" x "//") by done.
    by rewrite IH.
Qed.

(** X29.  From a base URL made of a protocol, ["://"], a host and, after a
    colon, a port, [authenticate] takes these three; without a port, or
    with an empty one, the port is 443, whatever the protocol; the
    connection is secure exactly for the protocol https. *)
Theorem connectParams_of_a_base_url (protocol host port : string) :
  without ":" protocol -> without ":" host -> without ":" port -> without "/" port ->
  connectParams (protocol +:+ "://" +:+ host +:+ ":" +:+ port)
  = Some {| Connecting.host := host;
            Connecting.port := if String.eqb port EmptyString then "443" else port;
            Connecting.protocol := protocol;
            secure := String.eqb protocol "https" |} /\
  connectParams (protocol +:+ "://" +:+ host)
  = Some {| Connecting.host := host; Connecting.port := "443";
            Connecting.protocol := protocol;
            secure := String.eqb protocol "https" |}.
Proof.
  intros Hpr Hh Hp Hs. unfold connectParams. split.
  - rewrite (split_piece ":" "//" protocol _ Hpr).
    rewrite split_host_port by done.
    rewrite (split_piece ":" EmptyString host port Hh).
    by rewrite (split_whole ":" EmptyString port Hp).
  - rewrite (split_piece ":" "//" protocol _ Hpr).
    rewrite (split_whole ":" "//" host Hh).
    by rewrite (split_whole ":" EmptyString host Hh).
Qed.

Lemma length_turnServers (f : Json -> JsVal -> JsVal -> Json) (creds : Json)
    (uris : list Json) :
  length (turnServers f creds uris) = length (filter (fun u => truthy u = true) uris).
Proof.
  unfold turnServers. induction uris as [|u uris IH]; [done|].
  cbn [omap list_omap]. rewrite filter_cons.
  destruct (truthy u) eqn:E.
  - rewrite decide_True by done. cbn. by rewrite IH.
  - rewrite decide_False by done. exact IH.
Qed.

(** X30.  The TURN credentials of a response that lists URIs: the promise of
    [getTurnCredentials] is resolved with one server for each URI that
    is not empty, in their order, and rejected with "Got no TURN
    credentials." when there is none: it is never resolved with an empty
    list. *)
Theorem turn_credentials_are_never_empty (createIceServer : Json -> JsVal -> JsVal -> Json)
    (creds : Json) (uris : list Json) (d : nat) (c : Channel.Channel) :
  Channel.isPending d c = true -> truthy creds = true ->
  getProp creds "uris" = Some (Some (JArr uris)) ->
  let c' := (getTurnCredentialsDone createIceServer (Some creds) d c).1 in
  let servers := turnServers createIceServer creds uris in
  length servers = length (filter (fun u => truthy u = true) uris) /\
  Channel.promises c' !! d =
    Some (match servers with
          | [] => Channel.Rejected "Got no TURN credentials."
          | _ => Channel.Resolved (Some (JArr servers))
          end).
Proof.
  intros Hp Hc Hu c' servers. subst c' servers.
  split; [apply length_turnServers|].
  unfold getTurnCredentialsDone. rewrite Hc, Hu. cbn [negb fst].
  assert (d < length (Channel.promises c))%nat as Ld.
  { unfold Channel.isPending in Hp. destruct (Channel.promises c !! d) eqn:E; [|done].
    by eapply lookup_lt_Some. }
  destruct (turnServers createIceServer creds uris) as [|s servers].
  - unfold Channel.resolve, Channel.reject.
    rewrite (settle_settled d (Channel.Resolved _)).
    + rewrite settle_pending by done. by apply list_lookup_insert_eq.
    + unfold Channel.isPending. rewrite settle_pending by done.
      by rewrite list_lookup_insert_eq.
  - unfold Channel.resolve. rewrite settle_pending by done.
    by apply list_lookup_insert_eq.
Qed.

End ConnectingFacts.

(* ===================================================================== *)
(** ** The further facts on examples *)
(* ===================================================================== *)

Section MoreExamples.
Import Js Channel History Sample.

(** A request rejected by a disconnection stays rejected when its
    response arrives after all. *)
Lemma settled_promise_is_final_witness :
  let c := Sample.exec create [CallWs getTurn; Disconnect] in
  promises c !! 2%nat = Some (Rejected "WebSocket disconnected") /\
  promises (Sample.exec c [Respond 0 (respond 200 []) (Some 200); RunJob]) !! 2%nat
    = Some (Rejected "WebSocket disconnected").
Proof.
  intros c. split; [by vm_compute|].
  apply (settled_promise_is_final stringify expand sdk token c
           [Respond 0 (respond 200 []) (Some 200); RunJob] 2%nat
           (Rejected "WebSocket disconnected")); [by vm_compute|done].
Defined.

(** A 429 that arrives after the disconnection sets no timer. *)
Lemma response_after_settlement_witness :
  let c := Sample.exec create [CallWs getTurn; Disconnect] in
  let r := respond 429 [("error"%string, JStr "Rate limit exceeded")] in
  (exists ex, exchanges c !! 0%nat = Some ex /\ isPending (deferred ex) c = false) /\
  promises (Sample.step c (Respond 0 r None)) = promises c /\
  timers (Sample.step c (Respond 0 r None)) = [].
Proof.
  intros c r.
  assert (exists ex, exchanges c !! 0%nat = Some ex /\ isPending (deferred ex) c = false)
    as (ex & Hx & Hp) by (eexists; split; by vm_compute).
  split; [by exists ex|].
  destruct (response_after_settlement stringify expand sdk token 0 ex r None c Hx Hp)
    as (E1 & E2 & _).
  split; [exact E1|]. etrans; [exact E2|by vm_compute].
Defined.

(** A 200 for the TURN credentials, handled with [this.status] 200. *)
Lemma expected_status_resolves_witness :
  let c := Sample.exec create [CallWs getTurn; Elapse 40] in
  let r := respond 200 [("error"%string, JStr "none"); ("uris"%string, JArr [])] in
  (exists ex, exchanges c !! 0%nat = Some ex /\ deferred ex = 2%nat /\ start ex = 0) /\
  promises (Sample.step c (Respond 0 r (Some 200))) !! 2%nat
    = Some (Resolved (Some (JObj [("error"%string, JStr "none"); ("uris"%string, JArr [])]))) /\
  (durationMillis ∘ request <$> exchanges (Sample.step c (Respond 0 r (Some 200))) !! 0%nat)
    = Some 40.
Proof.
  intros c r.
  assert (exists ex, exchanges c !! 0%nat = Some ex /\ deferred ex = 2%nat /\ start ex = 0)
    as (ex & Hx & Hd & Hs) by (eexists; repeat split; by vm_compute).
  split; [by exists ex|].
  destruct (expected_status_resolves stringify expand sdk token 0 ex r
              (JObj [("error"%string, JStr "none"); ("uris"%string, JArr [])])
              (Some 200) c Hx eq_refl ltac:(done) eq_refl eq_refl
              ltac:(rewrite Hd; by vm_compute))
    as (E1 & E2 & _).
  rewrite Hd in E1. rewrite Hs in E2. split; [exact E1|exact E2].
Defined.

(** The 401 of an account suspended for billing. *)
Lemma suspended_account_is_rejected_witness :
  let c := Sample.exec create [CallWs getTurn] in
  let b := [("error"%string, JStr "Unauthorized");
            ("details"%string,
             JObj [("message"%string, JStr "account suspended");
                   ("reason"%string, JStr "billing suspension")])] in
  (exists ex, exchanges c !! 0%nat = Some ex /\ deferred ex = 2%nat /\
              method (request ex) = "get"%string /\ path (request ex) = "/v1/turn"%string) /\
  isSuspensionUnauthorizedResponse 401 (JObj b) = true /\
  promises (Sample.step c (Respond 0 (respond 401 b) (Some 401))) !! 2%nat
    = Some (Rejected (billingSuspensionErrorMessage +:+ " (get /v1/turn)")).
Proof.
  intros c b.
  assert (exists ex, exchanges c !! 0%nat = Some ex /\ deferred ex = 2%nat /\
              method (request ex) = "get"%string /\ path (request ex) = "/v1/turn"%string)
    as (ex & Hx & Hd & Hm & Hq) by (eexists; repeat split; by vm_compute).
  split; [by exists ex|]. split; [by vm_compute|].
  destruct (suspended_account_is_rejected stringify expand sdk token 0 ex
              (respond 401 b) (JObj b) (Some 401) c Hx eq_refl
              ltac:(by vm_compute) ltac:(by vm_compute)
              ltac:(rewrite Hd; by vm_compute)) as [_ E].
  rewrite Hd, Hm, Hq in E. exact E.
Defined.

(** A call of [joinGroup] while disconnected, and the next batch. *)
Lemma joinGroup_not_connected_witness :
  let c := setConnected false create in
  let c1 := (joinGroup [JStr "g1"] c).1 in
  (connected c = false /\ isPending (joinDeferred c) c = true) /\
  promises c1 !! 0%nat = Some (Rejected notConnectedMessage) /\
  (joinGroup [JStr "g2"] (setConnected true c1)).2 = 0%nat.
Proof.
  intros c c1.
  destruct (joinGroup_not_connected [JStr "g1"] [JStr "g2"] c eq_refl eq_refl)
    as (_ & E1 & _ & _ & _ & E2 & _).
  split; [done|]. split; [exact E1|exact E2].
Defined.

Lemma registerPresence_not_connected_witness :
  let c := setConnected false create in
  connected c = false /\
  (registerPresence [JStr "u1"] c).2 = 2%nat /\
  promises (registerPresence [JStr "u1"] c).1 !! 2%nat
    = Some (Rejected notConnectedMessage) /\
  promises (registerPresence [JStr "u1"] c).1 !! presenceDeferred c = Some Pending.
Proof.
  intros c.
  destruct (registerPresence_not_connected [JStr "u1"] c eq_refl)
    as (E1 & E2 & E3 & _).
  split; [done|]. split; [exact E1|]. split; [exact E2|].
  exact (E3 1%nat ltac:(cbn; lia)).
Defined.



End MoreExamples.

Section SignalExamples.
Import Js Routing Signals.

(** An answer for the call of its session. *)
Lemma accepted_signal_reaches_its_handler_witness :
  let signal := {| signalType := "answer"; sessionId := "s1";
                   fromConnection := Some "c2"%string |} in
  let call := {| id := "s1"; caller := true; connectionId := None |} in
  (socketOnSignal (Some "call"%string) signal = Routes signal /\
   id call = sessionId signal) /\
  successHandler (Some call) signal
  = Delivered {| id := "s1"; caller := true; connectionId := Some "c2"%string |}
              [{| eventName := "signal-answer"; payload := signal |}].
Proof.
  intros signal call.
  destruct (accepted_signal_reaches_its_handler (Some "call"%string) signal call
              eq_refl eq_refl) as (call' & fired & name & E & _).
  split; [done|]. by vm_compute.
Defined.

(** The byes of two connections after the answer of the first. *)
Lemma bye_after_answer_witness :
  let call := {| id := "s1"; caller := true; connectionId := None |} in
  let answer := {| signalType := "answer"; sessionId := "s1";
                   fromConnection := Some "c1"%string |} in
  let bye1 := {| signalType := "bye"; sessionId := "s1";
                 fromConnection := Some "c1"%string |} in
  let bye2 := {| signalType := "bye"; sessionId := "s1";
                 fromConnection := Some "c2"%string |} in
  (caller call = true /\ fromConnection answer = Some "c1"%string) /\
  (doBye (doAnswer call answer).1 bye1).2
    = [{| eventName := "signal-hangup"; payload := bye1 |}] /\
  (doBye (doAnswer call answer).1 bye2).2 = [].
Proof.
  intros call answer bye1 bye2.
  destruct (bye_after_answer call answer bye1 "c1" eq_refl eq_refl ltac:(done))
    as (_ & _ & E1 & _).
  destruct (bye_after_answer call answer bye2 "c1" eq_refl eq_refl ltac:(done))
    as (_ & _ & _ & E2).
  split; [done|]. split; [by apply E1|by apply E2].
Defined.

End SignalExamples.

Section ContainerExamples.
Import PendingRequests.

(** Two deferreds added to an empty container, and the key of the first
    removed. *)
Lemma remove_deletes_the_next_object_witness :
  let p2 := (add (add (create (A := nat)) 10%nat).1 20%nat).1 in
  (length (contents (create (A := nat))) <= counter (create (A := nat)))%nat /\
  (add (create (A := nat)) 10%nat).2 = 1%nat /\
  contents (remove p2 1) = [Some 10%nat; None].
Proof.
  intros p2.
  destruct (remove_deletes_the_next_object (create (A := nat)) 10%nat 20%nat
              ltac:(cbn; lia)) as (E1 & _).
  split; [cbn; lia|]. split; [exact E1|done].
Defined.

End ContainerExamples.

Section BodySizeExamples.
Import Js Encoding.

(** A text with a space, a quote and a percent sign. *)
Lemma bodyLength_of_ascii_witness :
  let json := stringify (JObj [("a"%string, JStr "50 %")]) in
  Forall (fun c => 0 <= c < 128) json /\ bodyLength json = Some 12.
Proof.
  intros json.
  assert (Forall (fun c => 0 <= c < 128) json) as H.
  { replace json with [123; 34; 97; 34; 58; 34; 53; 48; 32; 37; 34; 125]
      by (by vm_compute).
    repeat (apply Forall_cons_2; [lia|]). apply Forall_nil_2. }
  split; [exact H|]. exact (bodyLength_of_ascii json H).
Defined.

(** An e with an acute accent and the euro sign: two code units, five
    octets. *)
Lemma bodyLength_bounds_witness :
  (Forall isCodeUnit [233; 8364] /\ bodyLength [233; 8364] = Some 5) /\
  Z.of_nat (length [233; 8364]) <= 5 <= 3 * Z.of_nat (length [233; 8364]).
Proof.
  assert (Forall isCodeUnit [233; 8364]) as H.
  { repeat (apply Forall_cons_2; [unfold isCodeUnit; lia|]). apply Forall_nil_2. }
  split; [split; [exact H|by vm_compute]|].
  exact (bodyLength_bounds [233; 8364] 5 H ltac:(by vm_compute)).
Defined.

End BodySizeExamples.

Section HttpExamples.
Import Js Text Http.

Lemma without_decide (ch : ascii) (s : string) :
  forallb (fun x => negb (Ascii.eqb x ch)) (list_ascii_of_string s) = true ->
  without ch s.
Proof.
  intros H. apply Forall_forall. intros x Hx. apply list_elem_of_In in Hx.
  pose proof (proj1 (forallb_forall _ _) H x Hx) as Hb. cbn beta in Hb.
  intros ->. by rewrite Ascii.eqb_refl in Hb.
Qed.

(** Three headers, the value of the last with a colon and a space. *)
Lemma getAllResponseHeaders_reads_the_block_witness :
  let hs := [("Content-Type", "application/json"); ("__proto__", "x");
             ("Request-Id", "abc: def")]%string in
  let result := getAllResponseHeaders (Some (headerBlock hs)) in
  Forall (fun kv => kv.1 <> EmptyString /\ without ":" kv.1 /\
                    without CR kv.1 /\ without CR kv.2) hs /\
  result = [("Content-Type", "application/json"); ("Request-Id", "abc: def")]%string /\
  JsObject.own "Request-Id" result = Some "abc: def"%string /\
  JsObject.own "__proto__" result = None.
Proof.
  intros hs result.
  assert (Forall (fun kv => kv.1 <> EmptyString /\ without ":" kv.1 /\
                    without CR kv.1 /\ without CR kv.2) hs) as H.
  { repeat (apply Forall_cons_2;
              [split; [done|repeat split; apply without_decide; reflexivity]|]).
    apply Forall_nil_2. }
  split; [exact H|].
  destruct (getAllResponseHeaders_reads_the_block hs H) as (E & _ & _ & Hown).
  split; [exact E|].
  split; [etrans; [apply Hown|by vm_compute]|].
  etrans; [apply Hown|reflexivity].
Defined.

(** An object among the parameters. *)
Lemma makeParamString_leaves_objects_out_witness :
  let fs1 := [("a"%string, Some (JStr "1"))] in
  let fs2 := [("l"%string, Some (JArr [JNum 1; JNull; JStr "x"])); ("u"%string, None)] in
  makeParamString (Some (fs1 ++ ("o"%string, Some (JObj [])) :: fs2))
    = "?a=1&l=1,,x&u="%string /\
  makeParamString (Some [("o"%string, Some (JObj [])); ("n"%string, Some JNull)])
    = EmptyString.
Proof.
  intros fs1 fs2.
  destruct (makeParamString_leaves_objects_out fs1 fs2 "o" (JObj [])
              ltac:(right; by eexists)) as [E _].
  split; [etrans; [exact E|by vm_compute]|].
  destruct (makeParamString_leaves_objects_out [("o"%string, Some (JObj []))] []
              "n" JNull ltac:(by left)) as [E1 E2].
  etrans; [exact E1|]. apply E2.
  apply Forall_cons_2; [right; by eexists|apply Forall_nil_2].
Defined.

(** A response of status 500, and one of status 404. *)
Lemma call_resolves_expected_statuses_only_witness :
  let xhr := fun s => answer s (JObj []) in
  (readyState (xhr 500) = 4 /\ status (xhr 500) <> 0) /\
  onreadystatechange "https://api.respoke.io/v1/tokens" None (xhr 500)
    = Reject "unexpected response code 500" /\
  (exists r, onreadystatechange "https://api.respoke.io/v1/tokens" None (xhr 404)
             = Resolve r /\ error r = Some "Item not found."%string).
Proof.
  intros xhr.
  pose proof (call_resolves_expected_statuses_only
                "https://api.respoke.io/v1/tokens" None (xhr 500) eq_refl ltac:(done))
    as H.
  split; [done|]. split; [by vm_compute|]. eexists. split; by vm_compute.
Defined.

(** The answer to the request for a session token. *)
Lemma doOpen_succeeds_on_200_only_witness :
  let xhr := fun s => answer s (JObj [("token"%string, JStr "t1")]) in
  readyState (xhr 200) = 4 /\
  handle doOpenFulfilled doOpenRejected
    (onreadystatechange "https://api.respoke.io/v1/session-tokens" None (xhr 200))
    = Some (Done None (Some (JStr "t1"))) /\
  handle doOpenFulfilled doOpenRejected
    (onreadystatechange "https://api.respoke.io/v1/session-tokens" None (xhr 401))
    = Some (Failed "Couldn't authenticate app. Can't perform this action: not authenticated.").
Proof.
  intros xhr.
  pose proof (doOpen_succeeds_on_200_only
                "https://api.respoke.io/v1/session-tokens" None (xhr 200) eq_refl) as H.
  split; [done|]. split; by vm_compute.
Defined.

(** A 200 without a token id. *)
Lemma getToken_needs_a_tokenId_witness :
  let xhr := answer 200 (JObj []) in
  (readyState xhr = 4 /\ status xhr = 200 /\ response xhr <> EmptyString /\
   json xhr = Some (JObj [])) /\
  handle getTokenFulfilled getTokenRejected
    (onreadystatechange "https://api.respoke.io/v1/tokens" None xhr)
    = Some (Failed "Couldn't get a developer mode token. undefined").
Proof.
  intros xhr. split; [done|].
  rewrite (getToken_needs_a_tokenId "https://api.respoke.io/v1/tokens" None xhr (JObj [])
             eq_refl eq_refl ltac:(done) eq_refl).
  by vm_compute.
Defined.

End HttpExamples.

Section ReconnectExamples.
Import Reconnect.

(** Eight failed connections, then a success; and a run in which the
    fourth attempt connects and fails later. *)
Lemma reconnect_delays_double_up_to_five_minutes_witness :
  let none := {| appToken := None; token := None; socket := false |} in
  let first := {| appToken := Some "t"%string; token := None; socket := true |} in
  let s := {| reconnectSetting := true; reconnectTimeout := None; session := first |} in
  let run := [ConnectFails none; ConnectFails none; ConnectFails none;
              LaterFails first; ConnectFails none] in
  (reconnectSetting s = true /\ reconnectTimeout s = None /\
   Forall fails (replicate 8 (ConnectFails none)) /\ Forall fails run) /\
  delaysFrom (replicate 8 (ConnectFails none) ++ [Succeeds first]) s
  = [2500; 5000; 10000; 20000; 40000; 80000; 160000; 300000; 300000] /\
  delaysFrom (run ++ [Succeeds first; ConnectFails none]) s
  = [2500; 5000; 10000; 20000; 2500; 5000].
Proof.
  intros none first s run.
  assert (Forall fails (replicate 8 (ConnectFails none))) as H1
    by (repeat constructor).
  assert (Forall fails run) as H2 by (repeat constructor).
  split; [done|].
  destruct (reconnect_delays_double_up_to_five_minutes
              (replicate 8 (ConnectFails none)) first [] s eq_refl eq_refl H1)
    as (E1 & S1 & _).
  destruct (reconnect_delays_double_up_to_five_minutes
              run first [ConnectFails none] s eq_refl eq_refl H2)
    as (E2 & S2 & _).
  split.
  - etrans; [exact S1|]. etrans; [exact E1|]. by vm_compute.
  - etrans; [exact S2|]. etrans; [exact E2|]. by vm_compute.
Defined.

End ReconnectExamples.

Section EndpointExamples.
Import Js Endpoint.

(** Three connections, in two orders. *)
Lemma resolvePresence_does_not_depend_on_the_order_witness :
  let a := {| Connection.id := "c1"; Connection.presence := JStr "away" |} in
  let b := {| Connection.id := "c2"; Connection.presence := JStr "chat" |} in
  let x := {| Connection.id := "c3"; Connection.presence := JNum 5 |} in
  let e1 := {| connections := [a; b; x]; presence := JStr "unavailable" |} in
  let e2 := {| connections := [x; b; a]; presence := JStr "unavailable" |} in
  (connections e1 ≡ₚ connections e2 /\ b ∈ connections e1 /\
   (rank (Connection.presence b) < 1000)%nat) /\
  presence (resolvePresence None e1) = JStr "chat" /\
  presence (resolvePresence None e2) = JStr "chat".
Proof.
  intros a b x e1 e2.
  assert (connections e1 ≡ₚ connections e2) as Hp.
  { exact (Permutation_rev [a; b; x]). }
  assert (b ∈ connections e1) as Hb by (apply list_elem_of_In; cbn; tauto).
  assert (rank (Connection.presence b) < 1000)%nat as Hr by (vm_compute; lia).
  split; [done|].
  rewrite <- (resolvePresence_does_not_depend_on_the_order e1 e2 b Hp Hb Hr).
  split; by vm_compute.
Defined.

End EndpointExamples.

Section ConnectingExamples.
Import Js Text Connecting Channel.

Lemma connectParams_of_a_base_url_witness :
  (without ":" "https" /\ without ":" "api.respoke.io" /\ without ":" "8080" /\
   without "/" "8080") /\
  connectParams "https://api.respoke.io:8080"
  = Some {| host := "api.respoke.io"; port := "8080"; protocol := "https";
            secure := true |} /\
  connectParams "https://api.respoke.io"
  = Some {| host := "api.respoke.io"; port := "443"; protocol := "https";
            secure := true |}.
Proof.
  assert (without ":" "https" /\ without ":" "api.respoke.io" /\ without ":" "8080" /\
          without "/" "8080") as (H1 & H2 & H3 & H4)
    by (repeat split; apply without_decide; reflexivity).
  split; [done|].
  exact (connectParams_of_a_base_url "https" "api.respoke.io" "8080" H1 H2 H3 H4).
Defined.

(** Two URIs, one of them empty; and none. *)
Lemma turn_credentials_are_never_empty_witness :
  let createIceServer := fun (uri : Json) (username password : JsVal) =>
    JObj [("url"%string, uri); ("username"%string, default JNull username);
          ("credential"%string, default JNull password)] in
  let creds := fun uris =>
    JObj [("uris"%string, JArr uris); ("username"%string, JStr "u");
          ("password"%string, JStr "p")] in
  (isPending 0 create = true /\ truthy (creds []) = true) /\
  promises (getTurnCredentialsDone createIceServer
              (Some (creds [JStr EmptyString; JStr "turn:h"])) 0 create).1 !! 0%nat
    = Some (Resolved (Some (JArr [JObj [("url"%string, JStr "turn:h");
                                         ("username"%string, JStr "u");
                                         ("credential"%string, JStr "p")]]))) /\
  promises (getTurnCredentialsDone createIceServer
              (Some (creds [JStr EmptyString])) 0 create).1 !! 0%nat
    = Some (Rejected "Got no TURN credentials.").
Proof.
  intros createIceServer creds. split; [done|].
  destruct (turn_credentials_are_never_empty createIceServer
              (creds [JStr EmptyString; JStr "turn:h"]) [JStr EmptyString; JStr "turn:h"]
              0 create eq_refl eq_refl eq_refl) as [_ E1].
  destruct (turn_credentials_are_never_empty createIceServer
              (creds [JStr EmptyString]) [JStr EmptyString]
              0 create eq_refl eq_refl eq_refl) as [_ E2].
  split; [exact E1|exact E2].
Defined.

End ConnectingExamples.
